(** * gprMax: directive ingestion and run configuration

    A shallow embedding of [gprMax/input_cmds_multiuse.py] and of
    [gprMax/config.py], with the properties of the specification stated
    and settled against it, followed by further properties of the code.

    Python values are modelled as follows.
    - [str] is [string]; only ASCII text is covered.
    - [int] is [Z] (Python integers are unbounded); the interpreter's
      limit of 4300 digits is modelled for [int(str)], not for
      [str(int)].
    - [float] is kept as the exact decimal a token denotes ([pyfloat]); the
      rounding of that decimal to binary64 is outside the model.
    - a [dict] is a [gmap]; an object is the [gmap] of its attributes.
    - a raised exception is the left summand of a sum type.
    - a [pathlib] path is its root and the list of its names, for the
      POSIX flavour; the terminal, the file system and the constants of
      [scipy] are parameters. *)

From Stdlib Require Import ZArith QArith String Ascii List Lia.
From stdpp Require Import base option strings gmap list pretty.

Open Scope Z_scope.

(** ** Python built-ins used by the two source files *)

Module Py.

(** The exceptions the modelled code can raise. *)
Inductive exn : Type :=
| CmdInputError (msg : string)
| ValueError
| IndexError
| TypeError
| KeyError (key : string)
| NameError (name : string)
| UnboundLocalError (name : string)
| AttributeError (name : string).

Definition result (A : Type) : Type := exn + A.

Definition is_CmdInputError (e : exn) : bool :=
  match e with CmdInputError _ => true | _ => false end.

(** Whether a call returned rather than raised. *)
Definition returned {A} (r : result A) : bool :=
  match r with inr _ => true | inl _ => false end.

(** [len(l)] as a Python integer. *)
Definition len {A} (l : list A) : Z := Z.of_nat (length l).

(** [l[i]] for a Python integer [i]: negative indices count from the end,
    anything out of range raises [IndexError]. *)
Definition getitem {A} (l : list A) (i : Z) : result A :=
  let j := if i <? 0 then i + len l else i in
  if j <? 0 then inl IndexError
  else match l !! Z.to_nat j with
       | Some x => inr x
       | None => inl IndexError
       end.

(** Clamping of one slice bound, as [PySlice_AdjustIndices] does for a
    positive step. *)
Definition clamp {A} (l : list A) (i : Z) : Z :=
  let j := if i <? 0 then i + len l else i in
  if j <? 0 then 0 else if len l <? j then len l else j.

(** [l[start:stop]]. *)
Definition slice {A} (l : list A) (start stop : Z) : list A :=
  let a := clamp l start in
  let b := clamp l stop in
  take (Z.to_nat (b - a)) (drop (Z.to_nat a) l).

(** [range(start, stop, step)] for a positive [step]; it is empty when
    [stop <= start]. *)
Fixpoint range_from (k : nat) (start step : Z) : list Z :=
  match k with
  | O => []
  | S k' => start :: range_from k' (start + step) step
  end.

Definition range (start stop step : Z) : list Z :=
  range_from (Z.to_nat ((stop - start + step - 1) / step)) start step.

(** *** Strings *)

Definition code (c : ascii) : Z := Z.of_nat (nat_of_ascii c).

(** [str.isspace] on ASCII: TAB, LF, VT, FF, CR, FS, GS, RS, US, SPACE. *)
Definition isspace (c : ascii) : bool :=
  let n := code c in
  ((9 <=? n) && (n <=? 13)) || ((28 <=? n) && (n <=? 32)).

(** [s.split()]: maximal runs of non-whitespace characters, in order.
    [cur] is the run being read, most recent character first. *)
Fixpoint split_from (cur : option string) (s : string) : list string :=
  match s with
  | EmptyString =>
      match cur with
      | Some w => [String.rev w]
      | None => []
      end
  | String c s' =>
      if isspace c then
        match cur with
        | Some w => String.rev w :: split_from None s'
        | None => split_from None s'
        end
      else split_from (Some (String c (default EmptyString cur))) s'
  end.

Definition split (s : string) : list string := split_from None s.

(** [sep.join(l)]. *)
Definition join (sep : string) (l : list string) : string :=
  String.concat sep l.

Definition lower_ascii (c : ascii) : ascii :=
  let n := code c in
  if (65 <=? n) && (n <=? 90) then ascii_of_nat (Z.to_nat (n + 32)) else c.

(** [s.lower()]. *)
Fixpoint lower (s : string) : string :=
  match s with
  | EmptyString => EmptyString
  | String c s' => String (lower_ascii c) (lower s')
  end.

(** *** Numeric literals *)

Definition digit_of (c : ascii) : option N :=
  let n := code c in
  if (48 <=? n) && (n <=? 57) then Some (Z.to_N (n - 48)) else None.

Definition is_char (c : ascii) (d : ascii) : bool :=
  bool_decide (c = d).

(** The rest of a [digitpart ::= digit (["_"] digit)*] whose first digit
    has been read: [acc] is the value so far and [nd] the number of
    digits.  Returns the value, the digit count and the unread input. *)
Fixpoint digits_tail (acc : N) (nd : nat) (s : list ascii)
  : N * nat * list ascii :=
  match s with
  | [] => (acc, nd, s)
  | c :: s' =>
      match digit_of c with
      | Some d => digits_tail (10 * acc + d)%N (S nd) s'
      | None =>
          if is_char c "_" then
            match s' with
            | c' :: s'' =>
                match digit_of c' with
                | Some d => digits_tail (10 * acc + d)%N (S nd) s''
                | None => (acc, nd, s)
                end
            | [] => (acc, nd, s)
            end
          else (acc, nd, s)
      end
  end.

Definition digitpart (s : list ascii) : option (N * nat * list ascii) :=
  match s with
  | c :: s' =>
      match digit_of c with
      | Some d => Some (digits_tail d 1%nat s')
      | None => None
      end
  | [] => None
  end.

(** An optional sign: [true] for ["-"]. *)
Definition sign (s : list ascii) : bool * list ascii :=
  match s with
  | c :: s' =>
      if is_char c "-" then (true, s')
      else if is_char c "+" then (false, s')
      else (false, s)
  | [] => (false, s)
  end.

Definition chars (s : string) : list ascii := list_ascii_of_string s.

(** The interpreter's default limit on the digits of an integer literal
    given to [int] ([sys.int_info.default_max_str_digits]). *)
Definition int_max_str_digits : N := 4300.

(** [int(s)] in base 10 for a token without surrounding whitespace:
    [[sign] digitpart]; [None] stands for [ValueError].  A literal of more
    than [int_max_str_digits] digits, leading zeros counted, sign and
    underscores not, is refused. *)
Definition int_of_string (s : string) : option Z :=
  let '(neg, s1) := sign (chars s) in
  match digitpart s1 with
  | Some (m, nd, []) =>
      if (N.of_nat nd <=? int_max_str_digits)%N
      then Some (if neg then - Z.of_N m else Z.of_N m)
      else None
  | _ => None
  end.

(** A Python float before rounding: [(-1)^neg * m * 10^e], an infinity or
    a NaN. *)
Inductive pyfloat : Type :=
| Fdec (neg : bool) (m : N) (e : Z)
| Finf (neg : bool)
| Fnan (neg : bool).

(** The rational a finite [pyfloat] denotes. *)
Definition Q_of_float (f : pyfloat) : option Q :=
  match f with
  | Fdec neg m e =>
      let q := if 0 <=? e
               then inject_Z (Z.of_N m * 10 ^ e)
               else Qmake (Z.of_N m) (Z.to_pos (10 ^ (- e))) in
      Some (if neg then Qopp q else q)
  | _ => None
  end.

(** [exponent ::= ("e" | "E") [sign] digitpart], or nothing. *)
Definition exponent (s : list ascii) : option (Z * list ascii) :=
  match s with
  | c :: s' =>
      if is_char c "e" || is_char c "E" then
        let '(neg, s1) := sign s' in
        match digitpart s1 with
        | Some (x, _, rest) =>
            Some (if neg then - Z.of_N x else Z.of_N x, rest)
        | None => None
        end
      else Some (0, s)
  | [] => Some (0, s)
  end.

(** [number ::= [digitpart] "." digitpart | digitpart ["."]]: the decimal
    mantissa, the number of fraction digits and the unread input. *)
Definition number (s : list ascii) : option (N * nat * list ascii) :=
  match digitpart s with
  | Some (i, _, rest) =>
      match rest with
      | c :: rest' =>
          if is_char c "." then
            match digitpart rest' with
            | Some (f, nf, rest'') =>
                Some ((i * 10 ^ N.of_nat nf + f)%N, nf, rest'')
            | None => Some (i, 0%nat, rest')
            end
          else Some (i, 0%nat, rest)
      | [] => Some (i, 0%nat, rest)
      end
  | None =>
      match s with
      | c :: s' =>
          if is_char c "." then
            match digitpart s' with
            | Some (f, nf, rest) => Some (f, nf, rest)
            | None => None
            end
          else None
      | [] => None
      end
  end.

(** [float(s)] for a token without surrounding whitespace; [None] stands
    for [ValueError]. *)
Definition float_of_string (s : string) : option pyfloat :=
  let '(neg, s1) := sign (chars s) in
  let w := lower (string_of_list_ascii s1) in
  if bool_decide (w = "inf") || bool_decide (w = "infinity")
  then Some (Finf neg)
  else if bool_decide (w = "nan") then Some (Fnan neg)
  else
    match number s1 with
    | Some (m, nf, s2) =>
        match exponent s2 with
        | Some (x, []) => Some (Fdec neg m (x - Z.of_nat nf))
        | _ => None
        end
    | None => None
    end.

End Py.

(** ** [gprMax/input_cmds_multiuse.py] *)

Module InputCmdsMultiuse.
Import Py.

(** A position [(x, y, z)] of three floats. *)
Definition point : Type := pyfloat * pyfloat * pyfloat.

(** The trigger of a snapshot: [iterations=] or [time=]. *)
Inductive trigger : Type :=
| iterations (i : Z)
| time (t : pyfloat).

(** The scene objects of [cmds_multiple], one constructor per class, with
    the keyword arguments [process_multicmds] passes.  Optional keyword
    groups ([start]/[end], [id]/[outputs]) are an [option]. *)
Inductive descriptor : Type :=
| Waveform (wave_type : string) (amp freq : pyfloat) (id : string)
| VoltageSource (polarisation : string) (p1 : point) (resistance : pyfloat)
    (waveform_id : string) (start_end : option (pyfloat * pyfloat))
| HertzianDipole (polarisation : string) (p1 : point)
    (waveform_id : string) (start_end : option (pyfloat * pyfloat))
| MagneticDipole (polarisation : string) (p1 : point)
    (waveform_id : string) (start_end : option (pyfloat * pyfloat))
| TransmissionLine (polarisation : string) (p1 : point)
    (resistance : pyfloat) (waveform_id : string)
    (start_end : option (string * string))
| Rx (p1 : point) (id_outputs : option (string * list string))
| RxArray (p1 p2 dl : point)
| Snapshot (p1 p2 dl : point) (trig : trigger) (filename : string)
| Material (er se mr sm : pyfloat) (id : string)
| AddDebyeDispersion (pole : Z) (er_delta tau : list pyfloat)
    (material_ids : list string)
| AddLorentzDispersion (poles : Z) (material_ids : list string)
    (er_delta tau alpha : list pyfloat)
| AddDrudeDispersion (poles : Z) (material_ids : list string)
    (tau alpha : list pyfloat)
| SoilPeplinski (sand_fraction clay_fraction bulk_density sand_density
    water_fraction_lower water_fraction_upper : pyfloat) (id : string)
| GeometryView (p1 p2 dl : point) (filename output_type : string)
| GeometryObjectsWrite (p1 p2 : point) (filename : string)
| PMLCFS (alphascalingprofile alphascalingdirection alphamin alphamax
    kappascalingprofile kappascalingdirection kappamin kappamax
    sigmascalingprofile sigmascalingdirection sigmamin sigmamax : string).

(** The names bound at module level: the sixteen imports and the two
    functions the file defines.  [RxArray] is not among them. *)
Definition module_globals : list string :=
  [ "Waveform"; "VoltageSource"; "HertzianDipole"; "MagneticDipole";
    "TransmissionLine"; "Material"; "Snapshot"; "AddDebyeDispersion";
    "AddLorentzDispersion"; "AddDrudeDispersion"; "SoilPeplinski";
    "GeometryView"; "GeometryObjectsWrite"; "PMLCFS"; "Rx";
    "CmdInputError"; "process_multicmds"; "process_subgrid_hsg" ].

(** The raw directive table: a directive name is mapped to [None] or to
    its instances, in order. *)
Abbreviation table := (gmap string (option (list string))).

(** The two locals of [process_multicmds] that outlive a loop body:
    the output list, and [tmp], unbound until a first instance is split. *)
Record locals : Type := Locals {
  scene_objects : list descriptor;
  tmp : option (list string)
}.

(** State over [locals], with exceptions: a raise leaves the function, so
    it carries no state. *)
Definition M (A : Type) : Type := locals → result (A * locals).

#[global] Instance M_ret : MRet M := λ A x s, inr (x, s).

#[global] Instance M_bind : MBind M := λ A B f m s,
  match m s with
  | inl e => inl e
  | inr (x, s') => f x s'
  end.

Definition raise {A} (e : exn) : M A := λ _, inl e.

Definition lift {A} (r : result A) : M A := λ s,
  match r with
  | inl e => inl e
  | inr x => inr (x, s)
  end.

(** [try: body  except ValueError: handler].  The bodies this is used for
    change no local before they raise, so the handler starts from the
    state at the [try]. *)
Definition try_except_ValueError {A} (body handler : M A) : M A := λ s,
  match body s with
  | inl ValueError => handler s
  | r => r
  end.

(** [for x in l: body], with the loop-carried locals [acc]. *)
Fixpoint for_acc {A B} (l : list A) (acc : B) (body : A → B → M B) : M B :=
  match l with
  | [] => mret acc
  | x :: l' => acc' ← body x acc; for_acc l' acc' body
  end.

Definition for_each {A} (l : list A) (body : A → M unit) : M unit :=
  for_acc l () (λ x _, body x).

(** [scene_objects.append(d)] *)
Definition append (d : descriptor) : M unit := λ s,
  inr ((), Locals (scene_objects s ++ [d]) (tmp s)).

(** [tmp = cmdinstance.split()] *)
Definition split_to_tmp (cmdinstance : string) : M (list string) := λ s,
  let t := split cmdinstance in
  inr (t, Locals (scene_objects s) (Some t)).

(** A read of the local [tmp]. *)
Definition read_tmp : M (list string) := λ s,
  match tmp s with
  | Some t => inr (t, s)
  | None => inl (UnboundLocalError "tmp")
  end.

(** A read of a module-level name. *)
Definition load_global (name : string) : M unit :=
  if bool_decide (name ∈ module_globals) then mret ()
  else raise (NameError name).

(** [name(args)]: the callee is looked up, then the arguments are
    evaluated. *)
Definition call {A} (name : string) (args : M A) : M A :=
  load_global name;; args.

(** [multicmds[cmdname]] *)
Definition lookup_cmd (multicmds : table) (cmdname : string)
  : M (option (list string)) :=
  match multicmds !! cmdname with
  | Some v => mret v
  | None => raise (KeyError cmdname)
  end.

(** [t[i]], [float(s)], [int(s)], [float(t[i])] *)
Definition tok (t : list string) (i : Z) : M string := lift (getitem t i).

Definition float (s : string) : M pyfloat :=
  match float_of_string s with
  | Some f => mret f
  | None => raise ValueError
  end.

Definition int (s : string) : M Z :=
  match int_of_string s with
  | Some i => mret i
  | None => raise ValueError
  end.

Definition ftok (t : list string) (i : Z) : M pyfloat :=
  s ← tok t i; float s.

(** [(float(t[i]), float(t[j]), float(t[k]))] *)
Definition fpoint (t : list string) (i j k : Z) : M point :=
  x ← ftok t i; y ← ftok t j; z ← ftok t k; mret (x, y, z).

(** ["'" + cmdname + ': ' + ' '.join(tmp) + "'" + tail] *)
Definition message (cmdname : string) (t : list string) (tail : string)
  : string :=
  "'" +:+ cmdname +:+ ": " +:+ join " " t +:+ "'" +:+ tail.

(** The frame shared by the first fifteen directives:
    [if multicmds[cmdname] is not None:
       for cmdinstance in multicmds[cmdname]:
         tmp = cmdinstance.split(); body] *)
Definition for_instances (multicmds : table) (cmdname : string)
    (body : list string → M unit) : M unit :=
  v ← lookup_cmd multicmds cmdname;
  match v with
  | None => mret ()
  | Some insts =>
      for_each insts (λ cmdinstance,
        t ← split_to_tmp cmdinstance; body t)
  end.

(** *** The sixteen directive groups of [process_multicmds], in source
    order.  Each [*_body] is the body of the [for] loop over the instances
    of one directive, after [tmp = cmdinstance.split()]. *)

Section Blocks.
Variable multicmds : table.

Definition waveform_body (cmdname : string) (tmp : list string) : M unit :=
  if negb (len tmp =? 4) then
    raise (CmdInputError
             (message cmdname tmp " requires exactly four parameters"))
  else
    waveform ← call "Waveform" (
      wave_type ← tok tmp 0; amp ← ftok tmp 1; freq ← ftok tmp 2;
      id ← tok tmp 3;
      mret (Waveform wave_type amp freq id));
    append waveform.

Definition voltage_source_body (cmdname : string) (tmp : list string)
  : M unit :=
  voltage_source ←
    (if len tmp =? 6 then
       call "VoltageSource" (
         pol ← tok tmp 0; p1 ← fpoint tmp 1 2 3; resistance ← ftok tmp 4;
         waveform_id ← tok tmp 5;
         mret (VoltageSource (lower pol) p1 resistance waveform_id None))
     else if len tmp =? 8 then
       call "VoltageSource" (
         pol ← tok tmp 0; p1 ← fpoint tmp 1 2 3; resistance ← ftok tmp 4;
         waveform_id ← tok tmp 5; start ← ftok tmp 6; end_ ← ftok tmp 7;
         mret (VoltageSource (lower pol) p1 resistance waveform_id
                 (Some (start, end_))))
     else
       raise (CmdInputError
                (message cmdname tmp " requires at least six parameters")));
  append voltage_source.

Definition hertzian_dipole_body (cmdname : string) (tmp : list string)
  : M unit :=
  (if len tmp <? 5 then
     raise (CmdInputError
              (message cmdname tmp " requires at least five parameters"))
   else mret ());;
  hertzian_dipole ←
    (if len tmp =? 5 then
       call "HertzianDipole" (
         pol ← tok tmp 0; p1 ← fpoint tmp 1 2 3; waveform_id ← tok tmp 4;
         mret (HertzianDipole pol p1 waveform_id None))
     else if len tmp =? 7 then
       call "HertzianDipole" (
         pol ← tok tmp 0; p1 ← fpoint tmp 1 2 3; waveform_id ← tok tmp 4;
         start ← ftok tmp 5; end_ ← ftok tmp 6;
         mret (HertzianDipole pol p1 waveform_id (Some (start, end_))))
     else
       raise (CmdInputError (message cmdname tmp " too many parameters")));
  append hertzian_dipole.

Definition magnetic_dipole_body (cmdname : string) (tmp : list string)
  : M unit :=
  (if len tmp <? 5 then
     raise (CmdInputError
              (message cmdname tmp " requires at least five parameters"))
   else mret ());;
  magnetic_dipole ←
    (if len tmp =? 5 then
       call "MagneticDipole" (
         pol ← tok tmp 0; p1 ← fpoint tmp 1 2 3; waveform_id ← tok tmp 4;
         mret (MagneticDipole pol p1 waveform_id None))
     else if len tmp =? 7 then
       call "MagneticDipole" (
         pol ← tok tmp 0; p1 ← fpoint tmp 1 2 3; waveform_id ← tok tmp 4;
         start ← ftok tmp 5; end_ ← ftok tmp 6;
         mret (MagneticDipole pol p1 waveform_id (Some (start, end_))))
     else
       raise (CmdInputError (message cmdname tmp " too many parameters")));
  append magnetic_dipole.

Definition transmission_line_body (cmdname : string) (tmp : list string)
  : M unit :=
  (if len tmp <? 6 then
     raise (CmdInputError
              (message cmdname tmp " requires at least six parameters"))
   else mret ());;
  tl ←
    (if len tmp =? 6 then
       call "TransmissionLine" (
         pol ← tok tmp 0; p1 ← fpoint tmp 1 2 3; resistance ← ftok tmp 4;
         waveform_id ← tok tmp 5;
         mret (TransmissionLine pol p1 resistance waveform_id None))
     else if len tmp =? 8 then
       call "TransmissionLine" (
         pol ← tok tmp 0; p1 ← fpoint tmp 1 2 3; resistance ← ftok tmp 4;
         waveform_id ← tok tmp 5; start ← tok tmp 6; end_ ← tok tmp 7;
         mret (TransmissionLine pol p1 resistance waveform_id
                 (Some (start, end_))))
     else
       raise (CmdInputError (message cmdname tmp " too many parameters")));
  append tl.

Definition rx_body (cmdname : string) (tmp : list string) : M unit :=
  (if negb (len tmp =? 3) && (len tmp <? 5) then
     raise (CmdInputError
              (message cmdname tmp " has an incorrect number of parameters"))
   else mret ());;
  rx ←
    (if len tmp =? 3 then
       call "Rx" (p1 ← fpoint tmp 0 1 2; mret (Rx p1 None))
     else
       call "Rx" (
         p1 ← fpoint tmp 0 1 2; id ← tok tmp 3;
         mret (Rx p1 (Some (id, slice tmp 4 (len tmp))))));
  append rx.

Definition rx_array_body (cmdname : string) (tmp : list string) : M unit :=
  if negb (len tmp =? 9) then
    raise (CmdInputError
             (message cmdname tmp " requires exactly nine parameters"))
  else
    p1 ← fpoint tmp 0 1 2;
    p2 ← fpoint tmp 3 4 5;
    dl ← fpoint tmp 6 7 8;
    rx_array ← call "RxArray" (mret (RxArray p1 p2 dl));
    append rx_array.

Definition snapshot_body (cmdname : string) (tmp : list string) : M unit :=
  if negb (len tmp =? 11) then
    raise (CmdInputError
             (message cmdname tmp " requires exactly eleven parameters"))
  else
    p1 ← fpoint tmp 0 1 2;
    p2 ← fpoint tmp 3 4 5;
    dl ← fpoint tmp 6 7 8;
    filename ← tok tmp 10;
    snapshot ←
      try_except_ValueError
        (n ← (t9 ← tok tmp 9; int t9);
         call "Snapshot" (mret (Snapshot p1 p2 dl (iterations n) filename)))
        (t ← ftok tmp 9;
         call "Snapshot" (mret (Snapshot p1 p2 dl (time t) filename)));
    append snapshot.

Definition material_body (cmdname : string) (tmp : list string) : M unit :=
  if negb (len tmp =? 5) then
    raise (CmdInputError
             (message cmdname tmp " requires exactly five parameters"))
  else
    material ← call "Material" (
      er ← ftok tmp 0; se ← ftok tmp 1; mr ← ftok tmp 2; sm ← ftok tmp 3;
      id ← tok tmp 4;
      mret (Material er se mr sm id));
    append material.

Definition add_dispersion_debye_body (cmdname : string) (tmp : list string)
  : M unit :=
  (if len tmp <? 4 then
     raise (CmdInputError
              (message cmdname tmp " requires at least four parameters"))
   else mret ());;
  poles ← (t0 ← tok tmp 0; int t0);
  let material_ids := slice tmp (2 * poles + 1) (len tmp) in
  '(er_delta, tau) ←
    for_acc (range 1 (2 * poles) 2) ([], [])
      (λ pole '(er_delta, tau),
         x ← ftok tmp pole;
         y ← ftok tmp (pole + 1);
         mret (er_delta ++ [x], tau ++ [y]));
  debye_dispersion ← call "AddDebyeDispersion"
    (mret (AddDebyeDispersion poles er_delta tau material_ids));
  append debye_dispersion.

Definition add_dispersion_lorentz_body (cmdname : string)
    (tmp : list string) : M unit :=
  (if len tmp <? 5 then
     raise (CmdInputError
              (message cmdname tmp " requires at least five parameters"))
   else mret ());;
  poles ← (t0 ← tok tmp 0; int t0);
  let material_ids := slice tmp (3 * poles + 1) (len tmp) in
  '(er_delta, tau, alpha) ←
    for_acc (range 1 (3 * poles) 3) ([], [], [])
      (λ pole '(er_delta, tau, alpha),
         x ← ftok tmp pole;
         y ← ftok tmp (pole + 1);
         z ← ftok tmp (pole + 2);
         mret (er_delta ++ [x], tau ++ [y], alpha ++ [z]));
  lorentz_dispersion ← call "AddLorentzDispersion"
    (mret (AddLorentzDispersion poles material_ids er_delta tau alpha));
  append lorentz_dispersion.

Definition add_dispersion_drude_body (cmdname : string) (tmp : list string)
  : M unit :=
  (if len tmp <? 5 then
     raise (CmdInputError
              (message cmdname tmp " requires at least five parameters"))
   else mret ());;
  poles ← (t0 ← tok tmp 0; int t0);
  let material_ids := slice tmp (3 * poles + 1) (len tmp) in
  '(tau, alpha) ←
    for_acc (range 1 (2 * poles) 2) ([], [])
      (λ pole '(tau, alpha),
         x ← ftok tmp pole;
         y ← ftok tmp (pole + 1);
         mret (tau ++ [x], alpha ++ [y]));
  drude_dispersion ← call "AddDrudeDispersion"
    (mret (AddDrudeDispersion poles material_ids tau alpha));
  append drude_dispersion.

Definition soil_peplinski_body (cmdname : string) (tmp : list string)
  : M unit :=
  if negb (len tmp =? 7) then
    raise (CmdInputError
             (message cmdname tmp " requires at exactly seven parameters"))
  else
    soil ← call "SoilPeplinski" (
      a ← ftok tmp 0; b ← ftok tmp 1; c ← ftok tmp 2; d ← ftok tmp 3;
      e ← ftok tmp 4; f ← ftok tmp 5; id ← tok tmp 6;
      mret (SoilPeplinski a b c d e f id));
    append soil.

Definition geometry_view_body (cmdname : string) (tmp : list string)
  : M unit :=
  if negb (len tmp =? 11) then
    raise (CmdInputError
             (message cmdname tmp " requires exactly eleven parameters"))
  else
    p1 ← fpoint tmp 0 1 2;
    p2 ← fpoint tmp 3 4 5;
    dl ← fpoint tmp 6 7 8;
    geometry_view ← call "GeometryView" (
      filename ← tok tmp 9; output_type ← tok tmp 10;
      mret (GeometryView p1 p2 dl filename output_type));
    append geometry_view.

(** In the source the four statements that build and append the object
    are indented under the [if], after its [raise]. *)
Definition geometry_objects_write_body (cmdname : string)
    (tmp : list string) : M unit :=
  if negb (len tmp =? 7) then
    (raise (CmdInputError
              (message cmdname tmp " requires exactly seven parameters"))
       : M unit);;
    p1 ← fpoint tmp 0 1 2;
    p2 ← fpoint tmp 3 4 5;
    gow ← call "GeometryObjectsWrite" (
      filename ← tok tmp 6; mret (GeometryObjectsWrite p1 p2 filename));
    append gow
  else mret ().

Definition pml_cfs_body (cmdname : string) (tmp : list string) : M unit :=
  if negb (len tmp =? 12) then
    raise (CmdInputError
             (message cmdname tmp " requires exactly twelve parameters"))
  else
    pml_cfs ← call "PMLCFS" (
      t0 ← tok tmp 0; t1 ← tok tmp 1; t2 ← tok tmp 2; t3 ← tok tmp 3;
      t4 ← tok tmp 4; t5 ← tok tmp 5; t6 ← tok tmp 6; t7 ← tok tmp 7;
      t8 ← tok tmp 8; t9 ← tok tmp 9; t10 ← tok tmp 10; t11 ← tok tmp 11;
      mret (PMLCFS t0 t1 t2 t3 t4 t5 t6 t7 t8 t9 t10 t11));
    append pml_cfs.

(** The last group has a check of its own before the loop; the name [tmp]
    in its message is whatever an earlier loop left there. *)
Definition pml_cfs_block (cmdname : string) : M unit :=
  v ← lookup_cmd multicmds cmdname;
  match v with
  | None => mret ()
  | Some insts =>
      (if 2 <? len insts then
         tmp ← read_tmp;
         raise (CmdInputError
                  (message cmdname tmp
                     " can only be used up to two times, for up to a 2nd order PML"))
       else mret ());;
      for_each insts (λ cmdinstance,
        tmp ← split_to_tmp cmdinstance; pml_cfs_body cmdname tmp)
  end.

(** One directive group: [cmdname = name], then the frame around [body]. *)
Definition block (cmdname : string)
    (body : string → list string → M unit) : M unit :=
  for_instances multicmds cmdname (body cmdname).

Definition blocks : M unit :=
  block "#waveform" waveform_body;;
  block "#voltage_source" voltage_source_body;;
  block "#hertzian_dipole" hertzian_dipole_body;;
  block "#magnetic_dipole" magnetic_dipole_body;;
  block "#transmission_line" transmission_line_body;;
  block "#rx" rx_body;;
  block "#rx_array" rx_array_body;;
  block "#snapshot" snapshot_body;;
  block "#material" material_body;;
  block "#add_dispersion_debye" add_dispersion_debye_body;;
  block "#add_dispersion_lorentz" add_dispersion_lorentz_body;;
  block "#add_dispersion_drude" add_dispersion_drude_body;;
  block "#soil_peplinski" soil_peplinski_body;;
  block "#geometry_view" geometry_view_body;;
  block "#geometry_objects_write" geometry_objects_write_body;;
  pml_cfs_block "#pml_cfs".

(** [process_multicmds(multicmds)]: [scene_objects = []], the sixteen
    groups, [return scene_objects]. *)
Definition process_multicmds : result (list descriptor) :=
  match blocks (Locals [] None) with
  | inl e => inl e
  | inr (_, s) => inr (scene_objects s)
  end.

End Blocks.

(** The directive names, in the order the groups are processed. *)
Definition directive_names : list string :=
  [ "#waveform"; "#voltage_source"; "#hertzian_dipole"; "#magnetic_dipole";
    "#transmission_line"; "#rx"; "#rx_array"; "#snapshot"; "#material";
    "#add_dispersion_debye"; "#add_dispersion_lorentz";
    "#add_dispersion_drude"; "#soil_peplinski"; "#geometry_view";
    "#geometry_objects_write"; "#pml_cfs" ].

(** The table the caller starts from, [dict.fromkeys(names)]: every name
    present and mapped to [None]. *)
Definition unused_table : table :=
  list_to_map ((λ k, (k, None)) <$> directive_names).

(** The three variable-arity dispersion directives, with the minimum token
    count each checks and the number of tokens its pole loop reads for a
    pole count [P]. *)
Inductive dispersion : Type := Debye | Lorentz | Drude.

Definition dispersion_body (d : dispersion)
  : string → list string → M unit :=
  match d with
  | Debye => add_dispersion_debye_body
  | Lorentz => add_dispersion_lorentz_body
  | Drude => add_dispersion_drude_body
  end.

Definition min_tokens (d : dispersion) : Z :=
  match d with
  | Debye => 4
  | Lorentz => 5
  | Drude => 5
  end.

Definition span (d : dispersion) (P : Z) : Z :=
  match d with
  | Debye => 2 * P + 1
  | Lorentz => 3 * P + 1
  | Drude => 2 * P + 1
  end.

(** The group of [process_multicmds] that handles a directive name. *)
Definition group (multicmds : table) (cmdname : string) : M unit :=
  if bool_decide (cmdname = "#waveform") then
    block multicmds cmdname waveform_body
  else if bool_decide (cmdname = "#voltage_source") then
    block multicmds cmdname voltage_source_body
  else if bool_decide (cmdname = "#hertzian_dipole") then
    block multicmds cmdname hertzian_dipole_body
  else if bool_decide (cmdname = "#magnetic_dipole") then
    block multicmds cmdname magnetic_dipole_body
  else if bool_decide (cmdname = "#transmission_line") then
    block multicmds cmdname transmission_line_body
  else if bool_decide (cmdname = "#rx") then
    block multicmds cmdname rx_body
  else if bool_decide (cmdname = "#rx_array") then
    block multicmds cmdname rx_array_body
  else if bool_decide (cmdname = "#snapshot") then
    block multicmds cmdname snapshot_body
  else if bool_decide (cmdname = "#material") then
    block multicmds cmdname material_body
  else if bool_decide (cmdname = "#add_dispersion_debye") then
    block multicmds cmdname add_dispersion_debye_body
  else if bool_decide (cmdname = "#add_dispersion_lorentz") then
    block multicmds cmdname add_dispersion_lorentz_body
  else if bool_decide (cmdname = "#add_dispersion_drude") then
    block multicmds cmdname add_dispersion_drude_body
  else if bool_decide (cmdname = "#soil_peplinski") then
    block multicmds cmdname soil_peplinski_body
  else if bool_decide (cmdname = "#geometry_view") then
    block multicmds cmdname geometry_view_body
  else if bool_decide (cmdname = "#geometry_objects_write") then
    block multicmds cmdname geometry_objects_write_body
  else pml_cfs_block multicmds cmdname.

(** A table that uses one directive only. *)
Definition only (cmdname : string) (insts : list string) : table :=
  <[cmdname := Some insts]> unused_table.

(** The two errors the built-ins [t[i]] and [float] raise. *)
Definition builtin_error (e : exn) : Prop := e = IndexError ∨ e = ValueError.

(** A computation that raises from every state. *)
Definition raises {A} (c : M A) : Prop := ∀ s, ∃ e, c s = inl e.

(** One iteration of the pole loop of Debye and Drude, and of Lorentz. *)
Definition pair_step (tmp : list string) (pole : Z)
    (acc : list pyfloat * list pyfloat) : M (list pyfloat * list pyfloat) :=
  let '(a, b) := acc in
  x ← ftok tmp pole; y ← ftok tmp (pole + 1); mret (a ++ [x], b ++ [y]).

Definition triple_step (tmp : list string) (pole : Z)
    (acc : list pyfloat * list pyfloat * list pyfloat)
  : M (list pyfloat * list pyfloat * list pyfloat) :=
  let '(a, b, c) := acc in
  x ← ftok tmp pole; y ← ftok tmp (pole + 1); z ← ftok tmp (pole + 2);
  mret (a ++ [x], b ++ [y], c ++ [z]).

(** *** Vocabulary for the properties of the groups *)

(** The sixteen directives in source order: the name, the token counts
    the checks of its group let through, and the body of its loop. *)
Definition directive_table
  : list (string * (Z → bool) * (string → list string → M unit)) :=
  [ ("#waveform", λ n, n =? 4, waveform_body);
    ("#voltage_source", λ n, (n =? 6) || (n =? 8), voltage_source_body);
    ("#hertzian_dipole", λ n, (n =? 5) || (n =? 7), hertzian_dipole_body);
    ("#magnetic_dipole", λ n, (n =? 5) || (n =? 7), magnetic_dipole_body);
    ("#transmission_line", λ n, (n =? 6) || (n =? 8),
       transmission_line_body);
    ("#rx", λ n, (n =? 3) || (5 <=? n), rx_body);
    ("#rx_array", λ n, n =? 9, rx_array_body);
    ("#snapshot", λ n, n =? 11, snapshot_body);
    ("#material", λ n, n =? 5, material_body);
    ("#add_dispersion_debye", λ n, 4 <=? n, add_dispersion_debye_body);
    ("#add_dispersion_lorentz", λ n, 5 <=? n, add_dispersion_lorentz_body);
    ("#add_dispersion_drude", λ n, 5 <=? n, add_dispersion_drude_body);
    ("#soil_peplinski", λ n, n =? 7, soil_peplinski_body);
    ("#geometry_view", λ n, n =? 11, geometry_view_body);
    ("#geometry_objects_write", λ n, n =? 7, geometry_objects_write_body);
    ("#pml_cfs", λ n, n =? 12, pml_cfs_body) ].

(** The instances a table gives for a directive: none when the key maps
    to [None]. *)
Definition instances (multicmds : table) (cmdname : string) : list string :=
  match multicmds !! cmdname with
  | Some (Some insts) => insts
  | _ => []
  end.

(** The directive whose group builds a scene object. *)
Definition kind_of (d : descriptor) : string :=
  match d with
  | Waveform _ _ _ _ => "#waveform"
  | VoltageSource _ _ _ _ _ => "#voltage_source"
  | HertzianDipole _ _ _ _ => "#hertzian_dipole"
  | MagneticDipole _ _ _ _ => "#magnetic_dipole"
  | TransmissionLine _ _ _ _ _ => "#transmission_line"
  | Rx _ _ => "#rx"
  | RxArray _ _ _ => "#rx_array"
  | Snapshot _ _ _ _ _ => "#snapshot"
  | Material _ _ _ _ _ => "#material"
  | AddDebyeDispersion _ _ _ _ => "#add_dispersion_debye"
  | AddLorentzDispersion _ _ _ _ _ => "#add_dispersion_lorentz"
  | AddDrudeDispersion _ _ _ _ => "#add_dispersion_drude"
  | SoilPeplinski _ _ _ _ _ _ _ => "#soil_peplinski"
  | GeometryView _ _ _ _ _ => "#geometry_view"
  | GeometryObjectsWrite _ _ _ => "#geometry_objects_write"
  | PMLCFS _ _ _ _ _ _ _ _ _ _ _ _ => "#pml_cfs"
  end.

(** A computation that neither reads nor writes the locals: from every
    state it gives the same result [r], values of which satisfy [P]. *)
Definition stateless_with {A} (P : A → Prop) (c : M A) : Prop :=
  ∃ r : result A,
    (∀ s, c s = match r with inl e => inl e | inr x => inr (x, s) end)
    ∧ (∀ x, r = inr x → P x).

Definition stateless {A} (c : M A) : Prop := stateless_with (λ _, True) c.

(** A computation that, whatever the locals, raises the same exception or
    appends the same scene object, which satisfies [P], and changes
    nothing else. *)
Definition emits_with (P : descriptor → Prop) (c : M unit) : Prop :=
  ∃ r : result descriptor,
    (∀ s, c s = match r with
                | inl e => inl e
                | inr d => inr ((), Locals (scene_objects s ++ [d]) (tmp s))
                end)
    ∧ (∀ d, r = inr d → P d).

(** The kinds of the objects a successful call returns, read off the
    table: one per instance, directive by directive in source order,
    and none for [#geometry_objects_write]. *)
Definition expected_kinds (multicmds : table) : list string :=
  directive_names ≫= λ k,
    if bool_decide (k = "#geometry_objects_write") then []
    else replicate (length (instances multicmds k)) k.

(** The tokens of [P] pairs, and of [P] triples, in order. *)
Definition flat_pairs (ps : list (string * string)) : list string :=
  ps ≫= λ '(a, b), [a; b].

Definition flat_triples (ps : list (string * string * string))
  : list string :=
  ps ≫= λ '(a, b, c), [a; b; c].

(** Tokens that are the literals of the floats [fs]. *)
Definition floats_of (ts : list string) (fs : list pyfloat) : Prop :=
  Forall2 (λ t f, float_of_string t = Some f) ts fs.


(** A computation all of whose exceptions satisfy [E]. *)
Definition raises_only {A} (E : exn → Prop) (c : M A) : Prop :=
  ∀ s e, c s = inl e → E e.

(** The three directives whose token count depends on a pole count. *)
Definition dispersion_names : list string :=
  [ "#add_dispersion_debye"; "#add_dispersion_lorentz";
    "#add_dispersion_drude" ].

(** *** The snapshot rule in the words of the specification *)

(** The trigger a tenth token stands for: an iteration count when the
    token is an integer literal, and only when it is not, a time, if it
    is a float literal. *)
Definition spec_trigger (t9 : string) : option trigger :=
  match int_of_string t9 with
  | Some n => Some (iterations n)
  | None => time <$> float_of_string t9
  end.

(** The object an instance of eleven tokens stands for: two corners and
    a step from the first nine tokens, the trigger from the tenth, the
    file name from the last. *)
Definition spec_snapshot (tmp : list string) : option descriptor :=
  match tmp with
  | [x0; x1; x2; x3; x4; x5; x6; x7; x8; t9; filename] =>
      f0 ← float_of_string x0; f1 ← float_of_string x1;
      f2 ← float_of_string x2; f3 ← float_of_string x3;
      f4 ← float_of_string x4; f5 ← float_of_string x5;
      f6 ← float_of_string x6; f7 ← float_of_string x7;
      f8 ← float_of_string x8;
      trig ← spec_trigger t9;
      Some (Snapshot (f0, f1, f2) (f3, f4, f5) (f6, f7, f8) trig filename)
  | _ => None
  end.
End InputCmdsMultiuse.

(** ** [gprMax/config.py] *)

Module Config.
Import Py.

#[global] Instance result_ret : MRet result := λ A x, inr x.

#[global] Instance result_bind : MBind result := λ A B f r,
  match r with
  | inl e => inl e
  | inr x => f x
  end.

(** *** The precision registry (module level) *)

(** The storage types the registry names. *)
Inductive dtype : Type :=
| np_float32 | np_float64 | np_complex64 | np_complex128
| cython_float | cython_double | cython_floatcomplex | cython_doublecomplex
| C_name (s : string).

(** Width in bits of a numpy storage type. *)
Definition bits (d : dtype) : option Z :=
  match d with
  | np_float32 => Some 32
  | np_float64 => Some 64
  | np_complex64 => Some 64
  | np_complex128 => Some 128
  | _ => None
  end.

(** A module-level binding of [config.py]. *)
Inductive gval : Type :=
| GStr (s : string)
| GDict (d : gmap string dtype).

(** The statements [precision = ...; if precision == 'single': dtypes = ...
    elif precision == 'double': dtypes = ...], run on the module's
    namespace.  The label, ['double'] in the source, is a parameter.
    There is no [else]. *)
Definition init_precision (precision : string) (globals : gmap string gval)
  : result (gmap string gval) :=
  let globals := <["precision" := GStr precision]> globals in
  if bool_decide (precision = "single") then
    mret (<["dtypes" := GDict (list_to_map
      [ ("float_or_double", np_float32); ("complex", np_complex64);
        ("cython_float_or_double", cython_float);
        ("cython_complex", cython_floatcomplex);
        ("C_float_or_double", C_name "float");
        ("C_complex", C_name "pycuda::complex<float>") ])]> globals)
  else if bool_decide (precision = "double") then
    mret (<["dtypes" := GDict (list_to_map
      [ ("float_or_double", np_float64); ("complex", np_complex128);
        ("cython_float_or_double", cython_double);
        ("cython_complex", cython_doublecomplex);
        ("C_float_or_double", C_name "double");
        ("C_complex", C_name "pycuda::complex<double>") ])]> globals)
  else mret globals.

(** The label the source assigns. *)
Definition precision : string := "double".

(** [dtypes[key]] in a namespace: [NameError] when [dtypes] is unbound. *)
Definition dtypes_lookup (globals : gmap string gval) (key : string)
  : result dtype :=
  match globals !! "dtypes" with
  | Some (GDict d) =>
      match d !! key with
      | Some v => mret v
      | None => inl (KeyError key)
      end
  | Some (GStr _) => inl TypeError
  | None => inl (NameError "dtypes")
  end.

(** *** Run arguments and the simulation configuration *)

Set Warnings "-register-all".

(** Values held by attributes. *)
Inductive pyval : Type :=
| VNone
| VBool (b : bool)
| VInt (i : Z)
| VStr (s : string)
| VPath (p : string)
| VList (l : list pyval)
| VDict (d : list (string * pyval)).

(** The argument namespace.  [task] and [restart] are an integer or
    [None]; [outputfile], [subgrid] and [scenes] may be missing from the
    namespace altogether (outer [None]). *)
Record Namespace : Type := {
  n : Z;
  task : option Z;
  restart : option Z;
  inputfile : option string;
  outputfile : option (option string);
  gpu : pyval;
  mpi : bool;
  mpi_no_spawn : bool;
  geometry_fixed : bool;
  geometry_only : bool;
  write_processed : bool;
  subgrid : option pyval;
  scenes : option pyval
}.

(** An object is the map of its attributes. *)
Abbreviation obj := (gmap string pyval).

Definition setattr (self : obj) (name : string) (v : pyval) : obj :=
  <[name := v]> self.

Definition getattr (self : obj) (name : string) : result pyval :=
  match self !! name with
  | Some v => mret v
  | None => inl (AttributeError name)
  end.

(** [args.name] for an attribute that may be missing. *)
Definition args_attr {A} (name : string) (a : option A) : result A :=
  match a with
  | Some v => mret v
  | None => inl (AttributeError name)
  end.

(** Truth value of an integer-or-[None]. *)
Definition truthy (o : option Z) : bool :=
  match o with
  | Some i => negb (i =? 0)
  | None => false
  end.

(** An integer-or-[None] as an operand of [+] or [-]. *)
Definition operand (o : option Z) : result Z :=
  match o with
  | Some i => mret i
  | None => inl TypeError
  end.

(** A [pyval] as an operand of [+]. *)
Definition int_operand (v : pyval) : result Z :=
  match v with
  | VInt i => mret i
  | VBool b => mret (if b then 1 else 0)
  | _ => inl TypeError
  end.

(** [v == k] for an integer constant [k]. *)
Definition eq_int (v : pyval) (k : Z) : bool :=
  match v with
  | VInt i => i =? k
  | VBool b => (if b then 1 else 0) =? k
  | _ => false
  end.

Definition of_option_int (o : option Z) : pyval :=
  match o with
  | Some i => VInt i
  | None => VNone
  end.

Definition of_option_str (o : option string) : pyval :=
  match o with
  | Some s => VStr s
  | None => VNone
  end.

(** [Path(x)]: [TypeError] on [None]. *)
Definition Path (x : option string) : result pyval :=
  match x with
  | Some s => mret (VPath s)
  | None => inl TypeError
  end.

(** [try: body  except AttributeError: handler] *)
Definition try_except_AttributeError {A} (body handler : result A)
  : result A :=
  match body with
  | inl (AttributeError _) => handler
  | r => r
  end.

(** [general['messages']] at module level. *)
Definition general_messages : bool := true.

Section Methods.
Variable args : Namespace.

Definition set_input_file_path (self : obj) : result obj :=
  if bool_decide (inputfile args = None) then
    o ← args_attr "outputfile" (outputfile args);
    p ← Path o;
    mret (setattr self "input_file_path" p)
  else
    p ← Path (inputfile args);
    mret (setattr self "input_file_path" p).

Definition set_output_file_path (self : obj) : result obj :=
  try_except_AttributeError
    (o ← args_attr "outputfile" (outputfile args);
     p ← Path o;
     mret (setattr self "output_file_path" p))
    (p ← Path (inputfile args);
     mret (setattr self "output_file_path" p)).

(** [SimulationConfig.set_model_start_end] *)
Definition set_model_start_end (self : obj) : result obj :=
  '(modelstart, modelend) ←
    (if truthy (task args) then
       t ← operand (task args);
       mret (t - 1, t)
     else if truthy (restart args) then
       r ← operand (restart args);
       let modelstart := r - 1 in
       mret (modelstart, modelstart + n args - 1)
     else
       let modelstart := 0 in
       mret (modelstart, modelstart + n args));
  let self := setattr self "model_start" (VInt modelstart) in
  mret (setattr self "model_end" (VInt modelend)).

(** [SimulationConfigMPI.set_model_start_end] *)
Definition set_model_start_end_MPI (self : obj) : result obj :=
  let self :=
    setattr self "model_start"
      (if truthy (restart args) then of_option_int (restart args)
       else VInt 1) in
  ms ← getattr self "modelstart";
  ms ← int_operand ms;
  mret (setattr self "model_end" (VInt (ms + n args))).

Definition set_single_model (self : obj) : result obj :=
  model_start ← getattr self "model_start";
  if eq_int model_start 0 then
    model_end ← getattr self "model_end";
    if eq_int model_end 1 then mret (setattr self "single_model" (VBool true))
    else mret (setattr self "single_model" (VBool false))
  else mret (setattr self "single_model" (VBool false)).

(** [SimulationConfig.__init__], with the method [set_model_start_end] of
    the class being instantiated.  The attribute [args] itself is left
    out of the map. *)
Definition init (set_model_start_end : obj → result obj) : result obj :=
  let self : obj := ∅ in
  let self := setattr self "n_models" (VInt (n args)) in
  let self := setattr self "inputfile" (of_option_str (inputfile args)) in
  let self := setattr self "gpu" (gpu args) in
  let self := setattr self "mpi" (VBool (mpi args)) in
  let self := setattr self "mpi_no_spawn" (VBool (mpi_no_spawn args)) in
  let self :=
    setattr self "general" (VDict [("messages", VBool general_messages)]) in
  let self := setattr self "geometry_fixed" (VBool (geometry_fixed args)) in
  let self := setattr self "geometry_only" (VBool (geometry_only args)) in
  let self := setattr self "write_processed" (VBool (write_processed args)) in
  self ← try_except_AttributeError
    (v ← args_attr "subgrid" (subgrid args); mret (setattr self "subgrid" v))
    (mret (setattr self "subgrid" (VBool false)));
  self ← try_except_AttributeError
    (v ← args_attr "scenes" (scenes args); mret (setattr self "scenes" v))
    (mret (setattr self "scenes" (VList [])));
  self ← set_input_file_path self;
  self ← set_output_file_path self;
  self ← set_model_start_end self;
  set_single_model self.

Definition SimulationConfig : result obj := init set_model_start_end.

Definition SimulationConfigMPI : result obj := init set_model_start_end_MPI.

(** [create_simulation_config(args)]: when only [mpi_no_spawn] is set no
    branch binds [sc]. *)
Definition create_simulation_config : result obj :=
  if negb (mpi args) && negb (mpi_no_spawn args) then SimulationConfig
  else if mpi args then SimulationConfigMPI
  else inl (UnboundLocalError "sc").

End Methods.

(** Width in bits of the storage type the registry gives for [key]. *)
Definition width (globals : gmap string gval) (key : string) : option Z :=
  match dtypes_lookup globals key with
  | inr d => bits d
  | inl _ => None
  end.

(** Run arguments as the command line builds them for an input file
    ["model.in"]: no [outputfile], [subgrid] or [scenes] attribute, every
    flag off. *)
Definition run_args (n : Z) (task restart : option Z) (mpi : bool)
  : Namespace :=
  {| n := n; task := task; restart := restart;
     inputfile := Some "model.in"; outputfile := None; gpu := VNone;
     mpi := mpi; mpi_no_spawn := false; geometry_fixed := false;
     geometry_only := false; write_processed := false;
     subgrid := None; scenes := None |}.

(** The pair [(modelstart, modelend)] the three branches of
    [SimulationConfig.set_model_start_end] compute, as a function of the
    arguments. *)
Definition range_of (args : Namespace) : Z * Z :=
  match task args, restart args with
  | Some t, Some r =>
      if negb (t =? 0) then (t - 1, t)
      else if negb (r =? 0) then (r - 1, r - 1 + n args - 1)
      else (0, 0 + n args)
  | Some t, None => if negb (t =? 0) then (t - 1, t) else (0, 0 + n args)
  | None, Some r =>
      if negb (r =? 0) then (r - 1, r - 1 + n args - 1) else (0, 0 + n args)
  | None, None => (0, 0 + n args)
  end.

(** The three attributes the range policy sets, read back from the
    object [create_simulation_config] returns. *)
Definition resolved_range (args : Namespace)
  : result (option pyval * option pyval * option pyval) :=
  sc ← create_simulation_config args;
  mret (sc !! "model_start", sc !! "model_end", sc !! "single_model").


(** *** Paths *)

(** [pathlib]'s pure POSIX paths, as CPython 3.7 implements them. *)
Module Pathlib.

(** A path: the root, which is empty, ["/"] or ["//"], and the names
    after it. *)
Record PurePath : Type := { root : string; names : list string }.

(** [s.split('/')] *)
Fixpoint split_sep (s : string) : list string :=
  match s with
  | EmptyString => [EmptyString]
  | String c s' =>
      if Ascii.eqb c "/" then EmptyString :: split_sep s'
      else match split_sep s' with
           | w :: ws => String c w :: ws
           | [] => [String c EmptyString]
           end
  end.

(** [s.lstrip('/')] *)
Fixpoint lstrip_sep (s : string) : string :=
  match s with
  | String c s' => if Ascii.eqb c "/" then lstrip_sep s' else s
  | EmptyString => s
  end.

(** ['/' in s] *)
Fixpoint has_sep (s : string) : bool :=
  match s with
  | String c s' => Ascii.eqb c "/" || has_sep s'
  | EmptyString => false
  end.

(** [s.rfind('.')] *)
Fixpoint rfind_dot (s : string) : Z :=
  match s with
  | EmptyString => -1
  | String c s' =>
      let r := rfind_dot s' in
      if 0 <=? r then r + 1 else if Ascii.eqb c "." then 0 else -1
  end.

(** [splitroot] of the POSIX flavour: two leading slashes exactly are the
    root ["//"], any other number of them is the root ["/"]. *)
Definition splitroot (part : string) : string * string :=
  match part with
  | String c _ =>
      if Ascii.eqb c "/" then
        let stripped_part := lstrip_sep part in
        if Z.of_nat (String.length part)
           - Z.of_nat (String.length stripped_part) =? 2
        then ("//", stripped_part)
        else ("/", stripped_part)
      else (EmptyString, part)
  | EmptyString => (EmptyString, part)
  end.

(** The test [x and x != '.'] on a piece of a part. *)
Definition kept (x : string) : bool :=
  negb (String.eqb x EmptyString) && negb (String.eqb x ".").

(** [parse_parts]: the parts are read from the last to the first, up to
    and including the first that has a root; an empty part is skipped;
    the pieces between separators that are empty or ["."] are dropped.
    (For a part without separator, [split] gives the part itself, which
    is the source's second branch.) *)
Fixpoint parse_parts (parts : list string) : PurePath :=
  match parts with
  | [] => {| root := EmptyString; names := [] |}
  | part :: rest =>
      let p := parse_parts rest in
      if negb (String.eqb (root p) EmptyString) then p
      else if String.eqb part EmptyString then p
      else
        let '(r, rel) := splitroot part in
        {| root := r; names := List.filter kept (split_sep rel) ++ names p |}
  end.

(** [p.parts] *)
Definition parts (p : PurePath) : list string :=
  (if String.eqb (root p) EmptyString then [] else [root p]) ++ names p.

(** [p.name] *)
Definition name (p : PurePath) : string := default EmptyString (last (names p)).

(** [p.suffix] and [p.stem], as functions of [p.name]: the suffix starts
    at the last dot, unless that dot is the first or the last character. *)
Definition name_suffix (name : string) : string :=
  let i := rfind_dot name in
  if (0 <? i) && (i <? Z.of_nat (String.length name) - 1) then
    substring (Z.to_nat i) (String.length name - Z.to_nat i) name
  else EmptyString.

Definition name_stem (name : string) : string :=
  let i := rfind_dot name in
  if (0 <? i) && (i <? Z.of_nat (String.length name) - 1) then
    substring 0 (Z.to_nat i) name
  else name.

Definition suffix (p : PurePath) : string := name_suffix (name p).

Definition stem (p : PurePath) : string := name_stem (name p).

(** [p.with_suffix(suffix)] *)
Definition with_suffix (p : PurePath) (suffix' : string) : result PurePath :=
  if has_sep suffix' then inl ValueError
  else if (negb (String.eqb suffix' EmptyString)
           && negb (String.prefix "." suffix'))
          || String.eqb suffix' "." then inl ValueError
  else
    let name := name p in
    if String.eqb name EmptyString then inl ValueError
    else
      let old_suffix := suffix p in
      let name :=
        if String.eqb old_suffix EmptyString then name +:+ suffix'
        else substring 0 (String.length name - String.length old_suffix) name
             +:+ suffix' in
      mret {| root := root p; names := removelast (names p) ++ [name] |}.

(** [str(p)] *)
Definition str (p : PurePath) : string :=
  let s := root p +:+ join "/" (names p) in
  if String.eqb s EmptyString then "." else s.

(** What every parsed path satisfies: the root is one of the three, and
    no name is empty, ["."], or contains a separator. *)
Definition valid_name (x : string) : Prop :=
  kept x = true ∧ has_sep x = false.

Definition wf (p : PurePath) : Prop :=
  (root p = EmptyString ∨ root p = "/" ∨ root p = "//")
  ∧ Forall valid_name (names p).

End Pathlib.

(** *** The model configuration *)

Module Model.
Import Pathlib.

(** Truth value of an attribute value.  A path object is always true. *)
Definition truth (v : pyval) : bool :=
  match v with
  | VNone => false
  | VBool b => b
  | VInt i => negb (i =? 0)
  | VStr s => negb (String.eqb s EmptyString)
  | VPath _ => true
  | VList l => match l with [] => false | _ => true end
  | VDict d => match d with [] => false | _ => true end
  end.

(** [v[i]] for an integer [i].  The keys of a modelled [dict] are strings,
    so none of them equals [i]. *)
Definition subscript (v : pyval) (i : Z) : result pyval :=
  match v with
  | VList l => getitem l i
  | VStr s =>
      c ← getitem (list_ascii_of_string s) i;
      mret (VStr (String c EmptyString))
  | VDict _ => inl (KeyError (pretty i))
  | VNone | VBool _ | VInt _ | VPath _ => inl TypeError
  end.

(** [c * k] for a one-character string [c]. *)
Definition times (c : ascii) (k : Z) : string :=
  string_of_list_ascii (replicate (Z.to_nat k) c).

Definition newline : string := String "010" EmptyString.

(** [colorama]'s [Fore.GREEN] and [Style.RESET_ALL]. *)
Definition Fore_GREEN : string := String "027" "[32m".
Definition Style_RESET_ALL : string := String "027" "[0m".

Record ModelConfig : Type := {
  sim_config : obj;
  reuse_geometry : bool;
  i : Z;
  appendmodelnumber : string;
  output_file_path : PurePath;
  output_file_path_ext : PurePath;
  snapshot_dir : string;
  inputfilestr : string;
  next_model : string
}.

(** The values in the dictionary [get_usernamespace] returns. *)
Inductive nsval : Type :=
| NFloat (f : pyfloat)
| NInt (z : Z)
| NPath (p : PurePath).

Section External.

(** What the module takes from outside: the width of the terminal, the
    text Python gives for a list or a dictionary, the physical constants
    of [scipy] with the impedance computed from them, and the file
    system's resolution of a path. *)
Variable get_terminal_width : Z.
Variable repr_container : pyval → string.
Variables c e0 m0 z0 : pyfloat.
Variable resolve : PurePath → result PurePath.

(** [str(v)], which is what ['{}'.format(v)] inserts. *)
Definition str_of (v : pyval) : string :=
  match v with
  | VNone => "None"
  | VBool b => if b then "True" else "False"
  | VInt z => pretty z
  | VStr s => s
  | VPath s => str (parse_parts [s])
  | VList _ | VDict _ => repr_container v
  end.

(** [v.with_suffix(suffix)] for an attribute value. *)
Definition path_with_suffix (v : pyval) (suffix : string)
  : result PurePath :=
  match v with
  | VPath s => with_suffix (parse_parts [s]) suffix
  | _ => inl (AttributeError "with_suffix")
  end.

(** [ModelConfig.__init__] *)
Definition init (sim_config : obj) (i : Z) : result ModelConfig :=
  single_model ← getattr sim_config "single_model";
  let appendmodelnumber :=
    if negb (truth single_model) then pretty (i + 1) else EmptyString in
  output_file_path ← getattr sim_config "output_file_path";
  stripped ← path_with_suffix output_file_path EmptyString;
  let parts := parts stripped in
  last_part ← getitem parts (-1);
  let output_file_path :=
    parse_parts (slice parts 0 (-1) ++ [last_part +:+ appendmodelnumber]) in
  output_file_path_ext ← with_suffix output_file_path ".out";
  let snapshot_dir := "_snaps" in
  model_end ← getattr sim_config "model_end";
  input_file_path ← getattr sim_config "input_file_path";
  let inputfilestr :=
    newline +:+ "--- Model " +:+ pretty (i + 1) +:+ "/" +:+ str_of model_end
    +:+ ", input file: " +:+ str_of input_file_path in
  let next_model :=
    Fore_GREEN
    +:+ (inputfilestr +:+ " "
         +:+ times "-" (get_terminal_width - 1
                        - Z.of_nat (String.length inputfilestr))
         +:+ newline)
    +:+ Style_RESET_ALL in
  mret {| sim_config := sim_config;
          reuse_geometry := false;
          i := i;
          appendmodelnumber := appendmodelnumber;
          output_file_path := output_file_path;
          output_file_path_ext := output_file_path_ext;
          snapshot_dir := snapshot_dir;
          inputfilestr := inputfilestr;
          next_model := next_model |}.

(** [ModelConfig.get_scene] *)
Definition get_scene (self : ModelConfig) : result pyval :=
  scenes ← getattr (sim_config self) "scenes";
  if truth scenes then subscript scenes (i self)
  else mret VNone.

(** [ModelConfig.get_usernamespace] *)
Definition get_usernamespace (self : ModelConfig)
  : result (gmap string nsval) :=
  model_end ← getattr (sim_config self) "model_end";
  number_model_runs ← int_operand model_end;
  input_file_path ← getattr (sim_config self) "input_file_path";
  inputfile ←
    match input_file_path with
    | VPath s => resolve (parse_parts [s])
    | _ => inl (AttributeError "resolve")
    end;
  mret (<["inputfile" := NPath inputfile]>
          (<["current_model_run" := NInt (i self + 1)]>
             (<["number_model_runs" := NInt (number_model_runs + 1)]>
                (<["z0" := NFloat z0]>
                   (<["m0" := NFloat m0]>
                      (<["e0" := NFloat e0]>
                         (<["c" := NFloat c]> ∅))))))).

(** [create_model_config(sim_config, i)] *)
Definition create_model_config (sim_config : obj) (i : Z)
  : result ModelConfig :=
  mc ← init sim_config i;
  mret mc.

End External.

(** A simulation configuration reduced to the four attributes
    [ModelConfig.__init__] reads. *)
Definition sim_config_of (input output : string) (model_end : Z)
    (single : bool) : obj :=
  <["single_model" := VBool single]>
    (<["model_end" := VInt model_end]>
       (<["output_file_path" := VPath output]>
          (<["input_file_path" := VPath input]> ∅))).

End Model.
End Config.

(** ** Properties of [process_multicmds] *)

Module MultiuseProps.
Import Py InputCmdsMultiuse.

(** *** Running the monad *)

Lemma bind_inl {A B} (m : M A) (f : A → M B) s e :
  m s = inl e → (m ≫= f) s = inl e.
Proof. intros H. unfold mbind, M_bind. by rewrite H. Qed.

Lemma bind_inr {A B} (m : M A) (f : A → M B) s x s' :
  m s = inr (x, s') → (m ≫= f) s = f x s'.
Proof. intros H. unfold mbind, M_bind. by rewrite H. Qed.

(** Unfolds the monad and the helpers down to matches on the parsers. *)
Ltac run :=
  unfold for_instances, for_each, fpoint, ftok, tok, float, int,
    try_except_ValueError, call, load_global, lookup_cmd, split_to_tmp,
    read_tmp, append, getitem, len, lift, raise, mbind, M_bind, mret, M_ret;
  simpl.

Lemma block_unused (m : table) k body s :
  m !! k = Some None → block m k body s = inr ((), s).
Proof. intros H. unfold block. run. by rewrite H. Qed.

Lemma block_empty (m : table) k body s :
  m !! k = Some (Some []) → block m k body s = inr ((), s).
Proof. intros H. unfold block. run. by rewrite H. Qed.

Lemma block_absent (m : table) k body s :
  m !! k = None → block m k body s = inl (KeyError k).
Proof. intros H. unfold block. run. by rewrite H. Qed.

Lemma block_one (m : table) k body inst s :
  m !! k = Some (Some [inst]) →
  block m k body s =
    match body k (split inst) (Locals (scene_objects s) (Some (split inst)))
    with
    | inl e => inl e
    | inr (_, s') => inr ((), s')
    end.
Proof.
  intros H. unfold block, for_instances, for_each, lookup_cmd.
  erewrite bind_inr by (by rewrite H).
  unfold for_acc, split_to_tmp, mbind, M_bind, mret, M_ret.
  by destruct (body _ _ _) as [|[[] ?]].
Qed.

Lemma pml_cfs_unused (m : table) k s :
  m !! k = Some None → pml_cfs_block m k s = inr ((), s).
Proof. intros H. unfold pml_cfs_block. run. by rewrite H. Qed.

Lemma pml_cfs_empty (m : table) k s :
  m !! k = Some (Some []) → pml_cfs_block m k s = inr ((), s).
Proof. intros H. unfold pml_cfs_block. run. by rewrite H. Qed.

Lemma pml_cfs_absent (m : table) k s :
  m !! k = None → pml_cfs_block m k s = inl (KeyError k).
Proof. intros H. unfold pml_cfs_block. run. by rewrite H. Qed.

(** In a table that uses one directive, every other group is skipped. *)
Ltac skip_unused :=
  repeat (erewrite bind_inr; [| apply block_unused; reflexivity]).

(** *** Snapshot *)

Lemma snapshot_body_trigger cmdname x0 x1 x2 x3 x4 x5 x6 x7 x8 t9 fn
    f0 f1 f2 f3 f4 f5 f6 f7 f8 s :
  float_of_string x0 = Some f0 → float_of_string x1 = Some f1 →
  float_of_string x2 = Some f2 → float_of_string x3 = Some f3 →
  float_of_string x4 = Some f4 → float_of_string x5 = Some f5 →
  float_of_string x6 = Some f6 → float_of_string x7 = Some f7 →
  float_of_string x8 = Some f8 →
  snapshot_body cmdname [x0; x1; x2; x3; x4; x5; x6; x7; x8; t9; fn] s =
    match int_of_string t9 with
    | Some i =>
        inr ((), Locals (scene_objects s ++
               [Snapshot (f0, f1, f2) (f3, f4, f5) (f6, f7, f8)
                  (iterations i) fn]) (tmp s))
    | None =>
        match float_of_string t9 with
        | Some f =>
            inr ((), Locals (scene_objects s ++
                   [Snapshot (f0, f1, f2) (f3, f4, f5) (f6, f7, f8)
                      (time f) fn]) (tmp s))
        | None => inl ValueError
        end
    end.
Proof.
  intros H0 H1 H2 H3 H4 H5 H6 H7 H8.
  unfold snapshot_body. run.
  rewrite H0, H1, H2, H3, H4, H5, H6, H7, H8. simpl.
  destruct (int_of_string t9); simpl; [reflexivity|].
  destruct (float_of_string t9); reflexivity.
Qed.

(** A table that uses one directive runs that directive's group alone:
    the groups before and after it are skipped. *)
Ltac only_group :=
  unfold process_multicmds, blocks, only;
  skip_unused;
  unfold mbind at 1, M_bind at 1;
  match goal with
  | |- context [block ?m ?k ?b ?s] =>
      destruct (block m k b s) as [|[[] ?]]; [reflexivity|]
  end;
  skip_unused;
  rewrite pml_cfs_unused by reflexivity; reflexivity.

Lemma process_only_snapshot insts :
  process_multicmds (only "#snapshot" insts) =
    match block (only "#snapshot" insts) "#snapshot" snapshot_body
            (Locals [] None) with
    | inl e => inl e
    | inr (_, s) => inr (scene_objects s)
    end.
Proof. only_group. Qed.

(** *** Geometry objects and receiver arrays *)

(** Whatever the tokens, a successful pass through the body of the
    [#geometry_objects_write] loop leaves the locals as they were: nothing
    is appended. *)
Lemma geometry_objects_write_body_appends_nothing cmdname tmp s s' :
  geometry_objects_write_body cmdname tmp s = inr ((), s') → s' = s.
Proof.
  unfold geometry_objects_write_body.
  destruct (negb (len tmp =? 7)).
  - rewrite (bind_inl _ _ s (CmdInputError
      (message cmdname tmp " requires exactly seven parameters")))
      by reflexivity.
    discriminate.
  - unfold mret, M_ret. congruence.
Qed.

(** The body of the [#rx_array] loop never completes: the name [RxArray]
    is not bound in the module. *)
Lemma rx_array_body_raises cmdname tmp s :
  ∃ e, rx_array_body cmdname tmp s = inl e.
Proof.
  unfold rx_array_body.
  destruct (negb (len tmp =? 9)); [by eexists|].
  unfold mbind, M_bind.
  destruct (fpoint tmp 0 1 2 s) as [|[p1 s1]]; [by eexists|].
  destruct (fpoint tmp 3 4 5 s1) as [|[p2 s2]]; [by eexists|].
  destruct (fpoint tmp 6 7 8 s2) as [|[dl s3]]; [by eexists|].
  by eexists.
Qed.

(** C1. A [#geometry_objects_write] instance of exactly seven tokens and
    an [#rx_array] instance of exactly nine tokens, evaluated: the first
    returns an empty scene (no [GeometryObjectsWrite] is appended), the
    second raises [NameError] for [RxArray]. *)
Theorem geometry_objects_write_rx_array_no_descriptor :
  process_multicmds (only "#geometry_objects_write" ["0 0 0 1 1 1 out"])
    = inr []
  ∧ process_multicmds (only "#rx_array" ["0 0 0 1 1 1 0.1 0.1 0.1"])
    = inl (NameError "RxArray").
Proof. split; vm_compute; reflexivity. Qed.

(** The other directive kinds at a valid arity, evaluated on one table:
    one object per instance, fields taken positionally, groups in source
    order whatever the order of insertion. *)
Example process_multicmds_positional :
  process_multicmds
    (<["#pml_cfs" := Some ["constant forward 0 0 constant forward 1 1 quartic forward 0 None"]]>
     (<["#material" := Some ["3 0.01 1 0 sand"]]>
     (<["#rx" := Some ["0.1 0.2 0.3"; "1 2 3 r1 Ex Hz"]]>
     (<["#transmission_line" := Some ["z 1 2 3 50 w1 1e-9 2e-9"]]>
     (<["#hertzian_dipole" := Some ["Z 1 2 3 w1"]]>
     (<["#voltage_source" := Some ["Z 1 2 3 50 w1"; "y 1 2 3 50 w1 1e-9 2e-9"]]>
     (<["#waveform" := Some ["ricker 1 1.5e9 w1"]]> unused_table)))))))
  = inr
      [ Waveform "ricker" (Fdec false 1 0) (Fdec false 15 8) "w1";
        VoltageSource "z" (Fdec false 1 0, Fdec false 2 0, Fdec false 3 0)
          (Fdec false 50 0) "w1" None;
        VoltageSource "y" (Fdec false 1 0, Fdec false 2 0, Fdec false 3 0)
          (Fdec false 50 0) "w1"
          (Some (Fdec false 1 (-9), Fdec false 2 (-9)));
        HertzianDipole "Z" (Fdec false 1 0, Fdec false 2 0, Fdec false 3 0)
          "w1" None;
        TransmissionLine "z"
          (Fdec false 1 0, Fdec false 2 0, Fdec false 3 0)
          (Fdec false 50 0) "w1" (Some ("1e-9", "2e-9"));
        Rx (Fdec false 1 (-1), Fdec false 2 (-1), Fdec false 3 (-1)) None;
        Rx (Fdec false 1 0, Fdec false 2 0, Fdec false 3 0)
          (Some ("r1", ["Ex"; "Hz"]));
        Material (Fdec false 3 0) (Fdec false 1 (-2)) (Fdec false 1 0)
          (Fdec false 0 0) "sand";
        PMLCFS "constant" "forward" "0" "0" "constant" "forward" "1" "1"
          "quartic" "forward" "0" "None" ].
Proof. vm_compute. reflexivity. Qed.

(** The Debye example of the specification. *)
Example debye_two_poles :
  process_multicmds
    (only "#add_dispersion_debye" ["2 0.1 1e-9 0.2 2e-9 mat1 mat2"])
  = inr [ AddDebyeDispersion 2
            [Fdec false 1 (-1); Fdec false 2 (-1)]
            [Fdec false 1 (-9); Fdec false 2 (-9)]
            ["mat1"; "mat2"] ].
Proof. vm_compute. reflexivity. Qed.

(** *** Drude material ids *)

(** C3. One Drude pole, two material ids: the pair is read from tokens 1
    and 2, but the material-id list starts at token [3 * 1 + 1 = 4], so
    [mat1] (token 3) is dropped. *)
Theorem drude_material_ids_start_at_3P_plus_1 :
  process_multicmds
    (only "#add_dispersion_drude" ["1 1e-9 1e9 mat1 mat2"])
  = inr [ AddDrudeDispersion 1 ["mat2"]
            [Fdec false 1 (-9)] [Fdec false 1 9] ].
Proof. vm_compute. reflexivity. Qed.

(** *** The limit of two [#pml_cfs] instances *)

Lemma pml_cfs_over_limit_unbound (m : table) k insts s :
  m !! k = Some (Some insts) → 2 < len insts → tmp s = None →
  pml_cfs_block m k s = inl (UnboundLocalError "tmp").
Proof.
  intros Hm Hlen Htmp. unfold pml_cfs_block, lookup_cmd. rewrite Hm.
  erewrite bind_inr by reflexivity. cbv beta iota.
  apply Z.ltb_lt in Hlen. rewrite Hlen.
  apply bind_inl, bind_inl. unfold read_tmp. by rewrite Htmp.
Qed.

Lemma pml_cfs_over_limit_bound (m : table) k insts s t :
  m !! k = Some (Some insts) → 2 < len insts → tmp s = Some t →
  pml_cfs_block m k s =
    inl (CmdInputError (message k t
      " can only be used up to two times, for up to a 2nd order PML")).
Proof.
  intros Hm Hlen Htmp. unfold pml_cfs_block, lookup_cmd. rewrite Hm.
  erewrite bind_inr by reflexivity. cbv beta iota.
  apply Z.ltb_lt in Hlen. rewrite Hlen.
  apply bind_inl. erewrite bind_inr; [reflexivity|].
  unfold read_tmp. by rewrite Htmp.
Qed.

Lemma pml_cfs_body_twelve cmdname t0 t1 t2 t3 t4 t5 t6 t7 t8 t9 t10 t11 s :
  pml_cfs_body cmdname [t0; t1; t2; t3; t4; t5; t6; t7; t8; t9; t10; t11] s
  = inr ((), Locals
      (scene_objects s ++ [PMLCFS t0 t1 t2 t3 t4 t5 t6 t7 t8 t9 t10 t11])
      (tmp s)).
Proof. reflexivity. Qed.

(** C7. Three well-formed [#pml_cfs] instances in a table that uses no
    other directive: the check of the limit raises [UnboundLocalError]
    for [tmp], not [CmdInputError]; with two of them both are built. *)
Theorem pml_cfs_third_instance_unbound_tmp :
  process_multicmds (only "#pml_cfs"
    [ "constant forward 0 0 constant forward 1 1 quartic forward 0 None";
      "constant forward 0 0 constant forward 1 1 quartic forward 0 None";
      "constant forward 0 0 constant forward 1 1 quartic forward 0 None" ])
  = inl (UnboundLocalError "tmp")
  ∧ process_multicmds (only "#pml_cfs"
    [ "constant forward 0 0 constant forward 1 1 quartic forward 0 None";
      "linear reverse 0 1 constant forward 1 5 quartic forward 0 None" ])
  = inr [ PMLCFS "constant" "forward" "0" "0" "constant" "forward" "1" "1"
            "quartic" "forward" "0" "None";
          PMLCFS "linear" "reverse" "0" "1" "constant" "forward" "1" "5"
            "quartic" "forward" "0" "None" ].
Proof. split; vm_compute; reflexivity. Qed.

(** *** Dispersion directives shorter than their pole count asks for *)

Lemma builtin_error_not_CmdInputError e :
  builtin_error e → is_CmdInputError e = false.
Proof. by intros [-> | ->]. Qed.

Lemma tok_in_range (t : list string) i x s :
  0 ≤ i → t !! Z.to_nat i = Some x → tok t i s = inr (x, s).
Proof.
  intros Hi Hx. unfold tok, getitem, lift.
  rewrite (proj2 (Z.ltb_ge i 0)) by lia.
  rewrite (proj2 (Z.ltb_ge i 0)) by lia. by rewrite Hx.
Qed.

Lemma tok_out_of_range (t : list string) i s :
  len t ≤ i → tok t i s = inl IndexError.
Proof.
  intros Hi. unfold len in Hi. unfold tok, getitem, lift.
  rewrite (proj2 (Z.ltb_ge i 0)) by lia.
  rewrite (proj2 (Z.ltb_ge i 0)) by lia.
  rewrite (proj2 (lookup_ge_None t (Z.to_nat i))) by lia. done.
Qed.

Lemma tok_cases (t : list string) i s :
  (∃ x, tok t i s = inr (x, s)) ∨ tok t i s = inl IndexError.
Proof.
  unfold tok, getitem, lift.
  destruct (_ <? 0); [by right|].
  destruct (t !! _); [left; by eexists | by right].
Qed.

Lemma ftok_out_of_range (t : list string) i s :
  len t ≤ i → ftok t i s = inl IndexError.
Proof. intros Hi. unfold ftok. apply bind_inl. by apply tok_out_of_range. Qed.

Lemma ftok_cases (t : list string) i s :
  (∃ f, ftok t i s = inr (f, s)) ∨
  (∃ e, ftok t i s = inl e ∧ builtin_error e).
Proof.
  unfold ftok.
  destruct (tok_cases t i s) as [[x Hx] | Hx].
  - erewrite bind_inr by exact Hx. unfold float.
    destruct (float_of_string x).
    + left. by eexists.
    + right. exists ValueError. split; [done | by right].
  - right. exists IndexError. split; [by apply bind_inl | by left].
Qed.

(** A loop one of whose iterations raises, whatever the locals, raises;
    the exception is one an iteration can raise. *)
Lemma for_acc_raises {A B} (body : A → B → M B) (P : exn → Prop) l x :
  x ∈ l →
  (∀ y acc s e, body y acc s = inl e → P e) →
  (∀ acc s, ∃ e, body x acc s = inl e) →
  ∀ acc s, ∃ e, for_acc l acc body s = inl e ∧ P e.
Proof.
  intros Hin Hany Hx. induction l as [|y l IH]; intros acc s.
  - by apply elem_of_nil in Hin.
  - simpl. destruct (body y acc s) as [e | [acc' s']] eqn:Hy.
    + exists e. split; [by apply bind_inl | by eapply Hany].
    + erewrite bind_inr by exact Hy.
      apply elem_of_cons in Hin as [-> | Hin].
      * destruct (Hx acc s) as [e He]. congruence.
      * by apply IH.
Qed.

Lemma elem_of_range_from k start step i :
  (i < k)%nat → start + Z.of_nat i * step ∈ range_from k start step.
Proof.
  revert start i. induction k as [|k IH]; intros start i Hi; [lia|].
  simpl. destruct i as [|i].
  - replace (start + Z.of_nat 0 * step) with start by lia.
    apply list_elem_of_here.
  - apply list_elem_of_further.
    replace (start + Z.of_nat (S i) * step)
      with (start + step + Z.of_nat i * step) by lia.
    apply IH. lia.
Qed.

(** The last index [range(1, 2 * P, 2)] and [range(1, 3 * P, 3)] visit. *)
Lemma range_pairs_last P : 1 ≤ P → 2 * P - 1 ∈ range 1 (2 * P) 2.
Proof.
  intros HP. unfold range.
  replace ((2 * P - 1 + 2 - 1) / 2) with P
    by (apply (Z.div_unique _ _ _ 0); lia).
  replace (2 * P - 1) with (1 + Z.of_nat (Z.to_nat (P - 1)) * 2) by lia.
  apply elem_of_range_from. lia.
Qed.

Lemma range_triples_last P : 1 ≤ P → 3 * P - 2 ∈ range 1 (3 * P) 3.
Proof.
  intros HP. unfold range.
  replace ((3 * P - 1 + 3 - 1) / 3) with P
    by (apply (Z.div_unique _ _ _ 1); lia).
  replace (3 * P - 2) with (1 + Z.of_nat (Z.to_nat (P - 1)) * 3) by lia.
  apply elem_of_range_from. lia.
Qed.

(** One iteration of a pole loop: what it can raise, and that it raises
    when the last token it reads is missing. *)
Ltac ftok_step t i s :=
  let f := fresh "f" in
  let e := fresh "e" in
  let Hf := fresh "Hf" in
  let He := fresh "He" in
  destruct (ftok_cases t i s) as [[f Hf] | [e [Hf He]]];
  [ erewrite bind_inr by exact Hf
  | rewrite (bind_inl _ _ _ _ Hf) ].

Lemma pair_step_error tmp pole acc s e :
  pair_step tmp pole acc s = inl e → builtin_error e.
Proof.
  destruct acc as [a b]. unfold pair_step.
  ftok_step tmp pole s; [| congruence].
  ftok_step tmp (pole + 1) s; [discriminate | congruence].
Qed.

Lemma pair_step_short tmp pole acc s :
  len tmp ≤ pole + 1 → ∃ e, pair_step tmp pole acc s = inl e.
Proof.
  intros Hlen. destruct acc as [a b]. unfold pair_step.
  ftok_step tmp pole s; [| by eexists].
  rewrite (bind_inl _ _ _ _ (ftok_out_of_range tmp (pole + 1) s Hlen)).
  by eexists.
Qed.

Lemma triple_step_error tmp pole acc s e :
  triple_step tmp pole acc s = inl e → builtin_error e.
Proof.
  destruct acc as [[a b] c]. unfold triple_step.
  ftok_step tmp pole s; [| congruence].
  ftok_step tmp (pole + 1) s; [| congruence].
  ftok_step tmp (pole + 2) s; [discriminate | congruence].
Qed.

Lemma triple_step_short tmp pole acc s :
  len tmp ≤ pole + 2 → ∃ e, triple_step tmp pole acc s = inl e.
Proof.
  intros Hlen. destruct acc as [[a b] c]. unfold triple_step.
  ftok_step tmp pole s; [| by eexists].
  ftok_step tmp (pole + 1) s; [| by eexists].
  rewrite (bind_inl _ _ _ _ (ftok_out_of_range tmp (pole + 2) s Hlen)).
  by eexists.
Qed.

Lemma pair_loop_short tmp P acc s :
  1 ≤ P → len tmp < 2 * P + 1 →
  ∃ e, for_acc (range 1 (2 * P) 2) acc (pair_step tmp) s = inl e
       ∧ builtin_error e.
Proof.
  intros HP Hlen.
  apply (for_acc_raises _ _ _ (2 * P - 1)).
  - by apply range_pairs_last.
  - intros y a s0 e. apply pair_step_error.
  - intros a s0. apply pair_step_short. lia.
Qed.

Lemma triple_loop_short tmp P acc s :
  1 ≤ P → len tmp < 3 * P + 1 →
  ∃ e, for_acc (range 1 (3 * P) 3) acc (triple_step tmp) s = inl e
       ∧ builtin_error e.
Proof.
  intros HP Hlen.
  apply (for_acc_raises _ _ _ (3 * P - 2)).
  - by apply range_triples_last.
  - intros y a s0 e. apply triple_step_error.
  - intros a s0. apply triple_step_short. lia.
Qed.

(** The two statements every dispersion body starts with. *)
Lemma arity_check_passes cmdname (tmp : list string) k tail s :
  k ≤ len tmp →
  (if len tmp <? k
   then raise (CmdInputError (message cmdname tmp tail))
   else mret ()) s = inr ((), s).
Proof. intros H. by rewrite (proj2 (Z.ltb_ge _ _)) by lia. Qed.

Lemma poles_read (tmp : list string) t0 P s :
  tmp !! 0%nat = Some t0 → int_of_string t0 = Some P →
  (t0 ← tok tmp 0; int t0) s = inr (P, s).
Proof.
  intros H0 HP. erewrite bind_inr by (by apply tok_in_range).
  unfold int. by rewrite HP.
Qed.

(** C8 (as the code has it). A dispersion instance that passes the check
    of its minimum token count, with a pole count [P] in its first token
    and fewer tokens than the pole loop reads ([2P+1] for Debye and Drude,
    [3P+1] for Lorentz), raises: [IndexError] from a token index past the
    end, or [ValueError] from a token before that which is not a float.
    The exception is never [CmdInputError]. *)
Theorem dispersion_short_raises_builtin_error d cmdname tmp s t0 P :
  min_tokens d ≤ len tmp →
  tmp !! 0%nat = Some t0 →
  int_of_string t0 = Some P →
  len tmp < span d P →
  ∃ e, dispersion_body d cmdname tmp s = inl e
       ∧ (e = IndexError ∨ e = ValueError)
       ∧ is_CmdInputError e = false.
Proof.
  intros Hmin H0 HP Hspan.
  assert (1 ≤ P) by (destruct d; simpl in *; lia).
  destruct d; simpl in *.
  - destruct (pair_loop_short tmp P ([], []) s) as (e & He & Hb);
      [done.. |].
    exists e. split; [| split; [done | by apply builtin_error_not_CmdInputError]].
    unfold add_dispersion_debye_body.
    erewrite bind_inr by (by apply arity_check_passes).
    erewrite bind_inr by (by eapply poles_read). cbv beta zeta.
    by apply bind_inl.
  - destruct (triple_loop_short tmp P ([], [], []) s) as (e & He & Hb);
      [done.. |].
    exists e. split; [| split; [done | by apply builtin_error_not_CmdInputError]].
    unfold add_dispersion_lorentz_body.
    erewrite bind_inr by (by apply arity_check_passes).
    erewrite bind_inr by (by eapply poles_read). cbv beta zeta.
    by apply bind_inl.
  - destruct (pair_loop_short tmp P ([], []) s) as (e & He & Hb);
      [done.. |].
    exists e. split; [| split; [done | by apply builtin_error_not_CmdInputError]].
    unfold add_dispersion_drude_body.
    erewrite bind_inr by (by apply arity_check_passes).
    erewrite bind_inr by (by eapply poles_read). cbv beta zeta.
    by apply bind_inl.
Qed.

(** The instance of the counterexample, through the theorem. *)
Lemma dispersion_short_raises_builtin_error_witness :
  min_tokens Debye ≤ len ["3"; "1"; "2"; "3"]
  ∧ ["3"; "1"; "2"; "3"] !! 0%nat = Some "3"
  ∧ int_of_string "3" = Some 3
  ∧ len ["3"; "1"; "2"; "3"] < span Debye 3
  ∧ ∃ e, dispersion_body Debye "#add_dispersion_debye"
           ["3"; "1"; "2"; "3"] (Locals [] None) = inl e
         ∧ (e = IndexError ∨ e = ValueError)
         ∧ is_CmdInputError e = false.
Proof.
  assert (H1 : min_tokens Debye ≤ len ["3"; "1"; "2"; "3"])
    by (vm_compute; discriminate).
  assert (H2 : len ["3"; "1"; "2"; "3"] < span Debye 3)
    by (vm_compute; reflexivity).
  split; [exact H1 |].
  split; [reflexivity |].
  split; [reflexivity |].
  split; [exact H2 |].
  exact (dispersion_short_raises_builtin_error Debye "#add_dispersion_debye"
           ["3"; "1"; "2"; "3"] (Locals [] None) "3" 3
           H1 eq_refl eq_refl H2).
Defined.

Lemma tok_zero (t : list string) x s s' :
  tok t 0 s = inr (x, s') → t !! 0%nat = Some x.
Proof.
  unfold tok, getitem, lift. change (Z.to_nat (if 0 <? 0 then 0 + len t else 0)) with 0%nat.
  change (if 0 <? 0 then 0 + len t else 0) with 0. simpl.
  destruct (t !! 0%nat); by inversion 1.
Qed.

Lemma poles_cases (t : list string) s :
  (∃ t0 P, t !! 0%nat = Some t0 ∧ int_of_string t0 = Some P ∧
           (t0 ← tok t 0; int t0) s = inr (P, s))
  ∨ (∃ e, (t0 ← tok t 0; int t0) s = inl e).
Proof.
  destruct (tok_cases t 0 s) as [[t0 Ht0] | Ht0].
  - erewrite bind_inr by exact Ht0. unfold int.
    destruct (int_of_string t0) as [P|] eqn:HP.
    + left. exists t0, P. eauto using tok_zero.
    + right. by eexists.
  - right. exists IndexError. by apply bind_inl.
Qed.

(** The pole loops leave the locals alone. *)
Lemma for_acc_state {A B} (body : A → B → M B) l :
  (∀ y acc s acc' s', body y acc s = inr (acc', s') → s' = s) →
  ∀ acc s acc' s', for_acc l acc body s = inr (acc', s') → s' = s.
Proof.
  intros Hbody. induction l as [|y l IH]; intros acc s acc' s' H.
  - by inversion H.
  - simpl in H. unfold mbind, M_bind in H.
    destruct (body y acc s) as [e | [acc1 s1]] eqn:Hy; [done|].
    apply Hbody in Hy as ->. by eapply IH.
Qed.

Lemma pair_step_state tmp pole acc s acc' s' :
  pair_step tmp pole acc s = inr (acc', s') → s' = s.
Proof.
  destruct acc as [a b]. unfold pair_step.
  ftok_step tmp pole s; [| done].
  ftok_step tmp (pole + 1) s; [| done].
  by inversion 1.
Qed.

(** Debye and Drude, side by side: both read their pairs from
    [range(1, 2 * poles, 2)]; Debye takes the material ids from token
    [2 * poles + 1] on, Drude from token [3 * poles + 1] on. *)
Lemma debye_body_material_ids cmdname tmp s s' :
  add_dispersion_debye_body cmdname tmp s = inr ((), s') →
  ∃ t0 P er_delta tau,
    tmp !! 0%nat = Some t0 ∧ int_of_string t0 = Some P ∧
    s' = Locals (scene_objects s ++
           [AddDebyeDispersion P er_delta tau
              (slice tmp (2 * P + 1) (len tmp))]) (InputCmdsMultiuse.tmp s).
Proof.
  unfold add_dispersion_debye_body. intros H.
  destruct (len tmp <? 4); [done|].
  erewrite bind_inr in H by reflexivity.
  destruct (poles_cases tmp s) as [(t0 & P & Hl & HP & Hp) | [e He]];
    [| by rewrite (bind_inl _ _ _ _ He) in H].
  erewrite bind_inr in H by exact Hp. cbv beta zeta in H.
  change (λ (pole : Z) '(er_delta, tau),
            x ← ftok tmp pole; y ← ftok tmp (pole + 1);
            mret (er_delta ++ [x], tau ++ [y]))
    with (pair_step tmp) in H.
  destruct (for_acc (range 1 (2 * P) 2) ([], []) (pair_step tmp) s)
    as [e | [[a b] s1]] eqn:Hloop;
    [by rewrite (bind_inl _ _ _ _ Hloop) in H|].
  pose proof (for_acc_state _ _ (pair_step_state tmp) _ _ _ _ Hloop) as Hs.
  subst s1.
  erewrite bind_inr in H by exact Hloop.
  exists t0, P, a, b. repeat split; try done. by inversion H.
Qed.

Lemma drude_body_material_ids cmdname tmp s s' :
  add_dispersion_drude_body cmdname tmp s = inr ((), s') →
  ∃ t0 P tau alpha,
    tmp !! 0%nat = Some t0 ∧ int_of_string t0 = Some P ∧
    s' = Locals (scene_objects s ++
           [AddDrudeDispersion P (slice tmp (3 * P + 1) (len tmp))
              tau alpha]) (InputCmdsMultiuse.tmp s).
Proof.
  unfold add_dispersion_drude_body. intros H.
  destruct (len tmp <? 5); [done|].
  erewrite bind_inr in H by reflexivity.
  destruct (poles_cases tmp s) as [(t0 & P & Hl & HP & Hp) | [e He]];
    [| by rewrite (bind_inl _ _ _ _ He) in H].
  erewrite bind_inr in H by exact Hp. cbv beta zeta in H.
  change (λ (pole : Z) '(tau, alpha),
            x ← ftok tmp pole; y ← ftok tmp (pole + 1);
            mret (tau ++ [x], alpha ++ [y]))
    with (pair_step tmp) in H.
  destruct (for_acc (range 1 (2 * P) 2) ([], []) (pair_step tmp) s)
    as [e | [[a b] s1]] eqn:Hloop;
    [by rewrite (bind_inl _ _ _ _ Hloop) in H|].
  pose proof (for_acc_state _ _ (pair_step_state tmp) _ _ _ _ Hloop) as Hs.
  subst s1.
  erewrite bind_inr in H by exact Hloop.
  exists t0, P, a, b. repeat split; try done. by inversion H.
Qed.

(** Against C8 as stated: instances that meet the documented minimum and
    are shorter than their pole count asks for raise [IndexError] or
    [ValueError], neither of which is a [CmdInputError]. *)
Lemma dispersion_short_not_CmdInputError :
  process_multicmds (only "#add_dispersion_debye" ["3 1 2 3"])
    = inl IndexError
  ∧ process_multicmds (only "#add_dispersion_debye" ["3 0.1 1e-9 m"])
    = inl ValueError
  ∧ process_multicmds (only "#add_dispersion_lorentz" ["2 1 2 3 4"])
    = inl IndexError
  ∧ process_multicmds (only "#add_dispersion_drude" ["3 1 2 3 4"])
    = inl IndexError
  ∧ ¬ (∃ msg, process_multicmds (only "#add_dispersion_debye" ["3 1 2 3"])
              = inl (CmdInputError msg)).
Proof.
  repeat split; try (vm_compute; reflexivity).
  intros [msg H]. vm_compute in H. discriminate.
Qed.

(** *** Absent keys and unused directives *)

Lemma raises_bind_l {A B} (m : M A) (f : A → M B) :
  raises m → raises (m ≫= f).
Proof. intros Hm s. destruct (Hm s) as [e He]. exists e. by apply bind_inl. Qed.

Lemma raises_bind_r {A B} (m : M A) (f : A → M B) :
  (∀ x, raises (f x)) → raises (m ≫= f).
Proof.
  intros Hf s. destruct (m s) as [e | [x s']] eqn:Hm.
  - exists e. by apply bind_inl.
  - destruct (Hf x s') as [e He]. exists e. by erewrite bind_inr.
Qed.

Lemma block_absent_raises (m : table) k body :
  m !! k = None → raises (block m k body).
Proof. intros H s. exists (KeyError k). by apply block_absent. Qed.

Lemma pml_cfs_absent_raises (m : table) k :
  m !! k = None → raises (pml_cfs_block m k).
Proof. intros H s. exists (KeyError k). by apply pml_cfs_absent. Qed.

Lemma blocks_absent_raises (m : table) k :
  k ∈ directive_names → m !! k = None → raises (blocks m).
Proof.
  intros Hin Hk. unfold directive_names in Hin. unfold blocks.
  repeat (apply elem_of_cons in Hin as [-> | Hin]);
    [.. | by apply elem_of_nil in Hin];
    repeat first
      [ by apply pml_cfs_absent_raises
      | by apply raises_bind_l, block_absent_raises
      | apply raises_bind_r; intros _ ].
Qed.

Lemma group_unused (m : table) k s :
  m !! k = Some None ∨ m !! k = Some (Some []) → group m k s = inr ((), s).
Proof.
  intros H. unfold group.
  repeat case_bool_decide;
    destruct H as [H | H];
    first [ by apply block_unused | by apply block_empty
          | by apply pml_cfs_unused | by apply pml_cfs_empty ].
Qed.

Lemma absent_alone_KeyError k :
  k ∈ directive_names →
  process_multicmds (delete k unused_table) = inl (KeyError k).
Proof.
  intros Hin. unfold directive_names in Hin.
  repeat (apply elem_of_cons in Hin as [-> | Hin]);
    [.. | by apply elem_of_nil in Hin]; vm_compute; reflexivity.
Qed.

(** C9 (as the code has it). For a recognised directive name [k]:
    - a table from which the key [k] is missing makes [process_multicmds]
      raise (the lookup [multicmds[k]] raises [KeyError] unless an
      earlier group has raised already), and when [k] is the only key
      missing the exception is [KeyError k];
    - a key mapped to [None] or to an empty sequence is the "not used"
      case: the group of [k] changes nothing and raises nothing. *)
Theorem absent_key_raises_None_is_unused (m : table) k :
  k ∈ directive_names →
  (m !! k = None → ∃ e, process_multicmds m = inl e)
  ∧ process_multicmds (delete k unused_table) = inl (KeyError k)
  ∧ (m !! k = Some None ∨ m !! k = Some (Some []) →
     ∀ s, group m k s = inr ((), s)).
Proof.
  intros Hin. split; [| split].
  - intros Hk. unfold process_multicmds.
    destruct (blocks_absent_raises m k Hin Hk (Locals [] None)) as [e He].
    exists e. by rewrite He.
  - by apply absent_alone_KeyError.
  - intros H s. by apply group_unused.
Qed.

Lemma rx_is_directive : "#rx" ∈ directive_names.
Proof. unfold directive_names. repeat constructor. Defined.

(** The theorem at [k = "#rx"], for a table without that key and for the
    table that maps every key to [None]. *)
Lemma absent_key_raises_None_is_unused_witness :
  "#rx" ∈ directive_names
  ∧ (∃ e, process_multicmds (delete "#rx" unused_table) = inl e)
  ∧ (∀ s, group unused_table "#rx" s = inr ((), s)).
Proof.
  split; [exact rx_is_directive |]. split.
  - exact (proj1 (absent_key_raises_None_is_unused
                    (delete "#rx" unused_table) "#rx" rx_is_directive)
             eq_refl).
  - exact (proj2 (proj2 (absent_key_raises_None_is_unused
                    unused_table "#rx" rx_is_directive))
             (or_introl eq_refl)).
Defined.

(** Against C9 as stated: the key ["#rx"] is absent, every other key is
    present, and the function fails on account of the missing key. *)
Lemma absent_key_KeyError :
  (delete "#rx" unused_table : table) !! "#rx" = None
  ∧ process_multicmds (delete "#rx" unused_table) = inl (KeyError "#rx").
Proof. split; vm_compute; reflexivity. Qed.

End MultiuseProps.

(** ** Properties of the configuration *)

Module ConfigProps.
Import Py Config.

Lemma result_bind_inr {A B} (m : result A) (f : A → result B) y :
  m ≫= f = inr y → ∃ x, m = inr x ∧ f x = inr y.
Proof. destruct m as [e | x]; [done | by exists x]. Qed.

(** *** The model range *)

(** [SimulationConfig.set_model_start_end] always returns, and sets the
    two attributes to [range_of args]. *)
Lemma set_model_start_end_eq args (self : gmap string pyval) :
  set_model_start_end args self =
    inr (<["model_end" := VInt (range_of args).2]>
           (<["model_start" := VInt (range_of args).1]> self)).
Proof.
  unfold set_model_start_end, setattr, range_of, truthy.
  destruct (task args) as [t|]; destruct (restart args) as [r|]; simpl;
    repeat match goal with
           | |- context [?x =? 0] => destruct (Z.eqb_spec x 0); simpl
           end;
    reflexivity.
Qed.

Lemma range_of_cases args :
  (∀ t, task args = Some t → t ≠ 0 → range_of args = (t - 1, t))
  ∧ (∀ r, truthy (task args) = false → restart args = Some r → r ≠ 0 →
          range_of args = (r - 1, r - 1 + n args - 1))
  ∧ (truthy (task args) = false → truthy (restart args) = false →
     range_of args = (0, n args)).
Proof.
  unfold range_of, truthy.
  destruct (task args) as [t|]; destruct (restart args) as [r|]; simpl;
    repeat match goal with
           | |- context [?x =? 0] => destruct (Z.eqb_spec x 0); simpl
           end;
    repeat split; intros; simplify_eq; try done; f_equal; lia.
Qed.

(** C2 (as the code has it). [SimulationConfig.set_model_start_end]
    always returns, with [model_start] and [model_end] set as follows: in
    task mode, entered when [args.task] is an integer other than 0,
    [t - 1] and [t]; otherwise in restart mode, entered when
    [args.restart] is an integer other than 0, [r - 1] and
    [model_start + n - 1]; otherwise, 0 and [n].  A task or restart index
    of 0 counts as not supplied. *)
Theorem set_model_start_end_range args self :
  ∃ s e,
    set_model_start_end args self =
      inr (<["model_end" := VInt e]> (<["model_start" := VInt s]> self))
    ∧ (∀ t, task args = Some t → t ≠ 0 → s = t - 1 ∧ e = t)
    ∧ (∀ r, truthy (task args) = false → restart args = Some r → r ≠ 0 →
            s = r - 1 ∧ e = s + n args - 1)
    ∧ (truthy (task args) = false → truthy (restart args) = false →
       s = 0 ∧ e = n args).
Proof.
  exists (range_of args).1, (range_of args).2.
  split; [apply set_model_start_end_eq |].
  destruct (range_of_cases args) as (Ht & Hr & Hd).
  split; [| split].
  - intros t H1 H2. by rewrite (Ht t H1 H2).
  - intros r H1 H2 H3. by rewrite (Hr r H1 H2 H3).
  - intros H1 H2. by rewrite (Hd H1 H2).
Qed.

(** The ranges the specification lists. *)
Example range_restart_2_n_3 :
  set_model_start_end (run_args 3 None (Some 2) false) ∅ =
    inr (<["model_end" := VInt 3]> (<["model_start" := VInt 1]> ∅)).
Proof. reflexivity. Qed.

Example range_task_2 n :
  set_model_start_end (run_args n (Some 2) None false) ∅ =
    inr (<["model_end" := VInt 2]> (<["model_start" := VInt 1]> ∅)).
Proof. reflexivity. Qed.

Example range_default_n_3 :
  set_model_start_end (run_args 3 None None false) ∅ =
    inr (<["model_end" := VInt 3]> (<["model_start" := VInt 0]> ∅)).
Proof. reflexivity. Qed.

(** Against C2 as stated: a task index 0 is supplied, and the range is
    the default one, [0] to [n = 3], not [t - 1 = -1] to [t = 0]. *)
Lemma task_zero_is_default_mode :
  task (run_args 3 (Some 0) None false) = Some 0
  ∧ set_model_start_end (run_args 3 (Some 0) None false) ∅ =
      inr (<["model_end" := VInt 3]> (<["model_start" := VInt 0]> ∅))
  ∧ VInt 0 ≠ VInt (0 - 1)
  ∧ VInt 3 ≠ VInt 0.
Proof. repeat split; done. Qed.

(** *** The constructor *)

Lemma set_single_model_spec (self : gmap string pyval) s e :
  self !! "model_start" = Some (VInt s) →
  self !! "model_end" = Some (VInt e) →
  set_single_model self =
    inr (<["single_model" := VBool (bool_decide (s = 0 ∧ e = 1))]> self).
Proof.
  intros Hs He. unfold set_single_model, getattr, setattr.
  rewrite Hs. simpl. destruct (Z.eqb_spec s 0) as [-> | Hs0].
  - rewrite He. simpl. destruct (Z.eqb_spec e 1) as [-> | He1].
    + by rewrite bool_decide_eq_true_2.
    + rewrite bool_decide_eq_false_2; [done | by intros [_ ?]].
  - rewrite bool_decide_eq_false_2; [done | by intros [? _]].
Qed.

(** [SimulationConfigMPI.set_model_start_end] reads [self.modelstart],
    an attribute no statement of either class sets. *)
Lemma set_model_start_end_MPI_raises args (self : gmap string pyval) :
  self !! "modelstart" = None →
  set_model_start_end_MPI args self = inl (AttributeError "modelstart").
Proof.
  intros H. unfold set_model_start_end_MPI, getattr, setattr.
  rewrite lookup_insert_ne by done. by rewrite H.
Qed.

(** The steps of [__init__] before the range is set leave the attribute
    [modelstart] as it was: unset. *)
Lemma optional_attr_lookup (a : option pyval) name dflt
    (self self' : gmap string pyval) k :
  name ≠ k →
  try_except_AttributeError
    (v ← args_attr name a; mret (setattr self name v))
    (mret (setattr self name dflt)) = inr self' →
  self' !! k = self !! k.
Proof.
  intros Hne H. unfold setattr in H.
  destruct a as [v|]; injection H as <-; by rewrite lookup_insert_ne.
Qed.

Lemma set_input_file_path_lookup args (self self' : gmap string pyval) k :
  "input_file_path" ≠ k →
  set_input_file_path args self = inr self' → self' !! k = self !! k.
Proof.
  intros Hne H. unfold set_input_file_path, setattr in H.
  case_bool_decide.
  - destruct (outputfile args) as [[o|]|]; [| discriminate H..].
    injection H as <-. by rewrite lookup_insert_ne.
  - destruct (inputfile args) as [i|]; [| discriminate H].
    injection H as <-. by rewrite lookup_insert_ne.
Qed.

Lemma set_output_file_path_lookup args (self self' : gmap string pyval) k :
  "output_file_path" ≠ k →
  set_output_file_path args self = inr self' → self' !! k = self !! k.
Proof.
  intros Hne H. unfold set_output_file_path, setattr in H.
  destruct (outputfile args) as [[o|]|]; [| discriminate H |].
  - injection H as <-. by rewrite lookup_insert_ne.
  - destruct (inputfile args) as [i|]; [| discriminate H].
    injection H as <-. by rewrite lookup_insert_ne.
Qed.

(** What [__init__] has done when it returns: the object it gave to
    [set_model_start_end] had no attribute [modelstart], and
    [set_single_model] ran last. *)
Lemma init_inr args f sc :
  init args f = inr sc →
  ∃ self0 self1 : gmap string pyval,
    self0 !! "modelstart" = None ∧ f self0 = inr self1
    ∧ set_single_model self1 = inr sc.
Proof.
  unfold init. cbv zeta. intros H.
  apply result_bind_inr in H as (a & Ha & H).
  apply result_bind_inr in H as (b & Hb & H).
  apply result_bind_inr in H as (c & Hc & H).
  apply result_bind_inr in H as (d & Hd & H).
  apply result_bind_inr in H as (self1 & Hf & H).
  exists d, self1. split; [| done].
  rewrite (set_output_file_path_lookup _ _ _ "modelstart" ltac:(done) Hd).
  rewrite (set_input_file_path_lookup _ _ _ "modelstart" ltac:(done) Hc).
  rewrite (optional_attr_lookup _ "scenes" _ _ _ "modelstart" ltac:(done) Hb).
  rewrite (optional_attr_lookup _ "subgrid" _ _ _ "modelstart" ltac:(done) Ha).
  unfold setattr. repeat rewrite lookup_insert_ne by done.
  apply lookup_empty.
Qed.

Lemma SimulationConfigMPI_raises args :
  ∃ e, SimulationConfigMPI args = inl e.
Proof.
  destruct (SimulationConfigMPI args) as [e | sc] eqn:H; [by eexists|].
  unfold SimulationConfigMPI in H.
  apply init_inr in H as (self0 & self1 & H0 & Hf & _).
  rewrite set_model_start_end_MPI_raises in Hf by exact H0.
  discriminate Hf.
Qed.

(** C5 (as the code has it). Whenever [create_simulation_config]
    returns, [single_model] is true exactly when [model_start] is 0 and
    [model_end] is 1; [model_end > model_start] is not checked: it holds
    in task mode, in restart mode exactly when [n >= 2], and in default
    mode exactly when [n >= 1]. *)
Theorem resolved_single_model_and_range args sc :
  create_simulation_config args = inr sc →
  ∃ s e,
    sc !! "model_start" = Some (VInt s)
    ∧ sc !! "model_end" = Some (VInt e)
    ∧ sc !! "single_model" = Some (VBool (bool_decide (s = 0 ∧ e = 1)))
    ∧ (s < e ↔
         truthy (task args) = true
         ∨ (truthy (task args) = false ∧ truthy (restart args) = true
            ∧ 2 ≤ n args)
         ∨ (truthy (task args) = false ∧ truthy (restart args) = false
            ∧ 1 ≤ n args)).
Proof.
  unfold create_simulation_config. intros H.
  assert (SimulationConfig args = inr sc) as Hsc.
  { destruct (negb (mpi args) && negb (mpi_no_spawn args)); [done|].
    destruct (mpi args); [| done].
    destruct (SimulationConfigMPI_raises args) as [e He]. congruence. }
  clear H. unfold SimulationConfig in Hsc.
  apply init_inr in Hsc as (self0 & self1 & _ & Hf & Hsingle).
  rewrite set_model_start_end_eq in Hf. injection Hf as <-.
  destruct (range_of args) as [s e] eqn:Hrange. simpl in Hsingle.
  rewrite (set_single_model_spec _ s e) in Hsingle
    by (by simplify_map_eq).
  injection Hsingle as <-.
  exists s, e. split; [by simplify_map_eq|].
  split; [by simplify_map_eq|]. split; [by simplify_map_eq|].
  unfold range_of, truthy in *.
  destruct (task args) as [t|]; destruct (restart args) as [r|]; simpl in *;
    repeat match goal with
           | H : context [?x =? 0] |- _ =>
               destruct (Z.eqb_spec x 0); simpl in *
           end;
    simplify_eq; intuition (try discriminate; lia).
Qed.

Lemma returned_inr {A} (r : result A) : returned r = true → ∃ x, r = inr x.
Proof. destruct r as [e | x]; [done | by exists x]. Qed.

(** The theorem at the default run of one model. *)
Lemma resolved_single_model_and_range_witness :
  ∃ sc s e,
    create_simulation_config (run_args 1 None None false) = inr sc
    ∧ sc !! "model_start" = Some (VInt s)
    ∧ sc !! "model_end" = Some (VInt e)
    ∧ sc !! "single_model" = Some (VBool (bool_decide (s = 0 ∧ e = 1)))
    ∧ (s < e ↔
         truthy (task (run_args 1 None None false)) = true
         ∨ (truthy (task (run_args 1 None None false)) = false
            ∧ truthy (restart (run_args 1 None None false)) = true
            ∧ 2 ≤ n (run_args 1 None None false))
         ∨ (truthy (task (run_args 1 None None false)) = false
            ∧ truthy (restart (run_args 1 None None false)) = false
            ∧ 1 ≤ n (run_args 1 None None false))).
Proof.
  assert (Hb : returned (create_simulation_config
                           (run_args 1 None None false)) = true)
    by (vm_compute; reflexivity).
  destruct (returned_inr _ Hb) as [sc H].
  destruct (resolved_single_model_and_range _ sc H) as (s & e & Hr).
  exists sc, s, e. split; [exact H | exact Hr].
Defined.

(** The ranges and flags of the specification, read back from the
    constructed object. *)
Example resolved_default_n_3 :
  resolved_range (run_args 3 None None false) =
    inr (Some (VInt 0), Some (VInt 3), Some (VBool false)).
Proof. vm_compute. reflexivity. Qed.

Example resolved_default_n_1 :
  resolved_range (run_args 1 None None false) =
    inr (Some (VInt 0), Some (VInt 1), Some (VBool true)).
Proof. vm_compute. reflexivity. Qed.

(** Against C5 as stated: the resolver returns and [model_end] is not
    greater than [model_start], for a restart from model 2 with the
    default count [n = 1], and for [n = 0]. *)
Lemma resolved_range_can_be_empty :
  resolved_range (run_args 1 None (Some 2) false) =
    inr (Some (VInt 1), Some (VInt 1), Some (VBool false))
  ∧ ¬ (1 > 1)
  ∧ resolved_range (run_args 0 None None false) =
      inr (Some (VInt 0), Some (VInt 0), Some (VBool false))
  ∧ ¬ (0 > 0).
Proof.
  split; [vm_compute; reflexivity |]. split; [lia |].
  split; [vm_compute; reflexivity | lia].
Qed.

(** *** The MPI variant *)

Lemma create_simulation_config_mpi_raises args :
  mpi args = true → ∃ e, create_simulation_config args = inl e.
Proof.
  intros H. unfold create_simulation_config. rewrite H. simpl.
  apply SimulationConfigMPI_raises.
Qed.

(** C6. The MPI resolver for [restart = None], [n = 3], and for
    [restart = 2], [n = 3]: no range is produced, the constructor raises
    [AttributeError] for [modelstart]. *)
Theorem mpi_range_raises_AttributeError :
  create_simulation_config (run_args 3 None None true)
    = inl (AttributeError "modelstart")
  ∧ create_simulation_config (run_args 3 None (Some 2) true)
    = inl (AttributeError "modelstart").
Proof. split; vm_compute; reflexivity. Qed.

(** *** The precision registry *)

(** C10 (as the code has it). Initialisation never raises.  For the label
    ["single"] the registry gives a 32-bit real and a 64-bit complex type,
    for ["double"], the label the source assigns, 64 and 128 bits; for any
    other label the name [dtypes] is left as it was, so that in a fresh
    module namespace it is unbound and a later read of it raises
    [NameError]. *)
Theorem init_precision_registry label g0 :
  ∃ g,
    init_precision label g0 = inr g
    ∧ (label = "single" →
       width g "float_or_double" = Some 32 ∧ width g "complex" = Some 64)
    ∧ (label = "double" →
       width g "float_or_double" = Some 64 ∧ width g "complex" = Some 128)
    ∧ (label ≠ "single" → label ≠ "double" →
       g !! "dtypes" = g0 !! "dtypes"
       ∧ (g0 = ∅ → ∀ key, dtypes_lookup g key = inl (NameError "dtypes")))
    ∧ precision = "double".
Proof.
  unfold init_precision. repeat case_bool_decide; subst.
  - eexists. split; [reflexivity |].
    repeat split; try done.
    all: unfold width, dtypes_lookup; rewrite lookup_insert_eq;
      vm_compute; reflexivity.
  - eexists. split; [reflexivity |].
    repeat split; try done.
    all: unfold width, dtypes_lookup; rewrite lookup_insert_eq;
      vm_compute; reflexivity.
  - eexists. split; [reflexivity |].
    repeat split; try done.
    + by rewrite lookup_insert_ne.
    + intros -> key. unfold dtypes_lookup.
      by rewrite lookup_insert_ne, lookup_empty.
Qed.

(** Against C10 as stated: with the label ["half"] initialisation returns
    normally, no exception is raised, and [dtypes] is unbound. *)
Lemma unsupported_precision_does_not_raise :
  "half" ≠ "single" ∧ "half" ≠ "double"
  ∧ init_precision "half" ∅ = inr (<["precision" := GStr "half"]> ∅)
  ∧ (<["precision" := GStr "half"]> ∅ : gmap string gval) !! "dtypes" = None.
Proof.
  split; [done |]. split; [done |].
  split; vm_compute; reflexivity.
Qed.

End ConfigProps.

(** ** Further properties of [process_multicmds] *)

Module MultiuseExtra.
Import Py InputCmdsMultiuse MultiuseProps.

(** *** Arity *)

Ltac split_tests :=
  repeat match goal with
         | |- context [?a =? ?b] => destruct (Z.eqb_spec a b)
         | |- context [?a <? ?b] => destruct (Z.ltb_spec a b)
         | H : context [?a =? ?b] |- _ => destruct (Z.eqb_spec a b)
         | H : context [?a <=? ?b] |- _ => destruct (Z.leb_spec a b)
         end.

(** X1. For each of the sixteen directives, an instance whose token count
    is not one its group accepts makes the body of the loop raise
    [CmdInputError], with a message that quotes the directive name and
    the tokens joined by single spaces. *)
Theorem invalid_arity_CmdInputError k ok body tmp s :
  (k, ok, body) ∈ directive_table →
  ok (len tmp) = false →
  ∃ tail, body k tmp s = inl (CmdInputError (message k tmp tail)).
Proof.
  intros Hin Hok. unfold directive_table in Hin.
  repeat (apply elem_of_cons in Hin as [[= -> -> ->] | Hin]);
    [.. | by apply elem_of_nil in Hin].
  all: match goal with |- ∃ _, ?b _ _ _ = _ => unfold b end.
  all: generalize dependent (len tmp); intros n Hok.
  all: split_tests; simpl in Hok; try discriminate Hok; try lia.
  all: eexists; reflexivity.
Qed.

Lemma waveform_in_table :
  ("#waveform", (λ n, n =? 4), waveform_body) ∈ directive_table.
Proof. apply list_elem_of_here. Defined.

(** A waveform instance of three tokens. *)
Lemma invalid_arity_CmdInputError_witness :
  ("#waveform", (λ n, n =? 4), waveform_body) ∈ directive_table
  ∧ (len ["ricker"; "1"; "1e9"] =? 4) = false
  ∧ ∃ tail, waveform_body "#waveform" ["ricker"; "1"; "1e9"]
              (Locals [] None)
            = inl (CmdInputError
                     (message "#waveform" ["ricker"; "1"; "1e9"] tail)).
Proof.
  split; [exact waveform_in_table |]. split; [reflexivity |].
  exact (invalid_arity_CmdInputError "#waveform" (λ n, n =? 4)
           waveform_body ["ricker"; "1"; "1e9"] (Locals [] None)
           waveform_in_table eq_refl).
Defined.

(** A loop one of whose instances makes the body raise, raises. *)
Lemma for_each_raises {A} (l : list A) (f : A → M unit) x :
  x ∈ l → raises (f x) → raises (for_each l f).
Proof.
  intros Hin Hx s. unfold for_each.
  destruct (for_acc_raises (λ y _, f y) (λ _, True) l x Hin) with () s
    as (e & He & _); [done | intros _; apply Hx | by exists e].
Qed.

Lemma block_raises (m : table) k body insts inst :
  m !! k = Some (Some insts) → inst ∈ insts →
  (∀ s, ∃ e, body k (split inst) s = inl e) →
  raises (block m k body).
Proof.
  intros Hm Hin Hb s. unfold block, for_instances, lookup_cmd. rewrite Hm.
  erewrite bind_inr by reflexivity. cbv beta iota.
  apply (for_each_raises _ _ inst Hin). intros s0.
  erewrite bind_inr by reflexivity. apply Hb.
Qed.

Lemma pml_cfs_block_raises (m : table) k insts inst :
  m !! k = Some (Some insts) → inst ∈ insts →
  (∀ s, ∃ e, pml_cfs_body k (split inst) s = inl e) →
  raises (pml_cfs_block m k).
Proof.
  intros Hm Hin Hb s. unfold pml_cfs_block, lookup_cmd. rewrite Hm.
  erewrite bind_inr by reflexivity. cbv beta iota.
  apply raises_bind_r. intros _.
  apply (for_each_raises _ _ inst Hin). intros s0.
  erewrite bind_inr by reflexivity. apply Hb.
Qed.

(** The body of every group raises on a token count outside the ones
    its checks let through. *)
Lemma body_raises_on_arity k ok body tmp s :
  (k, ok, body) ∈ directive_table →
  ok (len tmp) = false →
  ∃ e, body k tmp s = inl e.
Proof.
  intros Hin Hok. unfold directive_table in Hin.
  repeat (apply elem_of_cons in Hin as [[= -> -> ->] | Hin]);
    [.. | by apply elem_of_nil in Hin].
  all: match goal with |- ∃ _, ?b _ _ _ = _ => unfold b end.
  all: generalize dependent (len tmp); intros n Hok.
  all: split_tests; simpl in Hok; try discriminate Hok; try lia.
  all: eexists; reflexivity.
Qed.

(** X2. No silent skipping: if any instance of any directive in the table
    has a token count its group does not accept, [process_multicmds]
    raises and returns no scene, whatever else the table holds. *)
Theorem invalid_arity_no_scene (m : table) k ok body insts inst :
  (k, ok, body) ∈ directive_table →
  m !! k = Some (Some insts) →
  inst ∈ insts →
  ok (len (split inst)) = false →
  ∃ e, process_multicmds m = inl e.
Proof.
  intros Hin Hm Hinst Hok.
  assert (Hb : ∀ s, ∃ e, body k (split inst) s = inl e).
  { intros s.
    apply (body_raises_on_arity k ok body); assumption. }
  assert (raises (blocks m)) as Hr.
  { unfold directive_table in Hin. unfold blocks.
    repeat (apply elem_of_cons in Hin as [[= -> -> ->] | Hin]);
      [.. | by apply elem_of_nil in Hin];
      repeat first
        [ by eapply pml_cfs_block_raises
        | by eapply raises_bind_l, block_raises
        | apply raises_bind_r; intros _ ]. }
  unfold process_multicmds. destruct (Hr (Locals [] None)) as [e ->].
  by exists e.
Qed.

(** A table with one good and one short waveform instance. *)
Lemma invalid_arity_no_scene_witness :
  ("#waveform", (λ n, n =? 4), waveform_body) ∈ directive_table
  ∧ only "#waveform" ["ricker 1 1e9 w1"; "ricker 1 1e9"] !! "#waveform"
    = Some (Some ["ricker 1 1e9 w1"; "ricker 1 1e9"])
  ∧ "ricker 1 1e9" ∈ ["ricker 1 1e9 w1"; "ricker 1 1e9"]
  ∧ (len (split "ricker 1 1e9") =? 4) = false
  ∧ ∃ e, process_multicmds
           (only "#waveform" ["ricker 1 1e9 w1"; "ricker 1 1e9"]) = inl e.
Proof.
  assert (H : "ricker 1 1e9" ∈ ["ricker 1 1e9 w1"; "ricker 1 1e9"])
    by (apply list_elem_of_further, list_elem_of_here).
  split; [exact waveform_in_table |]. split; [reflexivity |].
  split; [exact H |]. split; [reflexivity |].
  exact (invalid_arity_no_scene
           (only "#waveform" ["ricker 1 1e9 w1"; "ricker 1 1e9"])
           "#waveform" (λ n, n =? 4) waveform_body
           ["ricker 1 1e9 w1"; "ricker 1 1e9"] "ricker 1 1e9"
           waveform_in_table eq_refl H eq_refl).
Defined.

(** *** What a group does to the locals *)

Lemma stateless_weaken {A} (P Q : A → Prop) (c : M A) :
  (∀ x, P x → Q x) → stateless_with P c → stateless_with Q c.
Proof. intros HPQ (r & Hr & HP). exists r. split; [done | eauto]. Qed.

Lemma stateless_ret {A} (P : A → Prop) (x : A) :
  P x → stateless_with P (mret x).
Proof. intros HP. exists (inr x). split; [done | by intros ? [= <-]]. Qed.

Lemma stateless_raise {A} (P : A → Prop) e :
  stateless_with P (raise e : M A).
Proof. exists (inl e). split; [done | by intros ? [=]]. Qed.

Lemma stateless_raise_bind {A B} (P : B → Prop) e (f : A → M B) :
  stateless_with P ((raise e : M A) ≫= f).
Proof. exists (inl e). split; [done | by intros ? [=]]. Qed.

Lemma stateless_lift {A} (r : result A) : stateless (lift r).
Proof. exists r. split; [by destruct r | done]. Qed.

Lemma stateless_bind {A B} (P : B → Prop) (m : M A) (f : A → M B) :
  stateless m → (∀ x, stateless_with P (f x)) → stateless_with P (m ≫= f).
Proof.
  intros (r & Hr & _) Hf. destruct r as [e | x].
  - exists (inl e). split; [| by intros ? [=]].
    intros s. by apply bind_inl.
  - destruct (Hf x) as (r' & Hr' & HP). exists r'. split; [| done].
    intros s. erewrite bind_inr by apply Hr. apply Hr'.
Qed.

Lemma stateless_tok t i : stateless (tok t i).
Proof. apply stateless_lift. Qed.

Lemma stateless_float x : stateless (float x).
Proof.
  unfold float. destruct (float_of_string x);
    [by apply stateless_ret | apply stateless_raise].
Qed.

Lemma stateless_int x : stateless (int x).
Proof.
  unfold int. destruct (int_of_string x);
    [by apply stateless_ret | apply stateless_raise].
Qed.

Lemma stateless_ftok t i : stateless (ftok t i).
Proof.
  apply stateless_bind; [apply stateless_tok | intros x; apply stateless_float].
Qed.

Lemma stateless_fpoint t i j k : stateless (fpoint t i j k).
Proof.
  unfold fpoint.
  repeat (apply stateless_bind; [apply stateless_ftok | intros ?]).
  by apply stateless_ret.
Qed.

Lemma stateless_call {A} (P : A → Prop) name (args : M A) :
  stateless_with P args → stateless_with P (call name args).
Proof.
  intros H. unfold call, load_global. case_bool_decide.
  - apply stateless_bind; [by apply stateless_ret | done].
  - apply stateless_raise_bind.
Qed.

Lemma stateless_try {A} (P : A → Prop) (body handler : M A) :
  stateless_with P body → stateless_with P handler →
  stateless_with P (try_except_ValueError body handler).
Proof.
  intros (rb & Hb & Pb) (rh & Hh & Ph). unfold try_except_ValueError.
  destruct rb as [e | x].
  - destruct e;
      try (eexists (inl _); split;
           [intros s; by rewrite Hb | by intros ? [=]]).
    exists rh. split; [| done]. intros s. by rewrite Hb, Hh.
  - exists (inr x). split; [| done]. intros s. by rewrite Hb.
Qed.

Lemma stateless_for_acc {A B} (l : list A) (acc : B) (body : A → B → M B) :
  (∀ x a, stateless (body x a)) → stateless (for_acc l acc body).
Proof.
  intros Hbody. revert acc. induction l as [|x l IH]; intros acc; simpl.
  - by apply stateless_ret.
  - apply stateless_bind; [apply Hbody | intros a; apply IH].
Qed.

Lemma emits_raise P e : emits_with P (raise e).
Proof. exists (inl e). split; [done | by intros ? [=]]. Qed.

Lemma emits_append P (m : M descriptor) :
  stateless_with P m → emits_with P (m ≫= append).
Proof.
  intros (r & Hr & HP). exists r. split; [| done].
  intros s. destruct r as [e | d].
  - by apply bind_inl.
  - by erewrite bind_inr by apply Hr.
Qed.

Lemma emits_bind {A} P (m : M A) (f : A → M unit) :
  stateless m → (∀ x, emits_with P (f x)) → emits_with P (m ≫= f).
Proof.
  intros (r & Hr & _) Hf. destruct r as [e | x].
  - exists (inl e). split; [| by intros ? [=]].
    intros s. by apply bind_inl.
  - destruct (Hf x) as (r' & Hr' & HP). exists r'. split; [| done].
    intros s. erewrite bind_inr by apply Hr. apply Hr'.
Qed.

(** Discharges [stateless_with] and [emits_with] goals by the shape of
    the computation. *)
Ltac stateless_step :=
  first
    [ apply stateless_raise_bind
    | apply stateless_raise
    | apply stateless_ret; first [reflexivity | exact I]
    | apply stateless_tok | apply stateless_ftok | apply stateless_fpoint
    | apply stateless_float | apply stateless_int
    | apply stateless_call
    | apply stateless_try
    | apply stateless_for_acc; intros ? ?
    | apply stateless_bind; [| intros ?]
    | match goal with
      | |- stateless_with _ (if ?b then _ else _) => destruct b
      | |- stateless_with _ (let '(_, _) := ?x in _) => destruct x
      | |- stateless_with _ (match ?x with (_, _) => _ end) => destruct x
      end ].

Ltac emits_step :=
  first
    [ apply emits_raise
    | apply emits_append
    | apply emits_bind; [| intros ?]
    | match goal with
      | |- emits_with _ (if ?b then _ else _) => destruct b
      | |- emits_with _ (let '(_, _) := ?x in _) => destruct x
      | |- emits_with _ (match ?x with (_, _) => _ end) => destruct x
      end ].

Ltac emits_tac :=
  cbv zeta;
  repeat (try unfold stateless; first [emits_step | stateless_step]).

(** Every body but the one for [#geometry_objects_write] raises or appends
    one object of its own kind, whatever the locals. *)
Lemma body_emits k ok body t :
  (k, ok, body) ∈ directive_table → k ≠ "#geometry_objects_write" →
  emits_with (λ d, kind_of d = k) (body k t).
Proof.
  intros Hin Hk. unfold directive_table in Hin.
  repeat (apply elem_of_cons in Hin as [[= -> -> ->] | Hin]);
    [.. | by apply elem_of_nil in Hin]; try done.
  all: match goal with |- emits_with _ (?b _ _) => unfold b end.
  all: emits_tac.
Qed.

Lemma geometry_objects_write_body_stateless k t :
  stateless (geometry_objects_write_body k t).
Proof. unfold geometry_objects_write_body. emits_tac. Qed.

(** *** One object per instance *)

Lemma bind_inr_inv {A B} (m : M A) (f : A → M B) s r :
  (m ≫= f) s = inr r → ∃ x s1, m s = inr (x, s1) ∧ f x s1 = inr r.
Proof.
  unfold mbind, M_bind. destruct (m s) as [e | [x s1]]; [done |].
  intros H. by exists x, s1.
Qed.

Lemma for_each_emits P (body : list string → M unit) insts :
  (∀ t, emits_with P (body t)) →
  ∀ s s',
    for_each insts (λ i, t ← split_to_tmp i; body t) s = inr ((), s') →
    ∃ ds, length ds = length insts ∧ Forall P ds
          ∧ scene_objects s' = scene_objects s ++ ds.
Proof.
  intros Hbody. unfold for_each.
  induction insts as [|i insts IH]; intros s s' H.
  - injection H as <-. exists []. by rewrite app_nil_r.
  - simpl in H. apply bind_inr_inv in H as (u & s1 & Hi & Hrest).
    erewrite bind_inr in Hi by reflexivity.
    destruct (Hbody (split i)) as (r & Hr & HP). rewrite Hr in Hi.
    destruct r as [e | d]; [done |]. injection Hi as <- <-.
    apply IH in Hrest as (ds & Hlen & HF & Hso). simpl in Hso.
    exists (d :: ds). split; [simpl; by rewrite Hlen |].
    split; [constructor; eauto |]. by rewrite Hso, <- app_assoc.
Qed.

Lemma for_each_stateless (body : list string → M unit) insts :
  (∀ t, stateless (body t)) →
  ∀ s s',
    for_each insts (λ i, t ← split_to_tmp i; body t) s = inr ((), s') →
    scene_objects s' = scene_objects s.
Proof.
  intros Hbody. unfold for_each.
  induction insts as [|i insts IH]; intros s s' H.
  - by injection H as <-.
  - simpl in H. apply bind_inr_inv in H as (u & s1 & Hi & Hrest).
    erewrite bind_inr in Hi by reflexivity.
    destruct (Hbody (split i)) as (r & Hr & _). rewrite Hr in Hi.
    destruct r as [e | []]; [done |]. injection Hi as <- <-.
    by apply IH in Hrest.
Qed.

Lemma lookup_cmd_inv (m : table) k s v s1 :
  lookup_cmd m k s = inr (v, s1) → m !! k = Some v ∧ s1 = s.
Proof.
  unfold lookup_cmd. destruct (m !! k) as [v' |]; [| done].
  by intros [= -> ->].
Qed.

Lemma kinds_replicate (ds : list descriptor) k n :
  length ds = n → Forall (λ d, kind_of d = k) ds →
  kind_of <$> ds = replicate n k.
Proof.
  intros <- HF. induction HF as [| d ds Hd _ IH]; [done |].
  change (kind_of d :: (kind_of <$> ds) = k :: replicate (length ds) k).
  by rewrite Hd, IH.
Qed.

(** A group that returns has appended one object of its kind for each of
    its instances, in order, and nothing else. *)
Lemma block_emits (m : table) k body s s' :
  (∀ t, emits_with (λ d, kind_of d = k) (body k t)) →
  block m k body s = inr ((), s') →
  ∃ ds, scene_objects s' = scene_objects s ++ ds
        ∧ kind_of <$> ds = replicate (length (instances m k)) k.
Proof.
  intros Hbody H. unfold block, for_instances in H.
  apply bind_inr_inv in H as (v & s1 & Hv & H).
  apply lookup_cmd_inv in Hv as [Hm ->]. unfold instances. rewrite Hm.
  destruct v as [insts |].
  - apply (for_each_emits _ (body k) insts Hbody) in H
      as (ds & Hlen & HF & Hso).
    exists ds. split; [done | by apply kinds_replicate].
  - injection H as <-. exists []. by rewrite app_nil_r.
Qed.

Lemma block_stateless (m : table) k body s s' :
  (∀ t, stateless (body k t)) →
  block m k body s = inr ((), s') →
  scene_objects s' = scene_objects s.
Proof.
  intros Hbody H. unfold block, for_instances in H.
  apply bind_inr_inv in H as (v & s1 & Hv & H).
  apply lookup_cmd_inv in Hv as [Hm ->].
  destruct v as [insts |].
  - by apply (for_each_stateless (body k) insts Hbody) in H.
  - by injection H as <-.
Qed.

Lemma pml_cfs_block_emits (m : table) s s' :
  pml_cfs_block m "#pml_cfs" s = inr ((), s') →
  ∃ ds, scene_objects s' = scene_objects s ++ ds
        ∧ kind_of <$> ds
          = replicate (length (instances m "#pml_cfs")) "#pml_cfs"
        ∧ (length (instances m "#pml_cfs") ≤ 2)%nat.
Proof.
  intros H. unfold pml_cfs_block in H.
  apply bind_inr_inv in H as (v & s1 & Hv & H).
  apply lookup_cmd_inv in Hv as [Hm ->]. unfold instances. rewrite Hm.
  destruct v as [insts |].
  - apply bind_inr_inv in H as (u & s1 & Hcheck & H).
    destruct (Z.ltb_spec 2 (len insts)) as [Hlt | Hle].
    { apply bind_inr_inv in Hcheck as (t & s2 & _ & Hraise). done. }
    injection Hcheck as <- <-.
    apply (for_each_emits (λ d, kind_of d = "#pml_cfs")
             (pml_cfs_body "#pml_cfs") insts) in H
      as (ds & Hlen & HF & Hso).
    + exists ds. split; [done |]. split; [by apply kinds_replicate |].
      unfold len in Hle. lia.
    + intros t. eapply (body_emits "#pml_cfs" _ pml_cfs_body); [| done].
      unfold directive_table. repeat first
        [ apply list_elem_of_here | apply list_elem_of_further ].
  - injection H as <-. exists []. rewrite app_nil_r. simpl. split; [done |].
    split; [done | lia].
Qed.

Lemma expected_kinds_unfold (m : table) :
  expected_kinds m =
    replicate (length (instances m "#waveform")) "#waveform"
    ++ replicate (length (instances m "#voltage_source")) "#voltage_source"
    ++ replicate (length (instances m "#hertzian_dipole")) "#hertzian_dipole"
    ++ replicate (length (instances m "#magnetic_dipole")) "#magnetic_dipole"
    ++ replicate (length (instances m "#transmission_line"))
         "#transmission_line"
    ++ replicate (length (instances m "#rx")) "#rx"
    ++ replicate (length (instances m "#rx_array")) "#rx_array"
    ++ replicate (length (instances m "#snapshot")) "#snapshot"
    ++ replicate (length (instances m "#material")) "#material"
    ++ replicate (length (instances m "#add_dispersion_debye"))
         "#add_dispersion_debye"
    ++ replicate (length (instances m "#add_dispersion_lorentz"))
         "#add_dispersion_lorentz"
    ++ replicate (length (instances m "#add_dispersion_drude"))
         "#add_dispersion_drude"
    ++ replicate (length (instances m "#soil_peplinski")) "#soil_peplinski"
    ++ replicate (length (instances m "#geometry_view")) "#geometry_view"
    ++ []
    ++ replicate (length (instances m "#pml_cfs")) "#pml_cfs"
    ++ [].
Proof. reflexivity. Qed.

Ltac in_table :=
  unfold directive_table;
  repeat first [ apply list_elem_of_here | apply list_elem_of_further ].

(** X3. A call that returns a scene has built exactly one object for each
    instance of each directive, of that directive's kind, grouped by
    directive in the fixed source order whatever the order of the table,
    except that [#geometry_objects_write] instances contribute nothing;
    and the table then holds at most two [#pml_cfs] instances. *)
Theorem scene_kinds (m : table) ds :
  process_multicmds m = inr ds →
  kind_of <$> ds = expected_kinds m
  ∧ (length (instances m "#pml_cfs") ≤ 2)%nat.
Proof.
  unfold process_multicmds.
  destruct (blocks m (Locals [] None)) as [e | [[] s']] eqn:H; [done |].
  intros [= <-]. unfold blocks in H.
  do 15 (apply bind_inr_inv in H as ([] & ? & ? & H)).
  apply pml_cfs_block_emits in H as (dp & Hp & Hkp & Hle).
  split; [| exact Hle].
  repeat match goal with
         | Hb : block _ "#geometry_objects_write" _ _ = inr _ |- _ =>
             apply block_stateless in Hb;
             [| intros; apply geometry_objects_write_body_stateless]
         | Hb : block _ ?k ?b _ = inr _ |- _ =>
             apply block_emits in Hb as (? & ? & ?);
             [| intros; eapply (body_emits k _ b); [in_table | done]]
         end.
  repeat match goal with
         | Hso : scene_objects _ = _ |- _ => rewrite Hso; clear Hso
         end.
  rewrite expected_kinds_unfold. simpl scene_objects.
  rewrite !fmap_app.
  repeat match goal with
         | Hk : kind_of <$> _ = _ |- _ => rewrite Hk; clear Hk
         end.
  rewrite !app_nil_r. simpl. by rewrite <- !app_assoc.
Qed.

(** A table with two waveforms and one material. *)
Lemma scene_kinds_witness :
  process_multicmds
    (<["#material" := Some ["3 0.01 1 0 sand"]]>
       (only "#waveform" ["ricker 1 1e9 w1"; "gaussian 2 1e9 w2"]))
  = inr [ Waveform "ricker" (Fdec false 1 0) (Fdec false 1 9) "w1";
          Waveform "gaussian" (Fdec false 2 0) (Fdec false 1 9) "w2";
          Material (Fdec false 3 0) (Fdec false 1 (-2)) (Fdec false 1 0)
            (Fdec false 0 0) "sand" ]
  ∧ kind_of <$>
      [ Waveform "ricker" (Fdec false 1 0) (Fdec false 1 9) "w1";
        Waveform "gaussian" (Fdec false 2 0) (Fdec false 1 9) "w2";
        Material (Fdec false 3 0) (Fdec false 1 (-2)) (Fdec false 1 0)
          (Fdec false 0 0) "sand" ]
    = expected_kinds
        (<["#material" := Some ["3 0.01 1 0 sand"]]>
           (only "#waveform" ["ricker 1 1e9 w1"; "gaussian 2 1e9 w2"]))
  ∧ (length (instances
               (<["#material" := Some ["3 0.01 1 0 sand"]]>
                  (only "#waveform" ["ricker 1 1e9 w1"; "gaussian 2 1e9 w2"]))
               "#pml_cfs") ≤ 2)%nat.
Proof.
  assert (H : process_multicmds
    (<["#material" := Some ["3 0.01 1 0 sand"]]>
       (only "#waveform" ["ricker 1 1e9 w1"; "gaussian 2 1e9 w2"]))
  = inr [ Waveform "ricker" (Fdec false 1 0) (Fdec false 1 9) "w1";
          Waveform "gaussian" (Fdec false 2 0) (Fdec false 1 9) "w2";
          Material (Fdec false 3 0) (Fdec false 1 (-2)) (Fdec false 1 0)
            (Fdec false 0 0) "sand" ])
    by (vm_compute; reflexivity).
  split; [exact H |]. exact (scene_kinds _ _ H).
Defined.
End MultiuseExtra.

Module MultiuseParts.
Import Py InputCmdsMultiuse MultiuseProps MultiuseExtra.

(** *** Slices and token positions *)

Lemma clamp_in_range {A} (l : list A) i :
  0 ≤ i ≤ len l → clamp l i = i.
Proof.
  intros Hi. unfold clamp.
  destruct (Z.ltb_spec i 0); [lia |].
  destruct (Z.ltb_spec i 0); [lia |].
  destruct (Z.ltb_spec (len l) i); lia.
Qed.

Lemma slice_suffix {A} (pre suf : list A) :
  slice (pre ++ suf) (len pre) (len (pre ++ suf)) = suf.
Proof.
  assert (Hlen : len (pre ++ suf) = len pre + len suf)
    by (unfold len; rewrite length_app; lia).
  assert (0 ≤ len pre ∧ 0 ≤ len suf) as [? ?] by (unfold len; lia).
  unfold slice. rewrite !clamp_in_range by lia.
  replace (Z.to_nat (len pre)) with (length pre) by (unfold len; lia).
  rewrite drop_app_length. apply take_ge. unfold len in *. lia.
Qed.

Lemma ftok_at (t : list string) (i : nat) x f s :
  t !! i = Some x → float_of_string x = Some f →
  ftok t (Z.of_nat i) s = inr (f, s).
Proof.
  intros Hx Hf. unfold ftok.
  erewrite bind_inr by (apply tok_in_range; [lia | by rewrite Nat2Z.id]).
  unfold float. by rewrite Hf.
Qed.

Lemma tok_at (t : list string) (i : nat) x s :
  t !! i = Some x → tok t (Z.of_nat i) s = inr (x, s).
Proof. intros Hx. apply tok_in_range; [lia | by rewrite Nat2Z.id]. Qed.

Lemma slice_from_4 {A} (a b c d : A) rest :
  slice (a :: b :: c :: d :: rest) 4 (len (a :: b :: c :: d :: rest)) = rest.
Proof. apply (slice_suffix [a; b; c; d] rest). Qed.

(** *** Receivers *)

(** X4. A receiver instance of three float tokens gives a receiver with
    that position and no id; with five or more tokens the fourth token is
    the id and every token from the fifth on, in order, is an output
    name. *)
Theorem rx_position_id_outputs cmdname x y z fx fy fz id o outs s :
  float_of_string x = Some fx →
  float_of_string y = Some fy →
  float_of_string z = Some fz →
  rx_body cmdname [x; y; z] s
    = inr ((), Locals (scene_objects s ++ [Rx (fx, fy, fz) None]) (tmp s))
  ∧ rx_body cmdname (x :: y :: z :: id :: o :: outs) s
    = inr ((), Locals (scene_objects s ++
                         [Rx (fx, fy, fz) (Some (id, o :: outs))]) (tmp s)).
Proof.
  intros Hx Hy Hz. split.
  - unfold rx_body. run. by rewrite Hx, Hy, Hz.
  - unfold rx_body. rewrite slice_from_4.
    assert (Hlen : 5 ≤ len (x :: y :: z :: id :: o :: outs))
      by (unfold len; simpl length; lia).
    destruct (Z.eqb_spec (len (x :: y :: z :: id :: o :: outs)) 3);
      [lia |].
    destruct (Z.ltb_spec (len (x :: y :: z :: id :: o :: outs)) 5);
      [lia |].
    run. by rewrite Hx, Hy, Hz.
Qed.

(** *** Pole-count partition of the dispersion directives *)

Lemma flat_pairs_app p q : flat_pairs (p ++ q) = flat_pairs p ++ flat_pairs q.
Proof.
  induction p as [|[a b] p IH]; [done |].
  change (a :: b :: flat_pairs (p ++ q) = a :: b :: flat_pairs p ++ flat_pairs q).
  by rewrite IH.
Qed.

Lemma length_flat_pairs p : length (flat_pairs p) = (2 * length p)%nat.
Proof.
  induction p as [|[a b] p IH]; [done |].
  change (length (a :: b :: flat_pairs p) = (2 * S (length p))%nat).
  simpl length. lia.
Qed.

Lemma flat_triples_app p q :
  flat_triples (p ++ q) = flat_triples p ++ flat_triples q.
Proof.
  induction p as [|[[a b] c] p IH]; [done |].
  change (a :: b :: c :: flat_triples (p ++ q)
          = a :: b :: c :: flat_triples p ++ flat_triples q).
  by rewrite IH.
Qed.

Lemma length_flat_triples p : length (flat_triples p) = (3 * length p)%nat.
Proof.
  induction p as [|[[a b] c] p IH]; [done |].
  change (length (a :: b :: c :: flat_triples p) = (3 * S (length p))%nat).
  simpl length. lia.
Qed.

Lemma lookup_after (t0 : string) (pre rest : list string) n i :
  length pre = n → (t0 :: pre ++ rest) !! S (n + i) = rest !! i.
Proof.
  intros <-. rewrite lookup_cons. simpl.
  rewrite lookup_app_r by lia. f_equal. lia.
Qed.

Lemma global_bound name :
  name ∈ module_globals → load_global name = mret ().
Proof. intros H. unfold load_global. by rewrite bool_decide_eq_true_2. Qed.

Ltac in_globals :=
  unfold module_globals;
  repeat first [ apply list_elem_of_here | apply list_elem_of_further ].

Lemma for_acc_cons {A B} (x : A) l (acc : B) (body : A → B → M B) :
  for_acc (x :: l) acc body = (acc' ← body x acc; for_acc l acc' body).
Proof. reflexivity. Qed.

Lemma range_from_S k start step :
  range_from (S k) start step = start :: range_from k (start + step) step.
Proof. reflexivity. Qed.

Lemma pair_loop_ok t0 ids s ps :
  ∀ fa fb pre a b,
    floats_of (ps.*1) fa → floats_of (ps.*2) fb →
    for_acc (range_from (length ps) (Z.of_nat (S (2 * length pre))) 2)
      (a, b) (pair_step (t0 :: flat_pairs pre ++ flat_pairs ps ++ ids)) s
    = inr ((a ++ fa, b ++ fb), s).
Proof.
  induction ps as [|[x y] ps IH]; intros fa fb pre a b Ha Hb.
  - apply Forall2_nil_inv_l in Ha as ->.
    apply Forall2_nil_inv_l in Hb as ->. by rewrite !app_nil_r.
  - apply Forall2_cons_inv_l in Ha as (f1 & fa' & Hf1 & Ha & ->).
    apply Forall2_cons_inv_l in Hb as (f2 & fb' & Hf2 & Hb & ->).
    change (length ((x, y) :: ps)) with (S (length ps)).
    rewrite range_from_S, for_acc_cons.
    erewrite bind_inr; cycle 1.
    { unfold pair_step.
      erewrite bind_inr; cycle 1.
      { apply (ftok_at _ _ x f1); [| done].
        replace (S (2 * length pre)) with (S (2 * length pre + 0)) by lia.
        by rewrite (lookup_after _ _ _ _ _ (length_flat_pairs pre)). }
      erewrite bind_inr; cycle 1.
      { replace (Z.of_nat (S (2 * length pre)) + 1)
          with (Z.of_nat (S (2 * length pre + 1))) by lia.
        apply (ftok_at _ _ y f2); [| done].
        by rewrite (lookup_after _ _ _ _ _ (length_flat_pairs pre)). }
      reflexivity. }
    specialize (IH fa' fb' (pre ++ [(x, y)]) (a ++ [f1]) (b ++ [f2]) Ha Hb).
    rewrite flat_pairs_app, <- app_assoc, length_app in IH.
    simpl length in IH.
    replace (Z.of_nat (S (2 * (length pre + 1))))
      with (Z.of_nat (S (2 * length pre)) + 2) in IH by lia.
    rewrite <- !app_assoc in IH. exact IH.
Qed.

Lemma triple_loop_ok t0 ids s ps :
  ∀ fa fb fc pre a b c,
    floats_of (ps.*1.*1) fa → floats_of (ps.*1.*2) fb →
    floats_of (ps.*2) fc →
    for_acc (range_from (length ps) (Z.of_nat (S (3 * length pre))) 3)
      (a, b, c)
      (triple_step (t0 :: flat_triples pre ++ flat_triples ps ++ ids)) s
    = inr ((a ++ fa, b ++ fb, c ++ fc), s).
Proof.
  induction ps as [|[[x y] z] ps IH]; intros fa fb fc pre a b c Ha Hb Hc.
  - apply Forall2_nil_inv_l in Ha as ->.
    apply Forall2_nil_inv_l in Hb as ->.
    apply Forall2_nil_inv_l in Hc as ->. by rewrite !app_nil_r.
  - apply Forall2_cons_inv_l in Ha as (f1 & fa' & Hf1 & Ha & ->).
    apply Forall2_cons_inv_l in Hb as (f2 & fb' & Hf2 & Hb & ->).
    apply Forall2_cons_inv_l in Hc as (f3 & fc' & Hf3 & Hc & ->).
    change (length ((x, y, z) :: ps)) with (S (length ps)).
    rewrite range_from_S, for_acc_cons.
    erewrite bind_inr; cycle 1.
    { unfold triple_step.
      erewrite bind_inr; cycle 1.
      { apply (ftok_at _ _ x f1); [| done].
        replace (S (3 * length pre)) with (S (3 * length pre + 0)) by lia.
        by rewrite (lookup_after _ _ _ _ _ (length_flat_triples pre)). }
      erewrite bind_inr; cycle 1.
      { replace (Z.of_nat (S (3 * length pre)) + 1)
          with (Z.of_nat (S (3 * length pre + 1))) by lia.
        apply (ftok_at _ _ y f2); [| done].
        by rewrite (lookup_after _ _ _ _ _ (length_flat_triples pre)). }
      erewrite bind_inr; cycle 1.
      { replace (Z.of_nat (S (3 * length pre)) + 2)
          with (Z.of_nat (S (3 * length pre + 2))) by lia.
        apply (ftok_at _ _ z f3); [| done].
        by rewrite (lookup_after _ _ _ _ _ (length_flat_triples pre)). }
      reflexivity. }
    specialize (IH fa' fb' fc' (pre ++ [(x, y, z)])
                  (a ++ [f1]) (b ++ [f2]) (c ++ [f3]) Ha Hb Hc).
    rewrite flat_triples_app, <- app_assoc, length_app in IH.
    simpl length in IH.
    replace (Z.of_nat (S (3 * (length pre + 1))))
      with (Z.of_nat (S (3 * length pre)) + 3) in IH by lia.
    rewrite <- !app_assoc in IH. exact IH.
Qed.

Lemma range_pairs P :
  range 1 (2 * Z.of_nat P) 2 = range_from P 1 2.
Proof.
  unfold range.
  replace ((2 * Z.of_nat P - 1 + 2 - 1) / 2) with (Z.of_nat P)
    by (apply (Z.div_unique _ _ _ 0); lia).
  by rewrite Nat2Z.id.
Qed.

Lemma range_triples P :
  range 1 (3 * Z.of_nat P) 3 = range_from P 1 3.
Proof.
  unfold range. destruct P as [|P]; [done |].
  replace ((3 * Z.of_nat (S P) - 1 + 3 - 1) / 3) with (Z.of_nat (S P))
    by (apply (Z.div_unique _ _ _ 1); lia).
  by rewrite Nat2Z.id.
Qed.

(** X5. A Debye instance made of a pole count [P], then [P] pairs of
    float tokens, then any tokens, at least four tokens in all: the object
    built has the pole count, the first members of the pairs as
    [er_delta], the second members as [tau], both in order, and every
    token after the pairs as the material ids. *)
Theorem debye_partition cmdname t0 ps ids er_delta tau s :
  int_of_string t0 = Some (Z.of_nat (length ps)) →
  floats_of (ps.*1) er_delta →
  floats_of (ps.*2) tau →
  4 ≤ len (t0 :: flat_pairs ps ++ ids) →
  add_dispersion_debye_body cmdname (t0 :: flat_pairs ps ++ ids) s
  = inr ((), Locals
      (scene_objects s ++
         [AddDebyeDispersion (Z.of_nat (length ps)) er_delta tau ids])
      (tmp s)).
Proof.
  intros HP Ha Hb Hlen. unfold add_dispersion_debye_body.
  erewrite bind_inr by (by apply arity_check_passes).
  erewrite bind_inr by (by eapply poles_read). cbv beta zeta.
  change (λ (pole : Z) '(er_delta, tau),
            x ← ftok (t0 :: flat_pairs ps ++ ids) pole;
            y ← ftok (t0 :: flat_pairs ps ++ ids) (pole + 1);
            mret (er_delta ++ [x], tau ++ [y]))
    with (pair_step (t0 :: flat_pairs ps ++ ids)).
  rewrite range_pairs.
  erewrite bind_inr by apply (pair_loop_ok t0 ids s ps _ _ [] [] [] Ha Hb).
  cbv beta iota.
  replace (2 * Z.of_nat (length ps) + 1) with (len (t0 :: flat_pairs ps))
    by (unfold len; simpl length; rewrite length_flat_pairs; lia).
  change (t0 :: flat_pairs ps ++ ids) with ((t0 :: flat_pairs ps) ++ ids).
  rewrite slice_suffix.
  unfold call. rewrite global_bound by in_globals. reflexivity.
Qed.

(** X6. A Lorentz instance made of a pole count [P], then [P] triples of
    float tokens, then any tokens, at least five tokens in all: the
    object built has the pole count, the first, second and third members
    of the triples as [er_delta], [tau] and [alpha], in order, and every
    token after the triples as the material ids. *)
Theorem lorentz_partition cmdname t0 ps ids er_delta tau alpha s :
  int_of_string t0 = Some (Z.of_nat (length ps)) →
  floats_of (ps.*1.*1) er_delta →
  floats_of (ps.*1.*2) tau →
  floats_of (ps.*2) alpha →
  5 ≤ len (t0 :: flat_triples ps ++ ids) →
  add_dispersion_lorentz_body cmdname (t0 :: flat_triples ps ++ ids) s
  = inr ((), Locals
      (scene_objects s ++
         [AddLorentzDispersion (Z.of_nat (length ps)) ids
            er_delta tau alpha])
      (tmp s)).
Proof.
  intros HP Ha Hb Hc Hlen. unfold add_dispersion_lorentz_body.
  erewrite bind_inr by (by apply arity_check_passes).
  erewrite bind_inr by (by eapply poles_read). cbv beta zeta.
  change (λ (pole : Z) '(er_delta, tau, alpha),
            x ← ftok (t0 :: flat_triples ps ++ ids) pole;
            y ← ftok (t0 :: flat_triples ps ++ ids) (pole + 1);
            z ← ftok (t0 :: flat_triples ps ++ ids) (pole + 2);
            mret (er_delta ++ [x], tau ++ [y], alpha ++ [z]))
    with (triple_step (t0 :: flat_triples ps ++ ids)).
  rewrite range_triples.
  erewrite bind_inr
    by apply (triple_loop_ok t0 ids s ps _ _ _ [] [] [] [] Ha Hb Hc).
  cbv beta iota.
  replace (3 * Z.of_nat (length ps) + 1) with (len (t0 :: flat_triples ps))
    by (unfold len; simpl length; rewrite length_flat_triples; lia).
  change (t0 :: flat_triples ps ++ ids) with ((t0 :: flat_triples ps) ++ ids).
  rewrite slice_suffix.
  unfold call. rewrite global_bound by in_globals. reflexivity.
Qed.

(** A Debye instance of two poles, and a Lorentz instance of one pole. *)
Lemma debye_partition_witness :
  int_of_string "2" = Some (Z.of_nat (length [("0.1", "1e-9"); ("0.2", "2e-9")]))
  ∧ floats_of ([("0.1", "1e-9"); ("0.2", "2e-9")].*1)
      [Fdec false 1 (-1); Fdec false 2 (-1)]
  ∧ floats_of ([("0.1", "1e-9"); ("0.2", "2e-9")].*2)
      [Fdec false 1 (-9); Fdec false 2 (-9)]
  ∧ 4 ≤ len ("2" :: flat_pairs [("0.1", "1e-9"); ("0.2", "2e-9")]
                  ++ ["mat1"; "mat2"])
  ∧ add_dispersion_debye_body "#add_dispersion_debye"
      ("2" :: flat_pairs [("0.1", "1e-9"); ("0.2", "2e-9")]
           ++ ["mat1"; "mat2"]) (Locals [] None)
    = inr ((), Locals
        ([] ++ [AddDebyeDispersion
                  (Z.of_nat (length [("0.1", "1e-9"); ("0.2", "2e-9")]))
                  [Fdec false 1 (-1); Fdec false 2 (-1)]
                  [Fdec false 1 (-9); Fdec false 2 (-9)]
                  ["mat1"; "mat2"]]) None).
Proof.
  assert (H1 : floats_of ([("0.1", "1e-9"); ("0.2", "2e-9")].*1)
                 [Fdec false 1 (-1); Fdec false 2 (-1)])
    by (repeat constructor).
  assert (H2 : floats_of ([("0.1", "1e-9"); ("0.2", "2e-9")].*2)
                 [Fdec false 1 (-9); Fdec false 2 (-9)])
    by (repeat constructor).
  assert (H3 : 4 ≤ len ("2" :: flat_pairs [("0.1", "1e-9"); ("0.2", "2e-9")]
                            ++ ["mat1"; "mat2"]))
    by (vm_compute; discriminate).
  split; [reflexivity |]. split; [exact H1 |]. split; [exact H2 |].
  split; [exact H3 |].
  exact (debye_partition "#add_dispersion_debye" "2"
           [("0.1", "1e-9"); ("0.2", "2e-9")] ["mat1"; "mat2"]
           _ _ (Locals [] None) eq_refl H1 H2 H3).
Defined.

Lemma lorentz_partition_witness :
  int_of_string "1" = Some (Z.of_nat (length [("0.5", "1e-9", "2e9")]))
  ∧ floats_of ([("0.5", "1e-9", "2e9")].*1.*1) [Fdec false 5 (-1)]
  ∧ floats_of ([("0.5", "1e-9", "2e9")].*1.*2) [Fdec false 1 (-9)]
  ∧ floats_of ([("0.5", "1e-9", "2e9")].*2) [Fdec false 2 9]
  ∧ 5 ≤ len ("1" :: flat_triples [("0.5", "1e-9", "2e9")] ++ ["mat1"])
  ∧ add_dispersion_lorentz_body "#add_dispersion_lorentz"
      ("1" :: flat_triples [("0.5", "1e-9", "2e9")] ++ ["mat1"])
      (Locals [] None)
    = inr ((), Locals
        ([] ++ [AddLorentzDispersion
                  (Z.of_nat (length [("0.5", "1e-9", "2e9")])) ["mat1"]
                  [Fdec false 5 (-1)] [Fdec false 1 (-9)] [Fdec false 2 9]])
        None).
Proof.
  assert (H1 : floats_of ([("0.5", "1e-9", "2e9")].*1.*1) [Fdec false 5 (-1)])
    by (repeat constructor).
  assert (H2 : floats_of ([("0.5", "1e-9", "2e9")].*1.*2) [Fdec false 1 (-9)])
    by (repeat constructor).
  assert (H3 : floats_of ([("0.5", "1e-9", "2e9")].*2) [Fdec false 2 9])
    by (repeat constructor).
  assert (H4 : 5 ≤ len ("1" :: flat_triples [("0.5", "1e-9", "2e9")]
                            ++ ["mat1"]))
    by (vm_compute; discriminate).
  split; [reflexivity |]. split; [exact H1 |]. split; [exact H2 |].
  split; [exact H3 |]. split; [exact H4 |].
  exact (lorentz_partition "#add_dispersion_lorentz" "1"
           [("0.5", "1e-9", "2e9")] ["mat1"]
           _ _ _ (Locals [] None) eq_refl H1 H2 H3 H4).
Defined.

(** A receiver with an id and two outputs. *)
Lemma rx_position_id_outputs_witness :
  float_of_string "1" = Some (Fdec false 1 0)
  ∧ float_of_string "2" = Some (Fdec false 2 0)
  ∧ float_of_string "3" = Some (Fdec false 3 0)
  ∧ rx_body "#rx" ["1"; "2"; "3"] (Locals [] None)
    = inr ((), Locals
        ([] ++ [Rx (Fdec false 1 0, Fdec false 2 0, Fdec false 3 0) None])
        None)
  ∧ rx_body "#rx" ["1"; "2"; "3"; "r1"; "Ex"; "Hz"] (Locals [] None)
    = inr ((), Locals
        ([] ++ [Rx (Fdec false 1 0, Fdec false 2 0, Fdec false 3 0)
                  (Some ("r1", ["Ex"; "Hz"]))]) None).
Proof.
  split; [reflexivity |]. split; [reflexivity |]. split; [reflexivity |].
  exact (rx_position_id_outputs "#rx" "1" "2" "3" _ _ _ "r1" "Ex" ["Hz"]
           (Locals [] None) eq_refl eq_refl eq_refl).
Defined.

End MultiuseParts.

(** ** Which exceptions the groups raise *)

Module MultiuseErrors.
Import Py InputCmdsMultiuse MultiuseProps MultiuseExtra MultiuseParts.

Section RaisesOnly.
Context (E : exn → Prop).

Lemma ro_ret {A} (x : A) : raises_only E (mret x).
Proof. by intros s e. Qed.

Lemma ro_raise {A} e : E e → raises_only E (raise e : M A).
Proof. by intros He s e' [= <-]. Qed.

Lemma ro_append d : raises_only E (append d).
Proof. by intros s e. Qed.

Lemma ro_bind {A B} (m : M A) (f : A → M B) :
  raises_only E m → (∀ x, raises_only E (f x)) → raises_only E (m ≫= f).
Proof.
  intros Hm Hf s e. unfold mbind, M_bind.
  destruct (m s) as [e' | [x s']] eqn:Hms.
  - intros [= <-]. by eapply Hm.
  - apply Hf.
Qed.

Lemma ro_tok t i : 0 ≤ i < len t → raises_only E (tok t i).
Proof.
  intros Hi s e. unfold len in Hi.
  destruct (lookup_lt_is_Some_2 t (Z.to_nat i)) as [x Hx]; [lia |].
  by rewrite (tok_in_range t i x s) by (lia || done).
Qed.

Lemma ro_tok_any t i : E IndexError → raises_only E (tok t i).
Proof.
  intros HE s e.
  destruct (tok_cases t i s) as [[x ->] | ->]; [done | by intros [= <-]].
Qed.

Lemma ro_float x : E ValueError → raises_only E (float x).
Proof.
  intros HE s e. unfold float.
  destruct (float_of_string x); [done | by intros [= <-]].
Qed.

Lemma ro_int x : E ValueError → raises_only E (int x).
Proof.
  intros HE s e. unfold int.
  destruct (int_of_string x); [done | by intros [= <-]].
Qed.

Lemma ro_ftok t i :
  0 ≤ i < len t → E ValueError → raises_only E (ftok t i).
Proof.
  intros Hi HE. apply ro_bind; [by apply ro_tok | intros x; by apply ro_float].
Qed.

Lemma ro_ftok_any t i :
  E IndexError → E ValueError → raises_only E (ftok t i).
Proof.
  intros Hi HE.
  apply ro_bind; [by apply ro_tok_any | intros x; by apply ro_float].
Qed.

Lemma ro_fpoint t i j k :
  0 ≤ i < len t → 0 ≤ j < len t → 0 ≤ k < len t → E ValueError →
  raises_only E (fpoint t i j k).
Proof.
  intros Hi Hj Hk HE. unfold fpoint.
  repeat (apply ro_bind; [by apply ro_ftok | intros ?]). apply ro_ret.
Qed.

Lemma ro_call {A} name (args : M A) :
  name ∈ module_globals → raises_only E args → raises_only E (call name args).
Proof.
  intros Hin Hargs. unfold call. rewrite global_bound by done.
  apply ro_bind; [apply ro_ret | done].
Qed.

Lemma ro_call_unbound {A} name (args : M A) :
  E (NameError name) → raises_only E args → raises_only E (call name args).
Proof.
  intros HE Hargs. unfold call, load_global. case_bool_decide.
  - apply ro_bind; [apply ro_ret | done].
  - apply ro_bind; [by apply ro_raise | done].
Qed.

(** The handler runs only after a [ValueError] of the body. *)
Lemma ro_try {A} (body handler : M A) :
  raises_only (λ e, e = ValueError ∨ E e) body → raises_only E handler →
  raises_only E (try_except_ValueError body handler).
Proof.
  intros Hb Hh s e. unfold try_except_ValueError.
  destruct (body s) as [e' | r] eqn:Hbs; [| done].
  destruct (Hb s e' Hbs) as [-> | He'].
  - apply Hh.
  - destruct e'; try (by intros [= <-]). apply Hh.
Qed.

Lemma ro_for_acc {A B} (l : list A) (acc : B) (body : A → B → M B) :
  (∀ x a, raises_only E (body x a)) → raises_only E (for_acc l acc body).
Proof.
  intros Hbody. revert acc. induction l as [| x l IH]; intros acc; simpl.
  - apply ro_ret.
  - apply ro_bind; [apply Hbody | intros a; apply IH].
Qed.

End RaisesOnly.

Lemma ro_weaken {A} (E F : exn → Prop) (c : M A) :
  (∀ e, E e → F e) → raises_only E c → raises_only F c.
Proof. intros HEF Hc s e He. eapply HEF, Hc, He. Qed.

Ltac ro_side :=
  solve [ reflexivity
        | split;
          [ first [ reflexivity
                  | unfold dispersion_names;
                    repeat first [ apply list_elem_of_here
                                 | apply list_elem_of_further ] ]
          | reflexivity ]
        | left; ro_side
        | right; ro_side ].

Ltac ro_step :=
  first
    [ apply ro_ret
    | apply ro_append
    | apply ro_raise; first [ro_side | exfalso; lia]
    | apply ro_fpoint; [lia | lia | lia | ro_side]
    | apply ro_ftok; [lia | ro_side]
    | apply ro_ftok_any; [ro_side | ro_side]
    | apply ro_tok; lia
    | apply ro_tok_any; ro_side
    | apply ro_float; ro_side
    | apply ro_int; ro_side
    | apply ro_call; [solve [in_globals] |]
    | apply ro_call_unbound; [ro_side |]
    | apply ro_try
    | apply ro_for_acc; intros ? ?
    | apply ro_bind; [| intros ?]
    | match goal with
      | |- raises_only _ (let '(_, _) := ?x in _) => destruct x
      | |- raises_only _ (match ?x with (_, _) => _ end) => destruct x
      end ].

Ltac len_tests :=
  repeat match goal with
         | |- context [len ?t =? ?n] => destruct (Z.eqb_spec (len t) n)
         | |- context [len ?t <? ?n] => destruct (Z.ltb_spec (len t) n)
         | H : context [len ?t =? ?n] |- _ => destruct (Z.eqb_spec (len t) n)
         | H : context [?n <=? len ?t] |- _ =>
             destruct (Z.leb_spec n (len t))
         end.

(** With an accepted token count, what a body can still raise. *)
Lemma body_raises_only k ok body tmp :
  (k, ok, body) ∈ directive_table →
  ok (len tmp) = true →
  raises_only
    (λ e, e = ValueError
          ∨ (k = "#rx_array" ∧ e = NameError "RxArray")
          ∨ (k ∈ dispersion_names ∧ e = IndexError))
    (body k tmp).
Proof.
  intros Hin Hok. unfold directive_table in Hin.
  repeat (apply elem_of_cons in Hin as [[= -> -> ->] | Hin]);
    [.. | by apply elem_of_nil in Hin].
  all: match goal with |- raises_only _ (?b _ _) => unfold b end.
  all: cbv beta in Hok; len_tests; cbn [negb andb orb] in *;
    try discriminate Hok; try lia.
  all: cbv zeta; repeat ro_step.
Qed.

(** The two groups that convert no token never raise on an accepted
    count. *)
Lemma body_never_raises k ok body tmp :
  (k, ok, body) ∈ directive_table →
  k = "#geometry_objects_write" ∨ k = "#pml_cfs" →
  ok (len tmp) = true →
  raises_only (λ _, False) (body k tmp).
Proof.
  intros Hin Hk Hok. unfold directive_table in Hin.
  repeat (apply elem_of_cons in Hin as [[= -> -> ->] | Hin]);
    [.. | by apply elem_of_nil in Hin].
  all: destruct Hk as [Hk | Hk]; try discriminate Hk.
  all: match goal with |- raises_only _ (?b _ _) => unfold b end.
  all: cbv beta in Hok; len_tests; cbn [negb andb orb] in *;
    try discriminate Hok; try lia.
  all: cbv zeta; repeat ro_step.
Qed.

(** X17. With a token count its group accepts, the body of a loop never
    raises [CmdInputError]: a failure is a [ValueError] from a number
    conversion, or, for [#rx_array] only, the [NameError] of the unbound
    [RxArray], or, for the three dispersion directives only, an
    [IndexError] from reading past the tokens.  The bodies for
    [#geometry_objects_write] and [#pml_cfs] never fail. *)
Theorem accepted_arity_errors k ok body tmp s e :
  (k, ok, body) ∈ directive_table →
  ok (len tmp) = true →
  body k tmp s = inl e →
  (e = ValueError
   ∨ (k = "#rx_array" ∧ e = NameError "RxArray")
   ∨ (k ∈ dispersion_names ∧ e = IndexError))
  ∧ k ≠ "#geometry_objects_write" ∧ k ≠ "#pml_cfs".
Proof.
  intros Hin Hok He. split.
  - exact (body_raises_only k ok body tmp Hin Hok s e He).
  - split; intros ->.
    + by apply (body_never_raises _ ok body tmp Hin (or_introl eq_refl)
                  Hok s e).
    + by apply (body_never_raises _ ok body tmp Hin (or_intror eq_refl)
                  Hok s e).
Qed.

(** A waveform instance of four tokens whose amplitude is not a number. *)
Lemma accepted_arity_errors_witness :
  (ValueError = ValueError
   ∨ ("#waveform" = "#rx_array" ∧ ValueError = NameError "RxArray")
   ∨ ("#waveform" ∈ dispersion_names ∧ ValueError = IndexError))
  ∧ "#waveform" ≠ "#geometry_objects_write" ∧ "#waveform" ≠ "#pml_cfs".
Proof.
  exact (accepted_arity_errors "#waveform" (λ n, n =? 4) waveform_body
           ["ricker"; "one"; "1e9"; "w1"] (Locals [] None) ValueError
           waveform_in_table eq_refl eq_refl).
Defined.

(** *** From the bodies to the whole function *)

Lemma bind_inl_inv {A B} (m : M A) (f : A → M B) s e :
  (m ≫= f) s = inl e →
  m s = inl e ∨ ∃ x s1, m s = inr (x, s1) ∧ f x s1 = inl e.
Proof.
  unfold mbind, M_bind. destruct (m s) as [e' | [x s1]].
  - intros [= <-]. by left.
  - intros H. right. by exists x, s1.
Qed.

(** A loop that raises does so in the body of one of its instances. *)
Lemma for_each_inl_inv (body : list string → M unit) insts s e :
  for_each insts (λ i, t ← split_to_tmp i; body t) s = inl e →
  ∃ inst s1, inst ∈ insts ∧ body (split inst) s1 = inl e.
Proof.
  unfold for_each. revert s. induction insts as [| i insts IH]; intros s H.
  - discriminate H.
  - rewrite for_acc_cons in H.
    apply bind_inl_inv in H as [H | ([] & s1 & _ & H)].
    + apply bind_inl_inv in H as [H | (t & s1 & Ht & H)]; [discriminate H |].
      injection Ht as <- <-.
      eexists i, _. split; [apply list_elem_of_here | exact H].
    + apply IH in H as (inst & s2 & Hin & H).
      exists inst, s2. split; [by apply list_elem_of_further | done].
Qed.

Lemma block_CmdInputError (m : table) k ok body s msg :
  (k, ok, body) ∈ directive_table →
  block m k body s = inl (CmdInputError msg) →
  ∃ insts inst,
    m !! k = Some (Some insts) ∧ inst ∈ insts
    ∧ ok (len (split inst)) = false.
Proof.
  intros Hin H. unfold block, for_instances, lookup_cmd in H.
  destruct (m !! k) as [[insts |] |] eqn:Hm; [| discriminate H ..].
  apply bind_inl_inv in H as [H | (v & s1 & Hv & H)]; [discriminate H |].
  injection Hv as <- <-.
  apply for_each_inl_inv in H as (inst & s2 & Hinst & H).
  exists insts, inst. split; [done |]. split; [done |].
  destruct (ok (len (split inst))) eqn:Hok; [| done].
  destruct (body_raises_only k ok body _ Hin Hok s2 _ H)
    as [? | [[_ ?] | [_ ?]]]; discriminate.
Qed.

Lemma pml_cfs_block_CmdInputError (m : table) s msg :
  pml_cfs_block m "#pml_cfs" s = inl (CmdInputError msg) →
  (∃ insts inst,
     m !! "#pml_cfs" = Some (Some insts) ∧ inst ∈ insts
     ∧ (len (split inst) =? 12) = false)
  ∨ 2 < len (instances m "#pml_cfs").
Proof.
  intros H. unfold pml_cfs_block, lookup_cmd, instances in *.
  destruct (m !! "#pml_cfs") as [[insts |] |] eqn:Hm; [| discriminate H ..].
  apply bind_inl_inv in H as [H | (v & s1 & Hv & H)]; [discriminate H |].
  injection Hv as <- <-.
  apply bind_inl_inv in H as [H | ([] & s1 & Hcheck & H)].
  - destruct (Z.ltb_spec 2 (len insts)); [by right | discriminate H].
  - left. apply for_each_inl_inv in H as (inst & s2 & Hinst & H).
    exists insts, inst. split; [done |]. split; [done |].
    destruct (len (split inst) =? 12) eqn:Hok; [| done].
    assert (Hin : ("#pml_cfs", (λ n, n =? 12), pml_cfs_body)
                  ∈ directive_table) by in_table.
    destruct (body_raises_only _ _ _ _ Hin Hok s2 _ H)
      as [? | [[_ ?] | [_ ?]]]; discriminate.
Qed.

(** X18. [process_multicmds] raises [CmdInputError] only when some
    instance in the table has a token count its group does not accept,
    or the table holds more than two [#pml_cfs] instances: no value of a
    token is ever a reason for this error. *)
Theorem CmdInputError_only_for_counts (m : table) msg :
  process_multicmds m = inl (CmdInputError msg) →
  (∃ k ok body insts inst,
     (k, ok, body) ∈ directive_table
     ∧ m !! k = Some (Some insts) ∧ inst ∈ insts
     ∧ ok (len (split inst)) = false)
  ∨ 2 < len (instances m "#pml_cfs").
Proof.
  unfold process_multicmds.
  destruct (blocks m (Locals [] None)) as [e | [[] s']] eqn:H; [| done].
  intros [= ->]. unfold blocks in H.
  do 15 (apply bind_inl_inv in H as [H | ([] & ? & _ & H)];
         [ left;
           match type of H with
           | block _ ?k ?b _ = _ =>
               eapply (block_CmdInputError m k _ b) in H
                 as (insts & inst & Hm & Hinst & Hok); [| in_table];
               eexists k, _, b, insts, inst;
               split; [in_table | by rewrite Hm]
           end |]).
  apply pml_cfs_block_CmdInputError in H
    as [(insts & inst & ? & ? & ?) | ?]; [left | by right].
  eexists "#pml_cfs", (λ n, n =? 12), pml_cfs_body, insts, inst.
  split; [in_table | done].
Qed.

(** A table whose only waveform has three tokens. *)
Lemma CmdInputError_only_for_counts_witness :
  (∃ k ok body insts inst,
     (k, ok, body) ∈ directive_table
     ∧ only "#waveform" ["ricker 1 1e9"] !! k = Some (Some insts)
     ∧ inst ∈ insts
     ∧ ok (len (split inst)) = false)
  ∨ 2 < len (instances (only "#waveform" ["ricker 1 1e9"]) "#pml_cfs").
Proof.
  apply (CmdInputError_only_for_counts (only "#waveform" ["ricker 1 1e9"])
           (message "#waveform" ["ricker"; "1"; "1e9"]
              " requires exactly four parameters")).
  vm_compute. reflexivity.
Defined.

(** *** The groups do not depend on one another *)

(** The scene of a table that uses one directive is what the group of
    that directive builds from an empty scene. *)
Lemma process_only k ok body insts :
  (k, ok, body) ∈ directive_table → k ≠ "#pml_cfs" →
  process_multicmds (only k insts) =
    match block (only k insts) k body (Locals [] None) with
    | inl e => inl e
    | inr (_, s) => inr (scene_objects s)
    end.
Proof.
  intros Hin Hk. unfold directive_table in Hin.
  repeat (apply elem_of_cons in Hin as [[= -> -> ->] | Hin]);
    [.. | by apply elem_of_nil in Hin]; try done.
  all: only_group.
Qed.

Lemma process_only_pml_cfs insts :
  process_multicmds (only "#pml_cfs" insts) =
    match pml_cfs_block (only "#pml_cfs" insts) "#pml_cfs" (Locals [] None)
    with
    | inl e => inl e
    | inr (_, s) => inr (scene_objects s)
    end.
Proof. unfold process_multicmds, blocks, only. skip_unused. reflexivity. Qed.

(** A loop that returns appends the same objects from any state. *)
Lemma for_each_replay P (body : list string → M unit) insts :
  (∀ t, emits_with P (body t)) →
  ∀ s s',
    for_each insts (λ i, t ← split_to_tmp i; body t) s = inr ((), s') →
    ∃ ds, scene_objects s' = scene_objects s ++ ds
          ∧ ∀ s0, ∃ s0',
              for_each insts (λ i, t ← split_to_tmp i; body t) s0
              = inr ((), s0')
              ∧ scene_objects s0' = scene_objects s0 ++ ds.
Proof.
  intros Hbody. unfold for_each.
  induction insts as [| i insts IH]; intros s s' H.
  - injection H as <-. exists []. split; [by rewrite app_nil_r |].
    intros s0. exists s0. by rewrite app_nil_r.
  - rewrite for_acc_cons in H.
    apply bind_inr_inv in H as ([] & s1 & Hi & Hrest).
    erewrite bind_inr in Hi by reflexivity.
    destruct (Hbody (split i)) as (r & Hr & _). rewrite Hr in Hi.
    destruct r as [e | d]; [done |]. injection Hi as <-.
    apply IH in Hrest as (ds & Hso & Hany). simpl in Hso.
    exists (d :: ds). split; [by rewrite Hso, <- app_assoc |].
    intros s0. rewrite for_acc_cons.
    erewrite bind_inr
      by (erewrite bind_inr by reflexivity; by rewrite Hr).
    destruct (Hany (Locals (scene_objects s0 ++ [d]) (Some (split i))))
      as (s0' & Hrun & Hso').
    exists s0'. split; [exact Hrun |].
    rewrite Hso'. simpl. by rewrite <- app_assoc.
Qed.

Lemma only_lookup k insts : only k insts !! k = Some (Some insts).
Proof. unfold only. apply lookup_insert_eq. Qed.

Lemma block_replay (m : table) k ok body s s' :
  (k, ok, body) ∈ directive_table →
  k ≠ "#pml_cfs" → k ≠ "#geometry_objects_write" →
  block m k body s = inr ((), s') →
  ∃ ds, scene_objects s' = scene_objects s ++ ds
        ∧ process_multicmds (only k (instances m k)) = inr ds.
Proof.
  intros Hin Hp Hg H.
  rewrite (process_only k ok body) by done.
  unfold block, for_instances in *.
  apply bind_inr_inv in H as (v & s1 & Hv & H).
  apply lookup_cmd_inv in Hv as [Hm ->]. unfold instances. rewrite Hm.
  unfold lookup_cmd. rewrite only_lookup.
  destruct v as [insts |].
  - apply (for_each_replay (λ d, kind_of d = k) (body k) insts) in H
      as (ds & Hso & Hany); [| intros t; by eapply body_emits].
    exists ds. split; [done |].
    destruct (Hany (Locals [] None)) as (s0' & Hrun & Hso').
    erewrite bind_inr by reflexivity. cbv iota.
    by rewrite Hrun, Hso'.
  - injection H as <-. exists []. by rewrite app_nil_r.
Qed.

Lemma for_each_stateless_replay (body : list string → M unit) insts :
  (∀ t, stateless (body t)) →
  ∀ s s',
    for_each insts (λ i, t ← split_to_tmp i; body t) s = inr ((), s') →
    ∀ s0, ∃ s0',
      for_each insts (λ i, t ← split_to_tmp i; body t) s0 = inr ((), s0')
      ∧ scene_objects s0' = scene_objects s0.
Proof.
  intros Hbody. unfold for_each.
  induction insts as [| i insts IH]; intros s s' H s0.
  - by exists s0.
  - rewrite for_acc_cons in H.
    apply bind_inr_inv in H as ([] & s1 & Hi & Hrest).
    erewrite bind_inr in Hi by reflexivity.
    destruct (Hbody (split i)) as (r & Hr & _). rewrite Hr in Hi.
    destruct r as [e | []]; [done |]. injection Hi as <-.
    rewrite for_acc_cons.
    erewrite bind_inr
      by (erewrite bind_inr by reflexivity; by rewrite Hr).
    destruct (IH _ _ Hrest (Locals (scene_objects s0) (Some (split i))))
      as (s0' & Hrun & Hso').
    by exists s0'.
Qed.

Lemma geometry_objects_write_replay (m : table) s s' :
  block m "#geometry_objects_write" geometry_objects_write_body s
  = inr ((), s') →
  scene_objects s' = scene_objects s
  ∧ process_multicmds
      (only "#geometry_objects_write"
         (instances m "#geometry_objects_write")) = inr [].
Proof.
  intros H.
  split.
  { apply block_stateless in H; [done |].
    intros; apply geometry_objects_write_body_stateless. }
  rewrite (process_only _ (λ n, n =? 7) geometry_objects_write_body)
    by (in_table || done).
  unfold block, for_instances in *.
  apply bind_inr_inv in H as (v & s1 & Hv & H).
  apply lookup_cmd_inv in Hv as [Hm ->]. unfold instances. rewrite Hm.
  unfold lookup_cmd. rewrite only_lookup.
  erewrite bind_inr by reflexivity. cbv iota.
  destruct v as [insts |]; [| reflexivity].
  destruct (for_each_stateless_replay
              (geometry_objects_write_body "#geometry_objects_write") insts
              (λ t, geometry_objects_write_body_stateless _ t)
              _ _ H (Locals [] None)) as (s0' & Hrun & Hso').
  by rewrite Hrun, Hso'.
Qed.

Lemma pml_cfs_replay (m : table) s s' :
  pml_cfs_block m "#pml_cfs" s = inr ((), s') →
  ∃ ds, scene_objects s' = scene_objects s ++ ds
        ∧ process_multicmds (only "#pml_cfs" (instances m "#pml_cfs"))
          = inr ds.
Proof.
  intros H. rewrite process_only_pml_cfs.
  unfold pml_cfs_block in *.
  apply bind_inr_inv in H as (v & s1 & Hv & H).
  apply lookup_cmd_inv in Hv as [Hm ->]. unfold instances. rewrite Hm.
  unfold lookup_cmd. rewrite only_lookup.
  erewrite bind_inr by reflexivity. cbv iota.
  destruct v as [insts |].
  - apply bind_inr_inv in H as ([] & s1 & Hcheck & H).
    destruct (Z.ltb_spec 2 (len insts)) as [Hlt | Hle].
    { apply bind_inr_inv in Hcheck as (t & s2 & _ & Hraise). done. }
    injection Hcheck as <-.
    apply (for_each_replay (λ d, kind_of d = "#pml_cfs")
             (pml_cfs_body "#pml_cfs") insts) in H
      as (ds & Hso & Hany).
    2:{ intros t. eapply (body_emits "#pml_cfs" _ pml_cfs_body);
          [in_table | done]. }
    exists ds. split; [done |].
    destruct (Hany (Locals [] None)) as (s0' & Hrun & Hso').
    erewrite bind_inr by reflexivity. by rewrite Hrun, Hso'.
  - injection H as <-. exists []. by rewrite app_nil_r.
Qed.

(** X19. The groups do not depend on one another: when
    [process_multicmds] returns a scene, each of the sixteen tables that
    keep the instances of one directive only also gives a scene, and the
    scene of the whole table is these sixteen scenes one after the other,
    in source order. *)
Theorem scene_by_directive (m : table) ds :
  process_multicmds m = inr ds →
  ∃ parts,
    Forall2 (λ k p, process_multicmds (only k (instances m k)) = inr p)
      directive_names parts
    ∧ ds = concat parts.
Proof.
  unfold process_multicmds at 1.
  destruct (blocks m (Locals [] None)) as [e | [[] s']] eqn:H; [done |].
  intros [= <-]. unfold blocks in H.
  do 15 (apply bind_inr_inv in H as ([] & ? & ? & H)).
  apply pml_cfs_replay in H as (dp & Hp & Hrp).
  repeat match goal with
         | Hb : block _ "#geometry_objects_write" _ _ = inr _ |- _ =>
             apply geometry_objects_write_replay in Hb as [? ?]
         | Hb : block _ ?k ?b _ = inr _ |- _ =>
             eapply (block_replay m k _ b) in Hb as (? & ? & ?);
             [| in_table | done | done]
         end.
  eexists [_; _; _; _; _; _; _; _; _; _; _; _; _; _; _; _].
  split.
  - unfold directive_names. repeat (constructor; [eassumption |]).
    constructor.
  - repeat match goal with
           | Hso : scene_objects _ = _ |- _ => rewrite Hso; clear Hso
           end.
    simpl. by rewrite <- ?app_assoc, ?app_nil_r.
Qed.

(** A table with two waveforms and one material. *)
Lemma scene_by_directive_witness :
  ∃ parts,
    Forall2
      (λ k p,
         process_multicmds
           (only k
              (instances
                 (<["#material" := Some ["3 0.01 1 0 sand"]]>
                    (only "#waveform"
                       ["ricker 1 1e9 w1"; "gaussian 2 1e9 w2"])) k))
         = inr p)
      directive_names parts
    ∧ [ Waveform "ricker" (Fdec false 1 0) (Fdec false 1 9) "w1";
        Waveform "gaussian" (Fdec false 2 0) (Fdec false 1 9) "w2";
        Material (Fdec false 3 0) (Fdec false 1 (-2)) (Fdec false 1 0)
          (Fdec false 0 0) "sand" ]
      = concat parts.
Proof.
  apply (scene_by_directive
           (<["#material" := Some ["3 0.01 1 0 sand"]]>
              (only "#waveform" ["ricker 1 1e9 w1"; "gaussian 2 1e9 w2"]))).
  vm_compute. reflexivity.
Defined.

End MultiuseErrors.

(** ** The trigger of a snapshot *)

Module MultiuseSnapshot.
Import Py InputCmdsMultiuse MultiuseProps MultiuseExtra MultiuseParts.
Import MultiuseErrors.

Lemma eleven_tokens (tmp : list string) :
  len tmp = 11 →
  ∃ x0 x1 x2 x3 x4 x5 x6 x7 x8 t9 fn,
    tmp = [x0; x1; x2; x3; x4; x5; x6; x7; x8; t9; fn].
Proof.
  intros H. unfold len in H.
  do 12 (destruct tmp as [| ? tmp]; [simpl in H; try lia |]).
  all: try (simpl in H; lia).
  by eexists _, _, _, _, _, _, _, _, _, _, _.
Qed.

(** The body of the snapshot loop on eleven tokens, from any state: it
    appends the object the rule gives, and raises [ValueError] when the
    rule gives none. *)
Lemma snapshot_body_spec cmdname (tmp : list string) s :
  len tmp = 11 →
  snapshot_body cmdname tmp s =
    match spec_snapshot tmp with
    | Some d => inr ((), Locals (scene_objects s ++ [d]) (InputCmdsMultiuse.tmp s))
    | None => inl ValueError
    end.
Proof.
  intros Hlen.
  destruct (eleven_tokens tmp Hlen)
    as (x0 & x1 & x2 & x3 & x4 & x5 & x6 & x7 & x8 & t9 & fn & ->).
  unfold spec_snapshot, spec_trigger.
  destruct (float_of_string x0) as [f0 |] eqn:H0;
    [| unfold snapshot_body; run; by rewrite H0].
  destruct (float_of_string x1) as [f1 |] eqn:H1;
    [| unfold snapshot_body; run; by rewrite H0, H1].
  destruct (float_of_string x2) as [f2 |] eqn:H2;
    [| unfold snapshot_body; run; by rewrite H0, H1, H2].
  destruct (float_of_string x3) as [f3 |] eqn:H3;
    [| unfold snapshot_body; run; by rewrite H0, H1, H2, H3].
  destruct (float_of_string x4) as [f4 |] eqn:H4;
    [| unfold snapshot_body; run; by rewrite H0, H1, H2, H3, H4].
  destruct (float_of_string x5) as [f5 |] eqn:H5;
    [| unfold snapshot_body; run; by rewrite H0, H1, H2, H3, H4, H5].
  destruct (float_of_string x6) as [f6 |] eqn:H6;
    [| unfold snapshot_body; run; by rewrite H0, H1, H2, H3, H4, H5, H6].
  destruct (float_of_string x7) as [f7 |] eqn:H7;
    [| unfold snapshot_body; run;
       by rewrite H0, H1, H2, H3, H4, H5, H6, H7].
  destruct (float_of_string x8) as [f8 |] eqn:H8;
    [| unfold snapshot_body; run;
       by rewrite H0, H1, H2, H3, H4, H5, H6, H7, H8].
  rewrite (snapshot_body_trigger cmdname x0 x1 x2 x3 x4 x5 x6 x7 x8 t9 fn
             f0 f1 f2 f3 f4 f5 f6 f7 f8 s) by done.
  destruct (int_of_string t9); [done |].
  by destruct (float_of_string t9).
Qed.

(** A pass through the body that returns has appended the object the
    rule gives for its tokens, and nothing else. *)
Lemma snapshot_body_inr cmdname (tmp : list string) s s' :
  snapshot_body cmdname tmp s = inr ((), s') →
  ∃ d, spec_snapshot tmp = Some d
       ∧ scene_objects s' = scene_objects s ++ [d].
Proof.
  intros H. destruct (Z.eqb_spec (len tmp) 11) as [Hlen | Hlen].
  - rewrite snapshot_body_spec in H by done.
    destruct (spec_snapshot tmp) as [d |]; [| done].
    injection H as <-. by exists d.
  - unfold snapshot_body in H.
    destruct (Z.eqb_spec (len tmp) 11); [lia | done].
Qed.

Lemma for_each_snapshot cmdname insts s s' :
  for_each insts (λ i, t ← split_to_tmp i; snapshot_body cmdname t) s
  = inr ((), s') →
  ∃ ds, scene_objects s' = scene_objects s ++ ds
        ∧ Forall2 (λ inst d, spec_snapshot (split inst) = Some d) insts ds.
Proof.
  unfold for_each. revert s. induction insts as [| i insts IH]; intros s H.
  - injection H as <-. exists []. split; [by rewrite app_nil_r | constructor].
  - rewrite for_acc_cons in H.
    apply bind_inr_inv in H as ([] & s1 & Hi & Hrest).
    erewrite bind_inr in Hi by reflexivity.
    apply snapshot_body_inr in Hi as (d & Hd & Hso). simpl in Hso.
    apply IH in Hrest as (ds & Hso' & HF).
    exists (d :: ds). split; [by rewrite Hso', Hso, <- app_assoc |].
    by constructor.
Qed.

Lemma snapshot_block (m : table) s s' :
  block m "#snapshot" snapshot_body s = inr ((), s') →
  ∃ ds, scene_objects s' = scene_objects s ++ ds
        ∧ Forall2 (λ inst d, spec_snapshot (split inst) = Some d)
            (instances m "#snapshot") ds.
Proof.
  intros H. unfold block, for_instances in H.
  apply bind_inr_inv in H as (v & s1 & Hv & H).
  apply lookup_cmd_inv in Hv as [Hm ->]. unfold instances. rewrite Hm.
  destruct v as [insts |].
  - by apply for_each_snapshot in H.
  - injection H as <-. exists []. split; [by rewrite app_nil_r | constructor].
Qed.

Lemma spec_snapshot_kind tmp d :
  spec_snapshot tmp = Some d → kind_of d = "#snapshot".
Proof.
  intros H. destruct (Z.eqb_spec (len tmp) 11) as [Hlen | Hlen].
  - destruct (eleven_tokens tmp Hlen)
      as (x0 & x1 & x2 & x3 & x4 & x5 & x6 & x7 & x8 & t9 & fn & ->).
    unfold spec_snapshot in H.
    repeat match type of H with
           | context [float_of_string ?x ≫= _] =>
               destruct (float_of_string x); simpl in H; [| done]
           end.
    destruct (spec_trigger t9); simpl in H; [| done].
    by injection H as <-.
  - unfold spec_snapshot, len in *.
    do 12 (destruct tmp as [| ? tmp]; [simpl in *; try done; try lia |]).
    done.
Qed.

(** The snapshots of a scene made of objects of one kind each. *)
Lemma filter_kind_other (l : list descriptor) k n :
  kind_of <$> l = replicate n k → k ≠ "#snapshot" →
  filter (λ d, kind_of d = "#snapshot") l = [].
Proof.
  intros Hl Hk. revert n Hl. induction l as [| d l IH]; intros n Hl; [done |].
  destruct n as [| n]; [done |]. injection Hl as Hd Hl.
  rewrite filter_cons_False by congruence. by eapply IH.
Qed.

Lemma filter_snapshots (insts : list string) (l : list descriptor) :
  Forall2 (λ inst d, spec_snapshot (split inst) = Some d) insts l →
  filter (λ d, kind_of d = "#snapshot") l = l.
Proof.
  induction 1 as [| inst d insts l Hd _ IH]; [done |].
  rewrite filter_cons_True by (by eapply spec_snapshot_kind). by rewrite IH.
Qed.

(** C4. Every snapshot instance of eleven tokens, wherever it stands.
    From any state of the locals, with the first nine tokens floats, the
    body of the loop gives the tenth token to [int] first, and the object
    gets [iterations=]; only when [int] raises [ValueError] is the token
    given to [float], and the object gets [time=] (the [ValueError] of
    [float] leaves the function).  And for every table, whatever its
    other directives and however many snapshot instances it has: when
    [process_multicmds] returns, the snapshot objects of the scene are,
    one for one and in order, the objects this rule gives for the
    snapshot instances of the table. *)
Theorem snapshot_int_before_float :
  (∀ cmdname x0 x1 x2 x3 x4 x5 x6 x7 x8 t9 fn
     f0 f1 f2 f3 f4 f5 f6 f7 f8 s,
     float_of_string x0 = Some f0 → float_of_string x1 = Some f1 →
     float_of_string x2 = Some f2 → float_of_string x3 = Some f3 →
     float_of_string x4 = Some f4 → float_of_string x5 = Some f5 →
     float_of_string x6 = Some f6 → float_of_string x7 = Some f7 →
     float_of_string x8 = Some f8 →
     snapshot_body cmdname [x0; x1; x2; x3; x4; x5; x6; x7; x8; t9; fn] s =
       match int_of_string t9 with
       | Some i =>
           inr ((), Locals (scene_objects s ++
                  [Snapshot (f0, f1, f2) (f3, f4, f5) (f6, f7, f8)
                     (iterations i) fn]) (tmp s))
       | None =>
           match float_of_string t9 with
           | Some f =>
               inr ((), Locals (scene_objects s ++
                      [Snapshot (f0, f1, f2) (f3, f4, f5) (f6, f7, f8)
                         (time f) fn]) (tmp s))
           | None => inl ValueError
           end
       end)
  ∧ (∀ (m : table) ds,
       process_multicmds m = inr ds →
       Forall2 (λ inst d, spec_snapshot (split inst) = Some d)
         (instances m "#snapshot")
         (filter (λ d, kind_of d = "#snapshot") ds)).
Proof.
  split.
  { intros cmdname x0 x1 x2 x3 x4 x5 x6 x7 x8 t9 fn
      f0 f1 f2 f3 f4 f5 f6 f7 f8 s H0 H1 H2 H3 H4 H5 H6 H7 H8.
    rewrite snapshot_body_spec by reflexivity.
    unfold spec_snapshot, spec_trigger.
    rewrite H0, H1, H2, H3, H4, H5, H6, H7, H8. simpl.
    destruct (int_of_string t9); [done |].
    by destruct (float_of_string t9). }
  intros m ds. unfold process_multicmds.
  destruct (blocks m (Locals [] None)) as [e | [[] s']] eqn:H; [done |].
  intros [= <-]. unfold blocks in H.
  do 15 (apply bind_inr_inv in H as ([] & ? & ? & H)).
  apply pml_cfs_block_emits in H as (dp & Hp & Hkp & _).
  repeat match goal with
         | Hb : block _ "#geometry_objects_write" _ _ = inr _ |- _ =>
             apply block_stateless in Hb;
             [| intros; apply geometry_objects_write_body_stateless]
         | Hb : block _ "#snapshot" _ _ = inr _ |- _ =>
             apply snapshot_block in Hb as (dsnap & Hsnap & HF)
         | Hb : block _ ?k ?b _ = inr _ |- _ =>
             apply block_emits in Hb as (? & ? & ?);
             [| intros; eapply (body_emits k _ b); [in_table | done]]
         end.
  repeat match goal with
         | Hso : scene_objects _ = _ |- _ => rewrite Hso; clear Hso
         end.
  simpl scene_objects. rewrite !filter_app.
  repeat match goal with
         | Hk : kind_of <$> ?l = replicate _ ?k |- _ =>
             rewrite (filter_kind_other l k _ Hk) by done; clear Hk
         end.
  rewrite (filter_snapshots _ _ HF). simpl. by rewrite ?app_nil_r.
Qed.

(** The two tokens of the specification, in a second and a third
    instance of a table that also has a waveform: ["100"] is an
    iteration count, ["100.5"] is a time, and that time is the rational
    201/2. *)
Lemma snapshot_int_before_float_witness :
  snapshot_body "#snapshot"
    ["0"; "0"; "0"; "1"; "1"; "1"; "0.1"; "0.1"; "0.1"; "100"; "snap"]
    (Locals [Waveform "ricker" (Fdec false 1 0) (Fdec false 1 9) "w1"]
       (Some ["ricker"; "1"; "1e9"; "w1"]))
  = inr ((), Locals
      [ Waveform "ricker" (Fdec false 1 0) (Fdec false 1 9) "w1";
        Snapshot (Fdec false 0 0, Fdec false 0 0, Fdec false 0 0)
          (Fdec false 1 0, Fdec false 1 0, Fdec false 1 0)
          (Fdec false 1 (-1), Fdec false 1 (-1), Fdec false 1 (-1))
          (iterations 100) "snap" ]
      (Some ["ricker"; "1"; "1e9"; "w1"]))
  ∧ snapshot_body "#snapshot"
      ["0"; "0"; "0"; "1"; "1"; "1"; "0.1"; "0.1"; "0.1"; "100.5"; "snap"]
      (Locals [Waveform "ricker" (Fdec false 1 0) (Fdec false 1 9) "w1"]
         (Some ["ricker"; "1"; "1e9"; "w1"]))
    = inr ((), Locals
        [ Waveform "ricker" (Fdec false 1 0) (Fdec false 1 9) "w1";
          Snapshot (Fdec false 0 0, Fdec false 0 0, Fdec false 0 0)
            (Fdec false 1 0, Fdec false 1 0, Fdec false 1 0)
            (Fdec false 1 (-1), Fdec false 1 (-1), Fdec false 1 (-1))
            (time (Fdec false 1005 (-1))) "snap" ]
        (Some ["ricker"; "1"; "1e9"; "w1"]))
  ∧ Forall2 (λ inst d, spec_snapshot (split inst) = Some d)
      (instances
         (<["#snapshot" := Some ["0 0 0 1 1 1 0.1 0.1 0.1 7 a";
                                  "0 0 0 1 1 1 0.1 0.1 0.1 100 b";
                                  "0 0 0 1 1 1 0.1 0.1 0.1 100.5 c"]]>
            (only "#waveform" ["ricker 1 1e9 w1"]))
         "#snapshot")
      (filter (λ d, kind_of d = "#snapshot")
         [ Waveform "ricker" (Fdec false 1 0) (Fdec false 1 9) "w1";
           Snapshot (Fdec false 0 0, Fdec false 0 0, Fdec false 0 0)
             (Fdec false 1 0, Fdec false 1 0, Fdec false 1 0)
             (Fdec false 1 (-1), Fdec false 1 (-1), Fdec false 1 (-1))
             (iterations 7) "a";
           Snapshot (Fdec false 0 0, Fdec false 0 0, Fdec false 0 0)
             (Fdec false 1 0, Fdec false 1 0, Fdec false 1 0)
             (Fdec false 1 (-1), Fdec false 1 (-1), Fdec false 1 (-1))
             (iterations 100) "b";
           Snapshot (Fdec false 0 0, Fdec false 0 0, Fdec false 0 0)
             (Fdec false 1 0, Fdec false 1 0, Fdec false 1 0)
             (Fdec false 1 (-1), Fdec false 1 (-1), Fdec false 1 (-1))
             (time (Fdec false 1005 (-1))) "c" ])
  ∧ (∃ q, Q_of_float (Fdec false 1005 (-1)) = Some q ∧ Qeq q (201 # 2)).
Proof.
  split; [| split; [| split]].
  - exact (proj1 snapshot_int_before_float "#snapshot"
             "0" "0" "0" "1" "1" "1" "0.1" "0.1" "0.1" "100" "snap"
             _ _ _ _ _ _ _ _ _ _
             eq_refl eq_refl eq_refl eq_refl eq_refl eq_refl eq_refl
             eq_refl eq_refl).
  - exact (proj1 snapshot_int_before_float "#snapshot"
             "0" "0" "0" "1" "1" "1" "0.1" "0.1" "0.1" "100.5" "snap"
             _ _ _ _ _ _ _ _ _ _
             eq_refl eq_refl eq_refl eq_refl eq_refl eq_refl eq_refl
             eq_refl eq_refl).
  - apply (proj2 snapshot_int_before_float). vm_compute. reflexivity.
  - eexists. split; [reflexivity | reflexivity].
Defined.

End MultiuseSnapshot.

(** ** Further properties of the simulation configuration *)

Module ConfigExtra.
Import Py Config ConfigProps.

(** *** The two path setters *)

Lemma set_input_file_path_cases args (self : gmap string pyval) :
  set_input_file_path args self =
    match inputfile args, outputfile args with
    | Some i, _ => inr (<["input_file_path" := VPath i]> self)
    | None, Some (Some o) => inr (<["input_file_path" := VPath o]> self)
    | None, Some None => inl TypeError
    | None, None => inl (AttributeError "outputfile")
    end.
Proof.
  unfold set_input_file_path, setattr.
  destruct (inputfile args) as [i |]; case_bool_decide; try done.
  by destruct (outputfile args) as [[o |] |].
Qed.

Lemma set_output_file_path_cases args (self : gmap string pyval) :
  set_output_file_path args self =
    match outputfile args, inputfile args with
    | Some (Some o), _ => inr (<["output_file_path" := VPath o]> self)
    | Some None, _ => inl TypeError
    | None, Some i => inr (<["output_file_path" := VPath i]> self)
    | None, None => inl TypeError
    end.
Proof.
  unfold set_output_file_path, setattr.
  by destruct (outputfile args) as [[o |] |]; destruct (inputfile args).
Qed.

(** *** The constructor, step by step *)

(** What [__init__] has set when it turns to the file paths. *)
Lemma init_copies args f :
  ∃ self0 : gmap string pyval,
    init args f =
      (a ← set_input_file_path args self0;
       b ← set_output_file_path args a;
       c ← f b;
       set_single_model c)
    ∧ self0 !! "n_models" = Some (VInt (n args))
    ∧ self0 !! "inputfile" = Some (of_option_str (inputfile args))
    ∧ self0 !! "gpu" = Some (gpu args)
    ∧ self0 !! "mpi" = Some (VBool (mpi args))
    ∧ self0 !! "mpi_no_spawn" = Some (VBool (mpi_no_spawn args))
    ∧ self0 !! "general" = Some (VDict [("messages", VBool true)])
    ∧ self0 !! "geometry_fixed" = Some (VBool (geometry_fixed args))
    ∧ self0 !! "geometry_only" = Some (VBool (geometry_only args))
    ∧ self0 !! "write_processed" = Some (VBool (write_processed args))
    ∧ self0 !! "subgrid" = Some (default (VBool false) (subgrid args))
    ∧ self0 !! "scenes" = Some (default (VList []) (scenes args))
    ∧ self0 !! "modelstart" = None.
Proof.
  unfold init.
  cbv [try_except_AttributeError args_attr setattr].
  destruct (subgrid args) as [sg |]; destruct (scenes args) as [sn |].
  all: eexists; split; [reflexivity |].
  all: repeat split; by simplify_map_eq.
Qed.

(** The two path setters in a row, by cases on the two file arguments. *)
Lemma paths_cases {A} args (self0 : gmap string pyval)
    (k : gmap string pyval → result A) :
  (a ← set_input_file_path args self0;
   b ← set_output_file_path args a;
   k b) =
    match inputfile args, outputfile args with
    | None, None => inl (AttributeError "outputfile")
    | _, Some None => inl TypeError
    | Some i, None =>
        k (<["output_file_path" := VPath i]>
             (<["input_file_path" := VPath i]> self0))
    | Some i, Some (Some o) =>
        k (<["output_file_path" := VPath o]>
             (<["input_file_path" := VPath i]> self0))
    | None, Some (Some o) =>
        k (<["output_file_path" := VPath o]>
             (<["input_file_path" := VPath o]> self0))
    end.
Proof.
  rewrite set_input_file_path_cases.
  destruct (inputfile args) as [i |] eqn:Hi;
    destruct (outputfile args) as [[o |] |] eqn:Ho;
    cbv [mbind result_bind]; try reflexivity.
  all: rewrite set_output_file_path_cases, Hi, Ho; reflexivity.
Qed.

(** The range and the flag, once the paths are set. *)
Lemma range_then_flag args (self : gmap string pyval) :
  (c ← set_model_start_end args self; set_single_model c) =
    inr (<["single_model" :=
             VBool (bool_decide ((range_of args).1 = 0
                                 ∧ (range_of args).2 = 1))]>
           (<["model_end" := VInt (range_of args).2]>
              (<["model_start" := VInt (range_of args).1]> self))).
Proof.
  rewrite set_model_start_end_eq. cbv [mbind result_bind].
  apply set_single_model_spec; by simplify_map_eq.
Qed.

Lemma range_MPI_raises {A} args (self : gmap string pyval)
    (k : gmap string pyval → result A) :
  self !! "modelstart" = None →
  (c ← set_model_start_end_MPI args self; k c)
  = inl (AttributeError "modelstart").
Proof.
  intros H. by rewrite set_model_start_end_MPI_raises.
Qed.

(** X7. [create_simulation_config] returns an object exactly when neither
    [mpi] nor [mpi_no_spawn] is set, [args.outputfile] is not [None], and
    one of [inputfile], [outputfile] is there to make a path from.
    Otherwise it raises: [UnboundLocalError] for [sc] when only
    [mpi_no_spawn] is set; else [TypeError] when [outputfile] is [None];
    else [AttributeError] for [outputfile] when [inputfile] is [None] and
    the namespace has no [outputfile]; else, with [mpi] set,
    [AttributeError] for [modelstart].  Nothing else is checked: any
    [n], [task] and [restart] are accepted. *)
Theorem create_simulation_config_outcome args :
  ((∃ sc, create_simulation_config args = inr sc) ↔
     mpi args = false ∧ mpi_no_spawn args = false
     ∧ outputfile args ≠ Some None
     ∧ (inputfile args = None → outputfile args ≠ None))
  ∧ ∀ e, create_simulation_config args = inl e ↔
      (mpi args = false ∧ mpi_no_spawn args = true
       ∧ e = UnboundLocalError "sc")
      ∨ ((mpi args = true ∨ mpi_no_spawn args = false)
         ∧ ((outputfile args = Some None ∧ e = TypeError)
            ∨ (inputfile args = None ∧ outputfile args = None
               ∧ e = AttributeError "outputfile")
            ∨ (mpi args = true ∧ outputfile args ≠ Some None
               ∧ (inputfile args = None → outputfile args ≠ None)
               ∧ e = AttributeError "modelstart"))).
Proof.
  unfold create_simulation_config, SimulationConfig, SimulationConfigMPI.
  destruct (init_copies args (set_model_start_end args))
    as (self0 & -> & _).
  destruct (init_copies args (set_model_start_end_MPI args))
    as (self1 & -> & H1).
  do 11 destruct H1 as [_ H1].
  rewrite !paths_cases.
  destruct (mpi args), (mpi_no_spawn args); cbn [negb andb].
  all: destruct (inputfile args) as [i |];
    destruct (outputfile args) as [[o |] |].
  all: try rewrite range_then_flag.
  all: try (rewrite range_MPI_raises
              by (by rewrite !lookup_insert_ne by done)).
  all: split; [split; [intros [sc Hsc] | intros (? & ? & ? & ?)] |
               intros e; split; [intros He | intros Hc]].
  all: try discriminate; try (eexists; reflexivity).
  all: try (injection He as <-).
  all: try match goal with |- ∃ _, _ => exfalso end.
  all: clear H1; intuition (subst; try discriminate; try congruence).
Qed.

(** *** The object returned *)

(** The shape of a returned object: the attributes copied from the
    arguments, then the two paths, the range and the flag. *)
Lemma create_simulation_config_inr args sc :
  create_simulation_config args = inr sc →
  ∃ (self0 : gmap string pyval) pin pout,
    sc = <["single_model" :=
             VBool (bool_decide ((range_of args).1 = 0
                                 ∧ (range_of args).2 = 1))]>
           (<["model_end" := VInt (range_of args).2]>
              (<["model_start" := VInt (range_of args).1]>
                 (<["output_file_path" := VPath pout]>
                    (<["input_file_path" := VPath pin]> self0))))
    ∧ (inputfile args = Some pin
       ∨ inputfile args = None ∧ outputfile args = Some (Some pin))
    ∧ (outputfile args = Some (Some pout)
       ∨ outputfile args = None ∧ inputfile args = Some pout)
    ∧ mpi args = false ∧ mpi_no_spawn args = false
    ∧ self0 !! "n_models" = Some (VInt (n args))
    ∧ self0 !! "inputfile" = Some (of_option_str (inputfile args))
    ∧ self0 !! "gpu" = Some (gpu args)
    ∧ self0 !! "mpi" = Some (VBool (mpi args))
    ∧ self0 !! "mpi_no_spawn" = Some (VBool (mpi_no_spawn args))
    ∧ self0 !! "general" = Some (VDict [("messages", VBool true)])
    ∧ self0 !! "geometry_fixed" = Some (VBool (geometry_fixed args))
    ∧ self0 !! "geometry_only" = Some (VBool (geometry_only args))
    ∧ self0 !! "write_processed" = Some (VBool (write_processed args))
    ∧ self0 !! "subgrid" = Some (default (VBool false) (subgrid args))
    ∧ self0 !! "scenes" = Some (default (VList []) (scenes args))
    ∧ self0 !! "modelstart" = None.
Proof.
  unfold create_simulation_config, SimulationConfig. intros H.
  destruct (mpi args) eqn:Hmpi; cbn [negb andb] in H.
  { destruct (SimulationConfigMPI_raises args) as [e He]. congruence. }
  destruct (mpi_no_spawn args) eqn:Hns; cbn [negb andb] in H; [done |].
  destruct (init_copies args (set_model_start_end args))
    as (self0 & Hinit & Hcopies).
  rewrite Hinit, paths_cases in H.
  destruct (inputfile args) as [i |] eqn:Hi;
    destruct (outputfile args) as [[o |] |] eqn:Ho; try discriminate H.
  all: rewrite range_then_flag in H; injection H as <-.
  - exists self0, i, o. rewrite Hmpi, Hns in Hcopies. auto 10.
  - exists self0, i, i. rewrite Hmpi, Hns in Hcopies. auto 10.
  - exists self0, o, o. rewrite Hmpi, Hns in Hcopies. auto 10.
Qed.

(** X8. In a returned object, [input_file_path] is the path of
    [args.inputfile] when that is given and of [args.outputfile]
    otherwise; [output_file_path] is the path of [args.outputfile] when
    the namespace has one and of [args.inputfile] otherwise.  So the two
    paths differ only when both files are given. *)
Theorem returned_paths args sc :
  create_simulation_config args = inr sc →
  ∃ pin pout,
    sc !! "input_file_path" = Some (VPath pin)
    ∧ sc !! "output_file_path" = Some (VPath pout)
    ∧ (∀ i, inputfile args = Some i → pin = i)
    ∧ (inputfile args = None → outputfile args = Some (Some pin))
    ∧ (∀ o, outputfile args = Some (Some o) → pout = o)
    ∧ (outputfile args = None → inputfile args = Some pout)
    ∧ (pin ≠ pout →
       inputfile args = Some pin ∧ outputfile args = Some (Some pout)).
Proof.
  intros H.
  apply create_simulation_config_inr in H
    as (self0 & pin & pout & -> & Hin & Hout & _).
  exists pin, pout.
  split; [by simplify_map_eq |]. split; [by simplify_map_eq |].
  destruct Hin as [Hi | [Hi Ho]]; destruct Hout as [Ho' | [Ho' Hi']];
    rewrite ?Hi, ?Ho, ?Ho', ?Hi' in *; simplify_eq.
  all: repeat split; intros; simplify_eq; done.
Qed.

(** The command line's arguments for ["model.in"], one model. *)
Lemma returned_paths_witness :
  ∃ sc pin pout,
    create_simulation_config (run_args 1 None None false) = inr sc
    ∧ sc !! "input_file_path" = Some (VPath pin)
    ∧ sc !! "output_file_path" = Some (VPath pout)
    ∧ (∀ i, inputfile (run_args 1 None None false) = Some i → pin = i)
    ∧ (inputfile (run_args 1 None None false) = None →
       outputfile (run_args 1 None None false) = Some (Some pin))
    ∧ (∀ o, outputfile (run_args 1 None None false) = Some (Some o) →
            pout = o)
    ∧ (outputfile (run_args 1 None None false) = None →
       inputfile (run_args 1 None None false) = Some pout)
    ∧ (pin ≠ pout →
       inputfile (run_args 1 None None false) = Some pin
       ∧ outputfile (run_args 1 None None false) = Some (Some pout)).
Proof.
  assert (Hb : returned (create_simulation_config
                           (run_args 1 None None false)) = true)
    by (vm_compute; reflexivity).
  destruct (returned_inr _ Hb) as [sc H].
  destruct (returned_paths _ sc H) as (pin & pout & Hr).
  exists sc, pin, pout. split; [exact H | exact Hr].
Defined.

(** X9. A returned object holds the run arguments it was built from:
    [n_models], [inputfile], [gpu], the three geometry and output flags;
    [mpi] and [mpi_no_spawn], both false; the module's [messages] setting;
    [subgrid] and [scenes] as given, or [False] and the empty list when
    the namespace has none.  No later step of the constructor overwrites
    them, and no attribute [modelstart] is ever set. *)
Theorem returned_copies args sc :
  create_simulation_config args = inr sc →
  sc !! "n_models" = Some (VInt (n args))
  ∧ sc !! "inputfile" = Some (of_option_str (inputfile args))
  ∧ sc !! "gpu" = Some (gpu args)
  ∧ sc !! "mpi" = Some (VBool false)
  ∧ sc !! "mpi_no_spawn" = Some (VBool false)
  ∧ sc !! "general" = Some (VDict [("messages", VBool true)])
  ∧ sc !! "geometry_fixed" = Some (VBool (geometry_fixed args))
  ∧ sc !! "geometry_only" = Some (VBool (geometry_only args))
  ∧ sc !! "write_processed" = Some (VBool (write_processed args))
  ∧ sc !! "subgrid" = Some (default (VBool false) (subgrid args))
  ∧ sc !! "scenes" = Some (default (VList []) (scenes args))
  ∧ sc !! "modelstart" = None.
Proof.
  intros H.
  apply create_simulation_config_inr in H
    as (self0 & pin & pout & -> & _ & _ & Hmpi & Hns & Hc).
  rewrite Hmpi, Hns in Hc.
  rewrite !lookup_insert_ne by done. exact Hc.
Qed.

Lemma returned_copies_witness :
  ∃ sc,
    create_simulation_config (run_args 3 None None false) = inr sc
    ∧ sc !! "n_models" = Some (VInt (n (run_args 3 None None false)))
    ∧ sc !! "inputfile" =
        Some (of_option_str (inputfile (run_args 3 None None false)))
    ∧ sc !! "gpu" = Some (gpu (run_args 3 None None false))
    ∧ sc !! "mpi" = Some (VBool false)
    ∧ sc !! "mpi_no_spawn" = Some (VBool false)
    ∧ sc !! "general" = Some (VDict [("messages", VBool true)])
    ∧ sc !! "geometry_fixed" =
        Some (VBool (geometry_fixed (run_args 3 None None false)))
    ∧ sc !! "geometry_only" =
        Some (VBool (geometry_only (run_args 3 None None false)))
    ∧ sc !! "write_processed" =
        Some (VBool (write_processed (run_args 3 None None false)))
    ∧ sc !! "subgrid" =
        Some (default (VBool false) (subgrid (run_args 3 None None false)))
    ∧ sc !! "scenes" =
        Some (default (VList []) (scenes (run_args 3 None None false)))
    ∧ sc !! "modelstart" = None.
Proof.
  assert (Hb : returned (create_simulation_config
                           (run_args 3 None None false)) = true)
    by (vm_compute; reflexivity).
  destruct (returned_inr _ Hb) as [sc H].
  exists sc. split; [exact H | exact (returned_copies _ sc H)].
Defined.

(** The attributes a model configuration reads, in a returned object. *)
Lemma returned_copies_of args sc :
  create_simulation_config args = inr sc →
  sc !! "scenes" = Some (default (VList []) (scenes args)).
Proof.
  intros H.
  apply create_simulation_config_inr in H
    as (self0 & pin & pout & -> & _ & _ & _ & _ & Hc).
  rewrite !lookup_insert_ne by done. apply Hc.
Qed.

Lemma returned_model_end args sc :
  create_simulation_config args = inr sc →
  sc !! "model_end" = Some (VInt (range_of args).2)
  ∧ ∃ pin, sc !! "input_file_path" = Some (VPath pin).
Proof.
  intros H.
  apply create_simulation_config_inr in H
    as (self0 & pin & pout & -> & _).
  split; [by simplify_map_eq |]. exists pin. by simplify_map_eq.
Qed.

Lemma returned_single_model args sc :
  create_simulation_config args = inr sc →
  sc !! "single_model"
  = Some (VBool (bool_decide ((range_of args).1 = 0
                              ∧ (range_of args).2 = 1))).
Proof.
  intros H.
  apply create_simulation_config_inr in H
    as (self0 & pin & pout & -> & _).
  by simplify_map_eq.
Qed.

End ConfigExtra.

(** ** Properties of the model configuration *)

Module PathProps.
Import Py Config Pathlib.

(** *** Strings *)

Lemma append_cons x a b : String x a +:+ b = String x (a +:+ b).
Proof. reflexivity. Qed.

Lemma append_nil_l b : EmptyString +:+ b = b.
Proof. reflexivity. Qed.

Ltac string_ind a x IH :=
  induction a as [| x a IH];
  rewrite ?append_cons, ?append_nil_l; simpl.

Lemma length_append a b :
  String.length (a +:+ b) = (String.length a + String.length b)%nat.
Proof. string_ind a x IH; [done | by rewrite IH]. Qed.

Lemma append_assoc a b c : (a +:+ b) +:+ c = a +:+ (b +:+ c).
Proof. string_ind a x IH; [done | by rewrite IH]. Qed.

Lemma append_nil_r a : a +:+ EmptyString = a.
Proof. string_ind a x IH; [done | by rewrite IH]. Qed.

(** Appending on the right is injective. *)
Lemma append_inj_r a b c : a +:+ c = b +:+ c → a = b.
Proof.
  revert b. induction a as [| x a IH]; intros [| y b] H;
    rewrite ?append_cons, ?append_nil_l in H.
  - done.
  - apply (f_equal String.length) in H. simpl in H.
    rewrite length_append in H. lia.
  - apply (f_equal String.length) in H. simpl in H.
    rewrite length_append in H. lia.
  - injection H as -> H. f_equal. by apply IH.
Qed.

Lemma has_sep_append a b : has_sep (a +:+ b) = has_sep a || has_sep b.
Proof. string_ind a x IH; [done |]. by rewrite IH, orb_assoc. Qed.

Lemma rfind_dot_bounds s :
  -1 ≤ rfind_dot s < Z.of_nat (String.length s).
Proof.
  induction s as [| x s IH]; simpl; [lia |].
  destruct (Z.leb_spec 0 (rfind_dot s)); [lia |].
  destruct (Ascii.eqb x "."); lia.
Qed.

(** A dot-free tail does not move the last dot. *)
Lemma rfind_dot_append a b :
  rfind_dot b = -1 → rfind_dot (a +:+ b) = rfind_dot a.
Proof. intros Hb. string_ind a x IH; [done |]. by rewrite IH. Qed.

Lemma substring_0_append a b :
  substring 0 (String.length a) (a +:+ b) = a.
Proof. string_ind a x IH; [by destruct b | by rewrite IH]. Qed.

Lemma length_substring_0 k s :
  (k ≤ String.length s)%nat → String.length (substring 0 k s) = k.
Proof.
  revert k. induction s as [| x s IH]; intros [| k] H; simpl in *;
    try done; try lia.
  rewrite IH; lia.
Qed.

Lemma length_substring i k s :
  (i + k ≤ String.length s)%nat → String.length (substring i k s) = k.
Proof.
  revert i k. induction s as [| x s IH]; intros [| i] k H; simpl in *.
  - destruct k; simpl in *; [done | lia].
  - lia.
  - destruct k; simpl; [done |].
    rewrite (length_substring_0 k s); lia.
  - apply IH. lia.
Qed.

Lemma has_sep_substring_0 k s :
  has_sep s = false → has_sep (substring 0 k s) = false.
Proof.
  revert k. induction s as [| x s IH]; intros [| k] H; simpl in *;
    try done.
  apply orb_false_iff in H as [-> H]. simpl. by apply IH.
Qed.

(** A prefix taken inside [a] does not see what follows [a]. *)
Lemma substring_0_append_le k a b :
  (k ≤ String.length a)%nat →
  substring 0 k (a +:+ b) = substring 0 k a.
Proof.
  revert k. induction a as [| x a IH]; intros [| k] H;
    rewrite ?append_cons, ?append_nil_l; simpl in *.
  - by destruct b.
  - lia.
  - done.
  - rewrite IH; [done | lia].
Qed.

(** *** The text of an integer *)

Lemma pretty_N_go_plain x s :
  rfind_dot s = -1 → has_sep s = false →
  rfind_dot (pretty_N_go x s) = -1 ∧ has_sep (pretty_N_go x s) = false.
Proof.
  revert s. induction (N.lt_wf_0 x) as [x _ IH]; intros s Hd Hs.
  assert (x = 0 ∨ 0 < x)%N as [-> | Hx] by lia.
  - by rewrite pretty_N_go_0.
  - rewrite pretty_N_go_step by done. apply IH.
    + by apply N.div_lt.
    + simpl. rewrite Hd. simpl.
      unfold pretty_N_char. by repeat case_match.
    + simpl. rewrite Hs.
      unfold pretty_N_char. by repeat case_match.
Qed.

Lemma pretty_N_plain (x : N) :
  rfind_dot (pretty x) = -1 ∧ has_sep (pretty x) = false.
Proof.
  unfold pretty, pretty_N. case_decide; [done |].
  by apply pretty_N_go_plain.
Qed.

(** The decimal text of an integer has no dot and no separator, and is
    not empty. *)
Lemma pretty_Z_plain (z : Z) :
  rfind_dot (pretty z) = -1 ∧ has_sep (pretty z) = false.
Proof.
  destruct z as [| p | p]; [done | apply (pretty_N_plain (Npos p)) |].
  destruct (pretty_N_plain (Npos p)) as [Hd Hs].
  change (pretty (Z.neg p)) with (String "-" (pretty (Npos p))).
  simpl. by rewrite Hd, Hs.
Qed.

Lemma pretty_N_go_length x s :
  (String.length s ≤ String.length (pretty_N_go x s))%nat.
Proof.
  revert s. induction (N.lt_wf_0 x) as [x _ IH]; intros s.
  assert (x = 0 ∨ 0 < x)%N as [-> | Hx] by lia.
  - by rewrite pretty_N_go_0.
  - rewrite pretty_N_go_step by done.
    etrans; [| apply IH; by apply N.div_lt]. simpl. lia.
Qed.

Lemma pretty_Z_length (z : Z) : (1 ≤ String.length (pretty z))%nat.
Proof.
  assert (HN : ∀ x : N, (1 ≤ String.length (pretty x))%nat).
  { intros x. unfold pretty, pretty_N. case_decide; [simpl; lia |].
    rewrite pretty_N_go_step by lia.
    etrans; [| apply pretty_N_go_length]. simpl. lia. }
  destruct z as [| p | p]; [simpl; lia | apply (HN (Npos p)) |].
  change (pretty (Z.neg p)) with (String "-" (pretty (Npos p))).
  simpl. lia.
Qed.

(** *** Parsing *)

Lemma split_sep_cons s : ∃ w ws, split_sep s = w :: ws.
Proof.
  induction s as [| x s (w & ws & IH)]; simpl; [by eexists _, _ |].
  destruct (Ascii.eqb x "/"); [by eexists _, _ |].
  rewrite IH. by eexists _, _.
Qed.

Lemma split_sep_pieces s : Forall (λ x, has_sep x = false) (split_sep s).
Proof.
  induction s as [| x s IH]; simpl; [by constructor |].
  destruct (Ascii.eqb x "/") eqn:Hx; [by constructor |].
  destruct (split_sep s) as [| w ws]; [by constructor; [simpl; rewrite Hx |] |].
  apply Forall_cons in IH as [Hw Hws].
  constructor; [simpl; by rewrite Hx, Hw | done].
Qed.

Lemma split_sep_no_sep s : has_sep s = false → split_sep s = [s].
Proof.
  induction s as [| x s IH]; simpl; [done |].
  intros [Hx Hs]%orb_false_iff. rewrite Hx, IH by done. done.
Qed.

Lemma splitroot_no_sep x : has_sep x = false → splitroot x = (EmptyString, x).
Proof.
  destruct x as [| c x]; simpl; [done |].
  by intros [-> _]%orb_false_iff.
Qed.

Lemma splitroot_root part :
  (splitroot part).1 = EmptyString ∨ (splitroot part).1 = "/"
  ∨ (splitroot part).1 = "//".
Proof.
  unfold splitroot. destruct part as [| c s]; [by left |].
  destruct (Ascii.eqb c "/"); [| by left].
  cbv zeta. case_match; [by right; right | by right; left].
Qed.

(** Every parsed path is well formed. *)
Lemma parse_parts_wf l : wf (parse_parts l).
Proof.
  induction l as [| part rest [IHr IHn]]; simpl.
  { split; [by left | constructor]. }
  destruct (String.eqb (root (parse_parts rest)) EmptyString) eqn:Hr; simpl;
    [| done].
  destruct (String.eqb part EmptyString); [done |].
  pose proof (splitroot_root part) as Hroot.
  destruct (splitroot part) as [r rel]. split; [exact Hroot |]. simpl.
  apply Forall_app. split; [| done].
  apply Forall_forall.
  intros x [Hx Hk]%list_elem_of_In%filter_In.
  split; [done |].
  pose proof (split_sep_pieces rel) as Hp.
  rewrite Forall_forall in Hp. by apply Hp, list_elem_of_In.
Qed.

Lemma valid_name_ne x : valid_name x → x ≠ EmptyString.
Proof. by intros [Hk _] ->. Qed.

(** Names that are well formed parse to themselves. *)
Lemma parse_parts_names ns :
  Forall valid_name ns →
  parse_parts ns = {| root := EmptyString; names := ns |}.
Proof.
  induction 1 as [| x ns [Hk Hs] _ IH]; simpl; [done |].
  rewrite IH. simpl.
  destruct (String.eqb_spec x EmptyString) as [-> | _]; [done |].
  rewrite splitroot_no_sep, split_sep_no_sep by done. simpl.
  by rewrite Hk.
Qed.

(** A path rebuilt from its own parts is the same path. *)
Lemma parse_parts_parts p : wf p → parse_parts (parts p) = p.
Proof.
  destruct p as [r ns]. intros [Hr Hn]. unfold parts. simpl in *.
  destruct Hr as [-> | [-> | ->]]; simpl; rewrite parse_parts_names by done;
    reflexivity.
Qed.

(** *** Suffixes *)

Lemma getitem_last {A} (pre : list A) x : getitem (pre ++ [x]) (-1) = inr x.
Proof.
  unfold getitem, len. rewrite length_app. simpl.
  destruct (Z.ltb_spec (-1 + Z.of_nat (length pre + 1)) 0); [lia |].
  replace (Z.to_nat (-1 + Z.of_nat (length pre + 1))) with (length pre)
    by lia.
  by rewrite lookup_app_r, Nat.sub_diag by lia.
Qed.

Lemma slice_init {A} (pre : list A) x : slice (pre ++ [x]) 0 (-1) = pre.
Proof.
  unfold slice, clamp, len. rewrite length_app. simpl.
  destruct (Z.ltb_spec (-1 + Z.of_nat (length pre + 1)) 0); [lia |].
  destruct (Z.ltb_spec (Z.of_nat (length pre + 1)) 0); [lia |].
  destruct (Z.ltb_spec (Z.of_nat (length pre + 1))
              (-1 + Z.of_nat (length pre + 1))); [lia |].
  rewrite drop_0.
  replace (Z.to_nat (-1 + Z.of_nat (length pre + 1) - 0))
    with (length pre) by lia.
  by rewrite take_app_length.
Qed.

(** The name [with_suffix] builds is the stem followed by the new
    suffix. *)
Lemma with_suffix_name nm sfx :
  (if String.eqb (name_suffix nm) EmptyString then nm +:+ sfx
   else substring 0 (String.length nm - String.length (name_suffix nm)) nm
        +:+ sfx)
  = name_stem nm +:+ sfx.
Proof.
  unfold name_suffix, name_stem.
  pose proof (rfind_dot_bounds nm) as Hb.
  destruct ((0 <? rfind_dot nm)
            && (rfind_dot nm <? Z.of_nat (String.length nm) - 1)) eqn:Hc;
    [| done].
  apply andb_true_iff in Hc as [H0%Z.ltb_lt H1%Z.ltb_lt].
  set (k := Z.to_nat (rfind_dot nm)).
  assert (Hlen : String.length (substring k (String.length nm - k) nm)
                 = (String.length nm - k)%nat)
    by (apply length_substring; lia).
  destruct (String.eqb_spec
              (substring k (String.length nm - k) nm) EmptyString) as [He |_].
  - rewrite He in Hlen. simpl in Hlen. lia.
  - rewrite Hlen. do 2 f_equal. lia.
Qed.

Lemma with_suffix_eq p sfx ns nm :
  names p = ns ++ [nm] → nm ≠ EmptyString →
  sfx = EmptyString ∨ sfx = ".out" →
  with_suffix p sfx
  = inr {| root := root p; names := ns ++ [name_stem nm +:+ sfx] |}.
Proof.
  intros Hn Hnm Hsfx. unfold with_suffix, suffix, name.
  rewrite Hn, last_snoc, removelast_last. simpl.
  destruct (String.eqb_spec nm EmptyString) as [-> | _]; [done |].
  rewrite with_suffix_name. by destruct Hsfx as [-> | ->].
Qed.

(** With no name to work on, [with_suffix] raises. *)
Lemma with_suffix_no_name p sfx :
  names p = [] → with_suffix p sfx = inl ValueError.
Proof.
  intros Hn. unfold with_suffix, name. rewrite Hn. simpl.
  by repeat case_match.
Qed.

Lemma name_stem_no_sep nm :
  has_sep nm = false → has_sep (name_stem nm) = false.
Proof.
  intros H. unfold name_stem. case_match; [| done].
  by apply has_sep_substring_0.
Qed.

Lemma name_stem_length nm :
  nm ≠ EmptyString → (1 ≤ String.length (name_stem nm))%nat.
Proof.
  intros H. unfold name_stem.
  pose proof (rfind_dot_bounds nm) as Hb.
  destruct ((0 <? rfind_dot nm)
            && (rfind_dot nm <? Z.of_nat (String.length nm) - 1)) eqn:Hc.
  - apply andb_true_iff in Hc as [H0%Z.ltb_lt H1%Z.ltb_lt].
    rewrite length_substring_0; lia.
  - destruct nm; [done | simpl; lia].
Qed.

(** The stem of a name whose last dot comes first, or that has none, is
    the name; the stem of a name followed by dot-free text is cut at
    the last dot of the name as soon as that dot is not the first
    character. *)
Lemma name_stem_plain st num :
  rfind_dot st ≤ 0 → rfind_dot num = -1 →
  name_stem (st +:+ num) = st +:+ num.
Proof.
  intros Hst Hnum. unfold name_stem. rewrite rfind_dot_append by done.
  destruct (Z.ltb_spec 0 (rfind_dot st)); [lia | done].
Qed.

Lemma name_stem_dotted st num :
  0 < rfind_dot st → rfind_dot num = -1 →
  (1 ≤ String.length num)%nat →
  name_stem (st +:+ num) = substring 0 (Z.to_nat (rfind_dot st)) st.
Proof.
  intros Hst Hnum Hlen. unfold name_stem.
  rewrite rfind_dot_append by done.
  pose proof (rfind_dot_bounds st) as Hb.
  rewrite length_append.
  destruct (Z.ltb_spec 0 (rfind_dot st)); [| lia].
  destruct (Z.ltb_spec (rfind_dot st)
              (Z.of_nat (String.length st + String.length num) - 1));
    [| lia].
  simpl. apply substring_0_append_le. lia.
Qed.

Lemma parse_parts_rebuild r ns x :
  r = EmptyString ∨ r = "/" ∨ r = "//" →
  Forall valid_name ns → valid_name x →
  parse_parts ((if String.eqb r EmptyString then [] else [r]) ++ ns ++ [x])
  = {| root := r; names := ns ++ [x] |}.
Proof.
  intros Hr Hns Hx.
  apply (parse_parts_parts {| root := r; names := ns ++ [x] |}).
  split; [done |]. simpl. apply Forall_app. split; [done |].
  by constructor.
Qed.

End PathProps.

Module ModelProps.
Import Py Config Pathlib Model ConfigProps ConfigExtra PathProps.

(** *** The constructor *)

(** [ModelConfig.__init__] on a simulation configuration whose output
    path has a last name [nm], when appending the model number to the
    stem of [nm] gives a name the path parser keeps. *)
Lemma init_eq w repr (sc : gmap string pyval) i v1 pout v2 v3 r ns nm :
  sc !! "single_model" = Some v1 →
  sc !! "output_file_path" = Some (VPath pout) →
  sc !! "model_end" = Some v2 →
  sc !! "input_file_path" = Some v3 →
  parse_parts [pout] = {| root := r; names := ns ++ [nm] |} →
  let num := if negb (truth v1) then pretty (i + 1) else EmptyString in
  let hdr :=
    newline +:+ "--- Model " +:+ pretty (i + 1) +:+ "/" +:+ str_of repr v2
    +:+ ", input file: " +:+ str_of repr v3 in
  kept (name_stem nm +:+ num) = true →
  Model.init w repr sc i =
    inr {| sim_config := sc;
           reuse_geometry := false;
           i := i;
           appendmodelnumber := num;
           output_file_path :=
             {| root := r; names := ns ++ [name_stem nm +:+ num] |};
           output_file_path_ext :=
             {| root := r;
                names := ns ++ [name_stem (name_stem nm +:+ num)
                                +:+ ".out"] |};
           snapshot_dir := "_snaps";
           inputfilestr := hdr;
           next_model :=
             Fore_GREEN
             +:+ (hdr +:+ " "
                  +:+ times "-" (w - 1 - Z.of_nat (String.length hdr))
                  +:+ newline)
             +:+ Style_RESET_ALL |}.
Proof.
  intros H1 Hout H2 H3 Hparse num hdr Hkept.
  pose proof (parse_parts_wf [pout]) as [Hroot Hnames].
  rewrite Hparse in Hroot, Hnames. simpl in Hroot, Hnames.
  apply Forall_app in Hnames as [Hns Hnm].
  apply Forall_cons in Hnm as [[Hk Hsep] _].
  assert (Hne : nm ≠ EmptyString) by (by intros ->).
  assert (Hnum : has_sep num = false).
  { unfold num. destruct (negb (truth v1)); [| done].
    apply pretty_Z_plain. }
  assert (Hvalid : valid_name (name_stem nm +:+ num)).
  { split; [done |]. rewrite has_sep_append, Hnum.
    by rewrite name_stem_no_sep. }
  unfold Model.init, getattr. rewrite H1, Hout, H2, H3.
  cbv [mbind result_bind mret result_ret path_with_suffix].
  rewrite Hparse.
  rewrite (with_suffix_eq _ EmptyString ns nm) by (done || by left).
  rewrite append_nil_r. cbv [root names]. fold num.
  change (parts {| root := r; names := ns ++ [name_stem nm] |})
    with ((if String.eqb r EmptyString then [] else [r])
          ++ ns ++ [name_stem nm]).
  rewrite app_assoc, getitem_last, slice_init, <- app_assoc.
  rewrite (parse_parts_rebuild r ns (name_stem nm +:+ num)) by done.
  rewrite (with_suffix_eq _ ".out" ns (name_stem nm +:+ num));
    [done | done | by apply valid_name_ne | by right].
Qed.

Lemma create_model_config_eq w repr sc i :
  create_model_config w repr sc i = Model.init w repr sc i.
Proof.
  unfold create_model_config. by destruct (Model.init w repr sc i).
Qed.

Lemma not_dot_of_length s : (2 ≤ String.length s)%nat → kept s = true.
Proof.
  destruct s as [| a [| b s]]; simpl; [lia | lia |].
  intros _. unfold kept. simpl. by destruct (Ascii.eqb a ".").
Qed.

(** Appending the model number to a stem gives a name the path parser
    keeps, except for the stem ["."] of a single model. *)
Lemma kept_numbered nm (single : bool) i :
  nm ≠ EmptyString →
  (single = true → name_stem nm ≠ ".") →
  kept (name_stem nm +:+ (if negb single then pretty (i + 1)
                          else EmptyString)) = true.
Proof.
  intros Hne Hdot. pose proof (name_stem_length nm Hne) as Hlen.
  destruct single; simpl.
  - rewrite append_nil_r. unfold kept.
    destruct (String.eqb_spec (name_stem nm) EmptyString) as [He | _].
    { rewrite He in Hlen. simpl in Hlen. lia. }
    destruct (String.eqb_spec (name_stem nm) ".") as [He | _]; [| done].
    by destruct Hdot.
  - apply not_dot_of_length. rewrite length_append.
    pose proof (pretty_Z_length (i + 1)). lia.
Qed.

Lemma parsed_name_ne pout r ns nm :
  parse_parts [pout] = {| root := r; names := ns ++ [nm] |} →
  nm ≠ EmptyString.
Proof.
  intros Hparse. pose proof (parse_parts_wf [pout]) as [_ Hnames].
  rewrite Hparse in Hnames. simpl in Hnames.
  apply Forall_app in Hnames as [_ Hnm].
  apply Forall_cons in Hnm as [[Hk _] _]. by intros ->.
Qed.

Lemma num_plain (single : bool) i :
  rfind_dot (if negb single then pretty (i + 1) else EmptyString) = -1.
Proof. destruct single; [done | apply pretty_Z_plain]. Qed.

(** X10. For an output path whose last name has a stem with no dot after
    its first character, a model configuration is built: model [i] of a
    run of several writes to that stem followed by [i + 1], with the
    extension [.out], in the directory of the output path; a single model
    writes to the stem itself.  (A single model whose stem is ["."] is
    left out: that name is dropped when the path is rebuilt.) *)
Theorem model_output_paths w repr (sc : gmap string pyval) i v1
    pout v2 v3 r ns nm :
  sc !! "single_model" = Some v1 →
  sc !! "output_file_path" = Some (VPath pout) →
  sc !! "model_end" = Some v2 →
  sc !! "input_file_path" = Some v3 →
  parse_parts [pout] = {| root := r; names := ns ++ [nm] |} →
  rfind_dot (name_stem nm) ≤ 0 →
  (truth v1 = true → name_stem nm ≠ ".") →
  ∃ mc,
    create_model_config w repr sc i = inr mc
    ∧ appendmodelnumber mc
      = (if truth v1 then EmptyString else pretty (i + 1))
    ∧ output_file_path mc
      = {| root := r;
           names := ns ++ [name_stem nm +:+ appendmodelnumber mc] |}
    ∧ output_file_path_ext mc
      = {| root := r;
           names := ns ++ [(name_stem nm +:+ appendmodelnumber mc)
                           +:+ ".out"] |}.
Proof.
  intros H1 Hout H2 H3 Hparse Hdot Hsingle.
  pose proof (parsed_name_ne _ _ _ _ Hparse) as Hne.
  rewrite create_model_config_eq.
  rewrite (init_eq w repr sc i _ pout v2 v3 r ns nm H1 Hout H2 H3 Hparse)
    by (by apply kept_numbered).
  eexists. split; [reflexivity |].
  cbv [appendmodelnumber output_file_path output_file_path_ext].
  split; [by destruct (truth v1) |]. split; [done |].
  by rewrite name_stem_plain by (done || apply num_plain).
Qed.

(** Model 3 of a run of several, written next to ["/data/run.in"]. *)
Lemma model_output_paths_witness :
  ∃ mc,
    create_model_config 80 (λ _, EmptyString)
      (sim_config_of "/data/run.in" "/data/run.in" 5 false) 2 = inr mc
    ∧ appendmodelnumber mc = "3"
    ∧ output_file_path mc = {| root := "/"; names := ["data"; "run3"] |}
    ∧ output_file_path_ext mc
      = {| root := "/"; names := ["data"; "run3.out"] |}.
Proof.
  destruct (model_output_paths 80 (λ _, EmptyString)
              (sim_config_of "/data/run.in" "/data/run.in" 5 false) 2
              (VBool false) "/data/run.in" (VInt 5) (VPath "/data/run.in")
              "/" ["data"] "run.in")
    as (mc & Hmc & Hnum & Hout & Hext);
    [vm_compute; reflexivity .. | by vm_compute | discriminate |].
  exists mc. rewrite Hnum in Hout, Hext. by rewrite Hnum, Hout, Hext.
Defined.

(** X11. For an output path whose last name has a stem with a dot after
    its first character, in a run of several models: model [i] gets the
    stem followed by [i + 1] as its output path, but the path with
    extension cuts that name at the dot and so is the same for every
    model. *)
Theorem model_output_ext_shared w repr (sc : gmap string pyval) i v1
    pout v2 v3 r ns nm :
  sc !! "single_model" = Some v1 →
  sc !! "output_file_path" = Some (VPath pout) →
  sc !! "model_end" = Some v2 →
  sc !! "input_file_path" = Some v3 →
  parse_parts [pout] = {| root := r; names := ns ++ [nm] |} →
  truth v1 = false →
  0 < rfind_dot (name_stem nm) →
  ∃ mc,
    create_model_config w repr sc i = inr mc
    ∧ output_file_path mc
      = {| root := r; names := ns ++ [name_stem nm +:+ pretty (i + 1)] |}
    ∧ output_file_path_ext mc
      = {| root := r;
           names := ns ++ [substring 0 (Z.to_nat (rfind_dot (name_stem nm)))
                             (name_stem nm) +:+ ".out"] |}
    ∧ ∀ j mc', create_model_config w repr sc j = inr mc' →
               output_file_path_ext mc' = output_file_path_ext mc.
Proof.
  intros H1 Hout H2 H3 Hparse Hmulti Hdot.
  pose proof (parsed_name_ne _ _ _ _ Hparse) as Hne.
  assert (Hinit : ∀ j, ∃ mc,
    create_model_config w repr sc j = inr mc
    ∧ output_file_path mc
      = {| root := r; names := ns ++ [name_stem nm +:+ pretty (j + 1)] |}
    ∧ output_file_path_ext mc
      = {| root := r;
           names := ns ++ [substring 0 (Z.to_nat (rfind_dot (name_stem nm)))
                             (name_stem nm) +:+ ".out"] |}).
  { intros j. rewrite create_model_config_eq.
    pose proof (kept_numbered nm (truth v1) j Hne) as Hk.
    rewrite (init_eq w repr sc j _ pout v2 v3 r ns nm H1 Hout H2 H3 Hparse)
      by (apply Hk; by rewrite Hmulti).
    eexists. split; [reflexivity |].
    cbv [output_file_path output_file_path_ext]. rewrite Hmulti. simpl.
    split; [done |].
    rewrite name_stem_dotted;
      [done | done | apply pretty_Z_plain | apply pretty_Z_length]. }
  destruct (Hinit i) as (mc & Hmc & Ho & He).
  exists mc. split; [done |]. split; [done |]. split; [done |].
  intros j mc' Hmc'. destruct (Hinit j) as (mc'' & Hmc'' & _ & He').
  rewrite Hmc' in Hmc''. injection Hmc'' as <-. by rewrite He, He'.
Qed.

(** Models 1 and 2 of a run written next to ["run.v2.in"]. *)
Lemma model_output_ext_shared_witness :
  ∃ mc,
    create_model_config 80 (λ _, EmptyString)
      (sim_config_of "run.v2.in" "run.v2.in" 2 false) 0 = inr mc
    ∧ output_file_path mc = {| root := EmptyString; names := ["run.v21"] |}
    ∧ output_file_path_ext mc
      = {| root := EmptyString; names := ["run.out"] |}
    ∧ ∀ j mc',
        create_model_config 80 (λ _, EmptyString)
          (sim_config_of "run.v2.in" "run.v2.in" 2 false) j = inr mc' →
        output_file_path_ext mc' = output_file_path_ext mc.
Proof.
  exact (model_output_ext_shared 80 (λ _, EmptyString)
           (sim_config_of "run.v2.in" "run.v2.in" 2 false) 0
           (VBool false) "run.v2.in" (VInt 2) (VPath "run.v2.in")
           EmptyString [] "run.v2.in"
           eq_refl eq_refl eq_refl eq_refl eq_refl eq_refl eq_refl).
Defined.

(** X12. For an output path whose last name has a stem with no dot after
    its first character, in a run of several models, two models with
    different numbers never get the same output path with extension. *)
Theorem model_output_ext_distinct w repr (sc : gmap string pyval) i j v1
    pout r ns nm mc mc' :
  sc !! "single_model" = Some v1 →
  sc !! "output_file_path" = Some (VPath pout) →
  parse_parts [pout] = {| root := r; names := ns ++ [nm] |} →
  truth v1 = false →
  rfind_dot (name_stem nm) ≤ 0 →
  create_model_config w repr sc i = inr mc →
  create_model_config w repr sc j = inr mc' →
  output_file_path_ext mc = output_file_path_ext mc' →
  i = j.
Proof.
  intros H1 Hout Hparse Hmulti Hdot Hmc Hmc' Heq.
  pose proof (parsed_name_ne _ _ _ _ Hparse) as Hne.
  rewrite create_model_config_eq in Hmc, Hmc'.
  destruct (sc !! "model_end") as [v2 |] eqn:H2.
  2:{ unfold Model.init, getattr in Hmc. rewrite H1, Hout, H2 in Hmc.
      cbv [mbind result_bind mret result_ret] in Hmc.
      by repeat case_match. }
  destruct (sc !! "input_file_path") as [v3 |] eqn:H3.
  2:{ unfold Model.init, getattr in Hmc. rewrite H1, Hout, H2, H3 in Hmc.
      cbv [mbind result_bind mret result_ret] in Hmc.
      by repeat case_match. }
  pose proof (kept_numbered nm (truth v1)) as Hk.
  rewrite (init_eq w repr sc i _ pout v2 v3 r ns nm H1 Hout H2 H3 Hparse)
    in Hmc by (apply Hk; by rewrite ?Hmulti).
  rewrite (init_eq w repr sc j _ pout v2 v3 r ns nm H1 Hout H2 H3 Hparse)
    in Hmc' by (apply Hk; by rewrite ?Hmulti).
  injection Hmc as <-. injection Hmc' as <-.
  cbv [output_file_path_ext] in Heq. rewrite Hmulti in Heq. simpl in Heq.
  injection Heq as Heq. apply app_inv_head in Heq. injection Heq as Heq.
  rewrite !name_stem_plain in Heq by (done || apply pretty_Z_plain).
  apply append_inj_r, (inj _) in Heq.
  apply (inj pretty) in Heq. lia.
Qed.

(** Models 2 and [j] of a run written next to ["model.in"]. *)
Lemma model_output_ext_distinct_witness :
  ∃ mc,
    create_model_config 80 (λ _, EmptyString)
      (sim_config_of "model.in" "model.in" 3 false) 1 = inr mc
    ∧ ∀ j mc',
        create_model_config 80 (λ _, EmptyString)
          (sim_config_of "model.in" "model.in" 3 false) j = inr mc' →
        output_file_path_ext mc = output_file_path_ext mc' →
        1 = j.
Proof.
  assert (Hb : returned (create_model_config 80 (λ _, EmptyString)
                 (sim_config_of "model.in" "model.in" 3 false) 1) = true)
    by (vm_compute; reflexivity).
  destruct (returned_inr _ Hb) as [mc Hmc].
  exists mc. split; [exact Hmc |]. intros j mc' Hmc'.
  exact (model_output_ext_distinct 80 (λ _, EmptyString)
           (sim_config_of "model.in" "model.in" 3 false) 1 j
           (VBool false) "model.in" EmptyString [] "model.in" mc mc'
           eq_refl eq_refl eq_refl eq_refl
           ltac:(by vm_compute) Hmc Hmc').
Defined.

(** *** Errors of the constructor *)

(** X13. The constructor raises [ValueError] when the output path of the
    simulation has no name to append to, as for the paths ["."] and
    ["/"] and the empty string, and [AttributeError] when the attribute
    is not a path; the model number plays no part. *)
Theorem model_config_needs_name w repr (sc : gmap string pyval) i v1 v :
  sc !! "single_model" = Some v1 →
  sc !! "output_file_path" = Some v →
  (∀ pout, v = VPath pout → names (parse_parts [pout]) = [] →
           create_model_config w repr sc i = inl ValueError)
  ∧ ((∀ pout, v ≠ VPath pout) →
     create_model_config w repr sc i = inl (AttributeError "with_suffix")).
Proof.
  intros H1 Hout. rewrite create_model_config_eq.
  unfold Model.init, getattr. rewrite H1, Hout.
  cbv [mbind result_bind mret result_ret path_with_suffix].
  split.
  - intros pout -> Hn. by rewrite with_suffix_no_name.
  - intros Hv. destruct v; try done. by destruct (Hv p).
Qed.

Lemma model_config_needs_name_witness :
  create_model_config 80 (λ _, EmptyString)
    (sim_config_of "model.in" "." 1 true) 0 = inl ValueError.
Proof.
  exact (proj1 (model_config_needs_name 80 (λ _, EmptyString)
                  (sim_config_of "model.in" "." 1 true) 0
                  (VBool true) (VPath ".") eq_refl eq_refl)
           "." eq_refl eq_refl).
Defined.

(** *** The banner *)

Lemma getattr_inr (self : gmap string pyval) name v :
  getattr self name = inr v → self !! name = Some v.
Proof. unfold getattr. destruct (self !! name); by intros [= ->]. Qed.

Lemma length_times c k : String.length (times c k) = Z.to_nat k.
Proof.
  unfold times. induction (Z.to_nat k) as [| m IH]; simpl; [done |].
  by rewrite IH.
Qed.

(** What a returned model configuration holds besides its paths. *)
Lemma init_inr_fields w repr (sc : gmap string pyval) i mc :
  Model.init w repr sc i = inr mc →
  ∃ v2 v3,
    sc !! "model_end" = Some v2
    ∧ sc !! "input_file_path" = Some v3
    ∧ sim_config mc = sc
    ∧ Model.i mc = i
    ∧ reuse_geometry mc = false
    ∧ snapshot_dir mc = "_snaps"
    ∧ inputfilestr mc
      = newline +:+ "--- Model " +:+ pretty (i + 1) +:+ "/"
        +:+ str_of repr v2 +:+ ", input file: " +:+ str_of repr v3
    ∧ next_model mc
      = Fore_GREEN
        +:+ (inputfilestr mc +:+ " "
             +:+ times "-" (w - 1 - Z.of_nat (String.length (inputfilestr mc)))
             +:+ newline)
        +:+ Style_RESET_ALL.
Proof.
  unfold Model.init. intros H.
  apply result_bind_inr in H as (v1 & _ & H).
  apply result_bind_inr in H as (vo & _ & H).
  apply result_bind_inr in H as (stripped & _ & H).
  apply result_bind_inr in H as (last_part & _ & H).
  apply result_bind_inr in H as (ext & _ & H).
  apply result_bind_inr in H as (v2 & H2%getattr_inr & H).
  apply result_bind_inr in H as (v3 & H3%getattr_inr & H).
  injection H as <-. by exists v2, v3.
Qed.

(** X14. A returned model configuration records the simulation
    configuration and the model number, no reuse of geometry, and the
    snapshot directory ["_snaps"].  Its banner is the header line, a
    space, and dashes up to one column short of the terminal width, with
    a newline, in green: [w + 1] characters between the colour codes, or
    the header and two more when the header alone is that long, in which
    case no dash is printed. *)
Theorem model_banner w repr (sc : gmap string pyval) i mc :
  create_model_config w repr sc i = inr mc →
  sim_config mc = sc ∧ Model.i mc = i
  ∧ reuse_geometry mc = false ∧ snapshot_dir mc = "_snaps"
  ∧ (∃ v2 v3,
       sc !! "model_end" = Some v2 ∧ sc !! "input_file_path" = Some v3
       ∧ inputfilestr mc
         = newline +:+ "--- Model " +:+ pretty (i + 1) +:+ "/"
           +:+ str_of repr v2 +:+ ", input file: " +:+ str_of repr v3)
  ∧ Z.of_nat (String.length (next_model mc))
    = 9 + Z.max (w + 1) (Z.of_nat (String.length (inputfilestr mc)) + 2).
Proof.
  rewrite create_model_config_eq. intros H.
  apply init_inr_fields in H
    as (v2 & v3 & H2 & H3 & Hsc & Hi & Hg & Hs & Hhdr & Hnext).
  do 4 (split; [done |]). split; [by exists v2, v3 |].
  rewrite Hnext, !length_append, length_times. simpl. lia.
Qed.

(** The first model of three, on a terminal of 80 columns. *)
Lemma model_banner_witness :
  ∃ mc,
    create_model_config 80 (λ _, EmptyString)
      (sim_config_of "model.in" "model.in" 3 false) 0 = inr mc
    ∧ inputfilestr mc = newline +:+ "--- Model 1/3, input file: model.in"
    ∧ Z.of_nat (String.length (next_model mc)) = 90.
Proof.
  assert (Hb : returned (create_model_config 80 (λ _, EmptyString)
                 (sim_config_of "model.in" "model.in" 3 false) 0) = true)
    by (vm_compute; reflexivity).
  destruct (returned_inr _ Hb) as [mc Hmc].
  destruct (model_banner _ _ _ _ _ Hmc)
    as (_ & _ & _ & _ & (v2 & v3 & H2 & H3 & Hhdr) & Hlen).
  assert (v2 = VInt 3) as -> by (vm_compute in H2; congruence).
  assert (v3 = VPath "model.in") as -> by (vm_compute in H3; congruence).
  exists mc. split; [exact Hmc |].
  assert (Hh : inputfilestr mc
               = newline +:+ "--- Model 1/3, input file: model.in")
    by (rewrite Hhdr; vm_compute; reflexivity).
  split; [exact Hh |]. rewrite Hlen, Hh. vm_compute. reflexivity.
Defined.

(** *** The scene and the user namespace *)

(** X15. For a model configuration over the object
    [create_simulation_config] returns: when the run arguments have no
    [scenes], or an empty list, [get_scene] returns [None] for every
    model number and never raises; when they have a list, model [i] gets
    its [i]-th element if [0 <= i < len], and [IndexError] if the list is
    not empty and [i >= len]. *)
Theorem get_scene_of_run args mc :
  create_simulation_config args = inr (sim_config mc) →
  (scenes args = None ∨ scenes args = Some (VList []) →
   get_scene mc = inr VNone)
  ∧ (∀ l x, scenes args = Some (VList l) →
            l !! Z.to_nat (Model.i mc) = Some x → 0 ≤ Model.i mc →
            get_scene mc = inr x)
  ∧ (∀ l, scenes args = Some (VList l) → l ≠ [] →
          len l ≤ Model.i mc → get_scene mc = inl IndexError).
Proof.
  intros H. apply returned_copies_of in H as Hc.
  unfold get_scene, getattr. rewrite Hc.
  cbv [mbind result_bind mret result_ret].
  split; [| split].
  - by intros [-> | ->].
  - intros l x -> Hx Hi. simpl.
    destruct l as [| y l]; [done |]. simpl truth. cbv iota.
    unfold getitem.
    destruct (Z.ltb_spec (Model.i mc) 0); [lia |].
    destruct (Z.ltb_spec (Model.i mc) 0); [lia |]. by rewrite Hx.
  - intros l -> Hl Hi. simpl.
    destruct l as [| y l]; [done |]. simpl truth. cbv iota.
    unfold getitem. unfold len in *.
    destruct (Z.ltb_spec (Model.i mc) 0); [lia |].
    destruct (Z.ltb_spec (Model.i mc) 0); [lia |].
    rewrite lookup_ge_None_2; [done | lia].
Qed.

(** The command line's run of three models: no scenes. *)
Lemma get_scene_of_run_witness :
  ∃ sc,
    create_simulation_config (run_args 3 None None false) = inr sc
    ∧ ∀ mc, sim_config mc = sc → get_scene mc = inr VNone.
Proof.
  assert (Hb : returned (create_simulation_config
                           (run_args 3 None None false)) = true)
    by (vm_compute; reflexivity).
  destruct (returned_inr _ Hb) as [sc H].
  exists sc. split; [exact H |]. intros mc Hmc. rewrite <- Hmc in H.
  exact (proj1 (get_scene_of_run _ mc H) (or_introl eq_refl)).
Defined.

(** X16. For a model configuration over the object
    [create_simulation_config] returns, [get_usernamespace] returns
    exactly when the input path resolves, and then gives the four
    constants, the resolved path, [current_model_run = i + 1] and
    [number_model_runs = model_end + 1]: for a default run of [n] models
    that is [n + 1], for task [t] it is [t + 1], and for a restart from
    [r] it is [r + n - 1]. *)
Theorem usernamespace_of_run c e0 m0 z0 resolve args mc :
  create_simulation_config args = inr (sim_config mc) →
  ∃ pin,
    sim_config mc !! "input_file_path" = Some (VPath pin)
    ∧ (∀ e, resolve (parse_parts [pin]) = inl e →
            get_usernamespace c e0 m0 z0 resolve mc = inl e)
    ∧ (∀ rp, resolve (parse_parts [pin]) = inr rp →
         ∃ ns runs,
           get_usernamespace c e0 m0 z0 resolve mc = inr ns
           ∧ ns !! "c" = Some (NFloat c)
           ∧ ns !! "e0" = Some (NFloat e0)
           ∧ ns !! "m0" = Some (NFloat m0)
           ∧ ns !! "z0" = Some (NFloat z0)
           ∧ ns !! "inputfile" = Some (NPath rp)
           ∧ ns !! "current_model_run" = Some (NInt (Model.i mc + 1))
           ∧ ns !! "number_model_runs" = Some (NInt runs)
           ∧ (∀ t, task args = Some t → t ≠ 0 → runs = t + 1)
           ∧ (∀ r, truthy (task args) = false → restart args = Some r →
                   r ≠ 0 → runs = r + n args - 1)
           ∧ (truthy (task args) = false → truthy (restart args) = false →
              runs = n args + 1)).
Proof.
  intros H. apply returned_model_end in H as [He [pin Hpin]].
  exists pin. split; [done |].
  unfold get_usernamespace, getattr. rewrite He, Hpin.
  cbv [mbind result_bind mret result_ret int_operand].
  split.
  - by intros e ->.
  - intros rp ->. eexists _, ((range_of args).2 + 1).
    split; [reflexivity |].
    do 7 (split; [by simplify_map_eq |]).
    destruct (range_of_cases args) as (Ht & Hr & Hd).
    split; [| split].
    + intros t H1 H2. rewrite (Ht t H1 H2). simpl. lia.
    + intros r H1 H2 H3. rewrite (Hr r H1 H2 H3). simpl. lia.
    + intros H1 H2. rewrite (Hd H1 H2). simpl. lia.
Qed.

(** The command line's default run of three models, with the constants
    to the digits [scipy] prints and a file system that resolves every
    path to itself. *)
Lemma usernamespace_of_run_witness :
  ∃ sc,
    create_simulation_config (run_args 3 None None false) = inr sc
    ∧ ∀ mc, sim_config mc = sc →
        ∃ ns,
          get_usernamespace (Fdec false 299792458 0)
            (Fdec false 88541878128 (-22)) (Fdec false 125663706212 (-17))
            (Fdec false 376730313668 (-9)) inr mc = inr ns
          ∧ ns !! "number_model_runs" = Some (NInt 4).
Proof.
  assert (Hb : returned (create_simulation_config
                           (run_args 3 None None false)) = true)
    by (vm_compute; reflexivity).
  destruct (returned_inr _ Hb) as [sc H].
  exists sc. split; [exact H |]. intros mc Hmc. rewrite <- Hmc in H.
  destruct (usernamespace_of_run (Fdec false 299792458 0)
              (Fdec false 88541878128 (-22)) (Fdec false 125663706212 (-17))
              (Fdec false 376730313668 (-9)) inr _ mc H)
    as (pin & _ & _ & Hns).
  destruct (Hns _ eq_refl)
    as (ns & runs & Hget & _ & _ & _ & _ & _ & _ & Hruns & _ & _ & Hd).
  exists ns. split; [exact Hget |].
  by rewrite Hruns, (Hd eq_refl eq_refl).
Defined.

(** *** When the model number is left out *)

Lemma init_inr_number w repr (sc : gmap string pyval) i mc :
  Model.init w repr sc i = inr mc →
  ∃ v1,
    sc !! "single_model" = Some v1
    ∧ appendmodelnumber mc
      = (if negb (truth v1) then pretty (i + 1) else EmptyString).
Proof.
  unfold Model.init. intros H.
  apply result_bind_inr in H as (v1 & H1%getattr_inr & H).
  apply result_bind_inr in H as (vo & _ & H).
  apply result_bind_inr in H as (stripped & _ & H).
  apply result_bind_inr in H as (last_part & _ & H).
  apply result_bind_inr in H as (ext & _ & H).
  apply result_bind_inr in H as (v2 & _ & H).
  apply result_bind_inr in H as (v3 & _ & H).
  injection H as <-. by exists v1.
Qed.

Lemma pretty_Z_ne_empty (z : Z) : pretty z ≠ EmptyString.
Proof.
  intros H. pose proof (pretty_Z_length z) as Hlen.
  rewrite H in Hlen. simpl in Hlen. lia.
Qed.

(** X20. For a model configuration built over the object
    [create_simulation_config] returns, the model number is left out of
    the output name exactly when the range is the single model 0: a
    default run with [n = 1], task 1, or a restart from 1 with [n = 2].
    In every other case the suffix is the text of [i + 1]; so of the
    tasks of a job array, task 1 alone writes to the bare stem. *)
Theorem model_number_left_out w repr args sc i mc :
  create_simulation_config args = inr sc →
  create_model_config w repr sc i = inr mc →
  (appendmodelnumber mc = EmptyString
   ∨ appendmodelnumber mc = pretty (i + 1))
  ∧ (∀ t, task args = Some t → t ≠ 0 →
          (appendmodelnumber mc = EmptyString ↔ t = 1))
  ∧ (∀ r, truthy (task args) = false → restart args = Some r → r ≠ 0 →
          (appendmodelnumber mc = EmptyString ↔ r = 1 ∧ n args = 2))
  ∧ (truthy (task args) = false → truthy (restart args) = false →
     (appendmodelnumber mc = EmptyString ↔ n args = 1)).
Proof.
  intros Hsc Hmc. rewrite create_model_config_eq in Hmc.
  apply init_inr_number in Hmc as (v1 & H1 & Hnum).
  apply returned_single_model in Hsc. rewrite Hsc in H1.
  injection H1 as <-. simpl in Hnum.
  pose proof (pretty_Z_ne_empty (i + 1)) as Hne.
  destruct (range_of_cases args) as (Ht & Hr & Hd).
  split; [| split; [| split]].
  - rewrite Hnum. case_bool_decide; auto.
  - intros t H1 H2. rewrite (Ht t H1 H2) in Hnum. simpl in Hnum.
    rewrite Hnum. case_bool_decide as Hb; simpl; split; try done.
    + intros _. lia.
    + intros ->. destruct Hb. lia.
  - intros r H1 H2 H3. rewrite (Hr r H1 H2 H3) in Hnum. simpl in Hnum.
    rewrite Hnum. case_bool_decide as Hb; simpl; split; try done.
    + intros _. lia.
    + intros [-> Hn]. destruct Hb. lia.
  - intros H1 H2. rewrite (Hd H1 H2) in Hnum. simpl in Hnum.
    rewrite Hnum. case_bool_decide as Hb; simpl; split; try done.
    + intros _. lia.
    + intros Hn. destruct Hb. lia.
Qed.

(** Task 1 of a job array for ["model.in"]. *)
Lemma model_number_left_out_witness :
  ∃ sc mc,
    create_simulation_config (run_args 4 (Some 1) None false) = inr sc
    ∧ create_model_config 80 (λ _, EmptyString) sc 0 = inr mc
    ∧ appendmodelnumber mc = EmptyString.
Proof.
  assert (Hb : returned (create_simulation_config
                           (run_args 4 (Some 1) None false)) = true)
    by (vm_compute; reflexivity).
  destruct (returned_inr _ Hb) as [sc H].
  assert (Hb' : returned (sc ← create_simulation_config
                                 (run_args 4 (Some 1) None false);
                          create_model_config 80 (λ _, EmptyString) sc 0)
                = true)
    by (vm_compute; reflexivity).
  rewrite H in Hb'.
  destruct (returned_inr _ Hb') as [mc Hmc].
  exists sc, mc. split; [exact H |]. split; [exact Hmc |].
  destruct (model_number_left_out _ _ _ sc 0 mc H Hmc)
    as (_ & Ht & _).
  by apply (Ht 1).
Defined.

End ModelProps.
